(** * The MindsDB supervisor (mindsdb/__main__.py): restart policy,
      shutdown, health gate, watch loop and orphan reconciliation.

    Shallow embedding of the Python code.  Integers are [Z]; Python lists
    are Rocq lists; the insertion-ordered dict [trunc_processes_struct] is an
    association list; every call that leaves the interpreter (the OS, the
    clock, psutil) is answered by an oracle that sees the history of such
    calls made so far. *)

From Stdlib Require Import ZArith List Bool Ascii String Lia.
From stdpp Require Import base decidable option list.
Import ListNotations.
Local Open Scope string_scope.
Local Open Scope list_scope.
Local Open Scope Z_scope.

(** ** Data model *)

(** [class TrunkProcessEnum(Enum)] *)
Inductive TrunkProcessEnum :=
  HTTP | MYSQL | MONGODB | POSTGRES | JOBS | TASKS | ML_TASK_QUEUE | MCP.

#[global] Instance TrunkProcessEnum_eq_dec : EqDecision TrunkProcessEnum.
Proof. solve_decision. Defined.

(** [TrunkProcessEnum.X.value] *)
Definition enum_value (e : TrunkProcessEnum) : string :=
  match e with
  | HTTP => "http" | MYSQL => "mysql" | MONGODB => "mongodb"
  | POSTGRES => "postgres" | JOBS => "jobs" | TASKS => "tasks"
  | ML_TASK_QUEUE => "ml_task_queue" | MCP => "mcp"
  end.

(** The entrypoints imported from [mindsdb.utilities.starters]; only their
    identity matters to the supervisor. *)
Inductive Entrypoint :=
  start_http | start_mysql | start_mongo | start_postgres
| start_ml_task_queue | start_scheduler | start_tasks | start_mcp.

(** An [mp.Process] handle as the supervisor sees it: [pid] is [None] until
    [start()] has succeeded, [exitcode] is [None] until the exit of the
    process has been observed. *)
Record Process := mkProcess {
  pid : option Z;
  exitcode : option Z
}.

(** [@dataclass class TrunkProcessData] *)
Record TrunkProcessData := mkTrunkProcessData {
  name : string;
  entrypoint : Entrypoint;
  need_to_run : bool;
  port : option Z;
  process : option Process;
  started : bool;
  args : option (list bool);
  restart_on_failure : bool;
  max_restart_count : Z;
  max_restart_interval_seconds : Z;
  _restart_count : Z;
  _restarts_time : list Z
}.

Definition set_restarts_time (l : list Z) (d : TrunkProcessData) : TrunkProcessData :=
  mkTrunkProcessData (name d) (entrypoint d) (need_to_run d) (port d) (process d)
    (started d) (args d) (restart_on_failure d) (max_restart_count d)
    (max_restart_interval_seconds d) (_restart_count d) l.

Definition set_process (p : option Process) (d : TrunkProcessData) : TrunkProcessData :=
  mkTrunkProcessData (name d) (entrypoint d) (need_to_run d) (port d) p
    (started d) (args d) (restart_on_failure d) (max_restart_count d)
    (max_restart_interval_seconds d) (_restart_count d) (_restarts_time d).

Definition set_args (a : option (list bool)) (d : TrunkProcessData) : TrunkProcessData :=
  mkTrunkProcessData (name d) (entrypoint d) (need_to_run d) (port d) (process d)
    (started d) a (restart_on_failure d) (max_restart_count d)
    (max_restart_interval_seconds d) (_restart_count d) (_restarts_time d).

(** The exceptions the supervisor code distinguishes. *)
Inductive exn :=
| NoSuchProcess                 (* psutil.NoSuchProcess *)
| KeyboardInterrupt
| SystemExit (code : Z)         (* sys.exit(code) *)
| AttributeError                (* attribute access on None *)
| OtherException (what : string).

(** [except Exception] catches everything but the [BaseException]-only
    classes [KeyboardInterrupt] and [SystemExit]. *)
Definition is_Exception (e : exn) : bool :=
  match e with
  | KeyboardInterrupt | SystemExit _ => false
  | _ => true
  end.

(** ** Restart policy *)

(** [signal.SIGKILL.value] and [signal.SIGTERM.value] on linux and darwin. *)
Definition SIGKILL : Z := 9.
Definition SIGTERM : Z := 15.

(** [TrunkProcessData.request_restart_attempt]; [now] is the value of
    [int(time.time())] read by the call.  Returns the answer and the
    descriptor as the call leaves it. *)
Definition request_restart_attempt (now : Z) (self : TrunkProcessData)
  : bool * TrunkProcessData :=
  if max_restart_count self =? 0 then (true, self)
  else
    let current_time_seconds := now in
    let appended := _restarts_time self ++ [current_time_seconds] in
    let kept :=
      if 0 <? max_restart_interval_seconds self then
        List.filter
          (fun x => current_time_seconds - max_restart_interval_seconds self <=? x)
          appended
      else appended in
    let self' := set_restarts_time kept self in
    if max_restart_count self <? Z.of_nat (length kept) then (false, self')
    else (true, self').

(** Successive calls of [request_restart_attempt] at the given times: the
    answers in call order and the final descriptor. *)
Fixpoint restart_attempts (times : list Z) (self : TrunkProcessData)
  : list bool * TrunkProcessData :=
  match times with
  | [] => ([], self)
  | t :: ts =>
      let '(b, self') := request_restart_attempt t self in
      let '(bs, self'') := restart_attempts ts self' in
      (b :: bs, self'')
  end.

(** [sys.platform in ('linux', 'darwin')] *)
Definition platform_in_linux_darwin (platform : string) : bool :=
  String.eqb platform "linux" || String.eqb platform "darwin".

(** [process.exitcode == -signal.SIGKILL.value] ([None == -9] is [False]). *)
Definition exitcode_is (code : Z) (p : Process) : bool :=
  match exitcode p with
  | Some c => c =? code
  | None => false
  end.

(** The property [TrunkProcessData.should_restart], with [config.is_cloud]
    and [sys.platform] as arguments.  [self.process.exitcode] raises
    [AttributeError] when [self.process] is [None]; Python's [and] does not
    evaluate it when [restart_on_failure] is false. *)
Definition should_restart (is_cloud : bool) (platform : string)
    (self : TrunkProcessData) : exn + bool :=
  if is_cloud then inr false
  else if platform_in_linux_darwin platform then
    if restart_on_failure self then
      match process self with
      | None => inl AttributeError
      | Some p => inr (exitcode_is (- SIGKILL) p)
      end
    else inr false
  else
    if max_restart_count self =? 0 then inr false
    else inr (restart_on_failure self).

(** The decision rule in the words of the specification: append [now]; if
    the window is positive drop the entries older than [now - window]. *)
Definition spec_history (now window : Z) (history : list Z) : list Z :=
  let h := history ++ [now] in
  if 0 <? window then List.filter (fun x => negb (x <? now - window)) h else h.

(** The attempts of [l] that lie in the closed window [[t - w, t]]. *)
Definition in_window (w t : Z) (l : list Z) : list Z :=
  List.filter (fun x => (t - w <=? x) && (x <=? t)) l.

(** The restart rule of the specification's data model, in its words: the
    flag is set, and either the deployment is not hosted or the exit is the
    out-of-memory kill on a platform that can tell. *)
Definition spec_restart_eligible (is_cloud : bool) (platform : string)
    (self : TrunkProcessData) : bool :=
  restart_on_failure self
  && (negb is_cloud
      || (platform_in_linux_darwin platform
          && match process self with
             | Some p => exitcode_is (- SIGKILL) p
             | None => false
             end)).

(** The descriptor of the scenarios: restarts enabled, at most 3 restarts in
    60 seconds, a process that ended with the given exit code. *)
Definition crashed_http (code : Z) : TrunkProcessData :=
  mkTrunkProcessData "http" start_http true (Some 47334)
    (Some (mkProcess (Some 100) (Some code))) false (Some [false; false])
    true 3 60 0 [].

(** The same descriptor with no bound on the number of restarts. *)
Definition unlimited_http : TrunkProcessData :=
  mkTrunkProcessData "http" start_http true (Some 47334)
    (Some (mkProcess (Some 100) (Some (- SIGKILL)))) false (Some [false; false])
    true 0 60 0 [].

(** The same descriptor with a bound that never expires. *)
Definition bounded_forever_http : TrunkProcessData :=
  mkTrunkProcessData "http" start_http true (Some 47334)
    (Some (mkProcess (Some 100) (Some (- SIGKILL)))) false (Some [false; false])
    true 3 0 0 [].

(** ** The supervisor's world *)

Inductive log_level := LogInfo | LogWarning | LogError.

(** The messages of the [logger] calls of the supervisor. *)
Inductive log_message :=
| MsgStarting (api_name : string)                   (* "{name} API: starting..." *)
| MsgFailedToStart (api_name : string) (e : exn)    (* "Failed to start {name} API ..." *)
| MsgStarted (api_name : string) (on_port : option Z)   (* "{name} API: started on {port}" *)
| MsgCantStart (api_name : string) (on_port : option Z) (* "ERROR: {name} API cant start on {port}" *)
| MsgKeyboardInterrupt                              (* "Got keyboard interrupt, stopping APIs" *)
| MsgRestarting (api_name : string)                 (* "... stopped unexpectedly, restarting" *)
| MsgNoFurtherRestart (api_name : string)           (* "... There will be no further attempts ..." *)
| MsgStopped (api_name : string)                    (* "{name} API: stopped" *)
| MsgMaxRestartCountZero.                           (* "... not possible to use max_restart_count=0" *)

(** What the supervisor does to the outside, in order, each call with the
    answer it got. *)
Inductive event :=
| EvGetChildPids (of_pid : option Z) (r : exn + list Z)  (* get_child_pids(process.pid) *)
| EvOsKill (p sig : Z) (r : option exn)                  (* os.kill(p, signal.SIGTERM) *)
| EvChildKill (p : Z) (r : option exn)                   (* p.kill() *)
| EvFlush                                                (* sys.stdout.flush() *)
| EvTerminate (of_pid : Z)                               (* process.terminate() *)
| EvJoin (of_pid : Z) (r : exn + Z)                      (* process.join() *)
| EvStart (api_name : string) (ep : Entrypoint) (a : option (list bool))
    (r : exn + Z)                                        (* ctx.Process(...).start() *)
| EvWait (of_pid : Z) (r : exn + Z)                      (* while is_alive(): join(1) *)
| EvListen (of_pid : option Z) (on_port : option Z) (r : bool) (* is_pid_listen_port *)
| EvSleep (ms : Z)                                       (* await asyncio.sleep *)
| EvLog (lvl : log_level) (msg : log_message).

(** The outside: every answer is a function of the calls made so far.
    [get_child_pids] and [is_pid_listen_port] are functions of the
    repository ([mindsdb.utilities.ps]) whose source is not at hand; they
    are taken as they are called.  [proc_join] and [proc_wait] give the exit
    code seen when the wait ends, or the exception that ends it; [lag] is
    the time, in milliseconds, a call takes beyond what it asks for;
    [next_ready] is the choice of the event loop among the tasks that are
    ready ([asyncio.as_completed] schedules its futures in the order of a
    set, which the program does not decide). *)
Record OS := mkOS {
  get_child_pids : list event -> option Z -> exn + list Z;
  os_kill : list event -> Z -> Z -> option exn;
  child_kill : list event -> Z -> option exn;
  proc_join : list event -> Z -> exn + Z;
  proc_start : list event -> string -> exn + Z;
  proc_wait : list event -> Z -> exn + Z;
  is_pid_listen_port : list event -> option Z -> option Z -> bool;
  lag : list event -> N;
  next_ready : list event -> nat
}.

(** [config.is_cloud], [sys.platform], [config.cmd_args.verbose]. *)
Record Config := mkConfig {
  config_is_cloud : bool;
  sys_platform : string;
  cmd_args_verbose : bool
}.

(** The mutable state the supervisor works on.  The dict
    [trunc_processes_struct] is built once with the eight members of
    [TrunkProcessEnum] as its keys and never gains or loses one: it is a
    total map, and [.values()] walks [all_apis].  [clock] is [time.time()]
    in milliseconds. *)
Record World := mkWorld {
  trunc_processes_struct : TrunkProcessEnum -> TrunkProcessData;
  _stop_event : bool;
  clock : Z;
  trace : list event
}.

Definition all_apis : list TrunkProcessEnum :=
  [HTTP; MYSQL; MONGODB; POSTGRES; JOBS; TASKS; ML_TASK_QUEUE; MCP].

Definition update (k : TrunkProcessEnum) (d : TrunkProcessData)
    (s : TrunkProcessEnum -> TrunkProcessData) : TrunkProcessEnum -> TrunkProcessData :=
  fun k' => if decide (k' = k) then d else s k'.

(** Computations that read and write the world and may raise. *)
Definition M (A : Type) : Type := World -> (exn + A) * World.

Definition ret {A} (a : A) : M A := fun w => (inr a, w).

Definition raise {A} (e : exn) : M A := fun w => (inl e, w).

Definition bind {A B} (m : M A) (f : A -> M B) : M B :=
  fun w => match m w with
           | (inr a, w') => f a w'
           | (inl e, w') => (inl e, w')
           end.

Notation "'let!' x ':=' m 'in' k" := (bind m (fun x => k))
  (at level 10, x name, m at level 100, k at level 200).
Notation "'do!' m 'in' k" := (bind m (fun _ => k))
  (at level 10, m at level 100, k at level 200).

(** [try: body except <handles>: handler] *)
Definition try_except {A} (body : M A) (handles : exn -> bool) (handler : exn -> M A)
  : M A :=
  fun w => match body w with
           | (inl e, w') => if handles e then handler e w' else (inl e, w')
           | r => r
           end.

(** [try: body finally: final]: [final] runs whatever [body] did; what it
    raises wins, otherwise what [body] raised is raised again. *)
Definition try_finally {A B} (body : M A) (final : M B) : M B :=
  fun w => match body w with
           | (inr _, w') => final w'
           | (inl e, w') =>
               match final w' with
               | (inr _, w'') => (inl e, w'')
               | r => r
               end
           end.

Fixpoint for_each {A} (l : list A) (body : A -> M unit) : M unit :=
  match l with
  | [] => ret tt
  | x :: l' => do! body x in for_each l' body
  end.

Definition is_NoSuchProcess (e : exn) : bool :=
  match e with NoSuchProcess => true | _ => false end.

Definition is_KeyboardInterrupt (e : exn) : bool :=
  match e with KeyboardInterrupt => true | _ => false end.

Section Supervisor.

Variable cfg : Config.
Variable os : OS.

(** A call recorded in the trace; it takes [lag] milliseconds. *)
Definition emit (ev : event) : M unit :=
  fun w => (inr tt,
            mkWorld (trunc_processes_struct w) (_stop_event w)
              (clock w + Z.of_N (lag os (trace w))) (trace w ++ [ev])).

(** A call answered by the outside. *)
Definition ask {R} (answer : list event -> R) (ev : R -> event) : M R :=
  fun w => let r := answer (trace w) in
           match emit (ev r) w with (_, w') => (inr r, w') end.

(** [await asyncio.sleep(ms / 1000)] *)
Definition sleep (ms : Z) : M unit :=
  fun w => (inr tt,
            mkWorld (trunc_processes_struct w) (_stop_event w)
              (clock w + ms + Z.of_N (lag os (trace w))) (trace w ++ [EvSleep ms])).

Definition get_clock : M Z := fun w => (inr (clock w), w).

Definition get_data (k : TrunkProcessEnum) : M TrunkProcessData :=
  fun w => (inr (trunc_processes_struct w k), w).

Definition set_data (k : TrunkProcessEnum) (d : TrunkProcessData) : M unit :=
  fun w => (inr tt,
            mkWorld (update k d (trunc_processes_struct w)) (_stop_event w)
              (clock w) (trace w)).

(** [_stop_event.set()] *)
Definition stop_event_set : M unit :=
  fun w => (inr tt, mkWorld (trunc_processes_struct w) true (clock w) (trace w)).

Definition of_result {A} (r : exn + A) : M A :=
  match r with inl e => raise e | inr a => ret a end.

(** ** ShutdownCoordinator: [close_api_gracefully] *)

(** [try: os.kill(p, signal.SIGTERM) except Exception: p.kill()] *)
Definition kill_child (p : Z) : M unit :=
  let! r := ask (fun tr => os_kill os tr p SIGTERM) (EvOsKill p SIGTERM) in
  match r with
  | None => ret tt
  | Some e =>
      if is_Exception e then
        let! r' := ask (fun tr => child_kill os tr p) (EvChildKill p) in
        match r' with None => ret tt | Some e' => raise e' end
      else raise e
  end.

(** [process.terminate()]: on a handle that was never started, [_popen] is
    [None] and the call raises. *)
Definition process_terminate (p : Process) : M unit :=
  match pid p with
  | None => raise AttributeError
  | Some n => emit (EvTerminate n)
  end.

(** [process.join()] of the handle of descriptor [k]: when the exit code is
    already known the call returns at once; otherwise it waits, and the
    handle remembers the exit code. *)
Definition process_join (k : TrunkProcessEnum) (p : Process) : M unit :=
  match pid p with
  | None => raise (OtherException "can only join a started process")
  | Some n =>
      match exitcode p with
      | Some c => emit (EvJoin n (inr c))
      | None =>
          let! r := ask (fun tr => proc_join os tr n) (EvJoin n) in
          let! c := of_result r in
          let! d := get_data k in
          set_data k (set_process (Some (mkProcess (Some n) (Some c))) d)
      end
  end.

(** [childs = get_child_pids(process.pid)] and the loop over [childs]. *)
Definition signal_children (of_pid : option Z) : M unit :=
  let! r := ask (fun tr => get_child_pids os tr of_pid) (EvGetChildPids of_pid) in
  let! childs := of_result r in
  for_each childs kill_child.

(** [sys.stdout.flush(); process.terminate(); process.join();
    sys.stdout.flush()] *)
Definition stop_process (k : TrunkProcessEnum) (p : Process) : M unit :=
  do! emit EvFlush in
  do! process_terminate p in
  do! process_join k p in
  emit EvFlush.

(** The body of the [for] loop of [close_api_gracefully] for one value of
    the dict. *)
Definition close_one (k : TrunkProcessEnum) : M unit :=
  let! trunc_processes_data := get_data k in
  match process trunc_processes_data with
  | None => ret tt
  | Some p =>
      try_except
        (do! signal_children (pid p) in stop_process k p)
        is_NoSuchProcess (fun _ => ret tt)
  end.

Definition close_api_gracefully : M unit :=
  do! stop_event_set in
  try_except (for_each all_apis close_one)
    is_KeyboardInterrupt (fun _ => raise (SystemExit 0)).

(** ** ProcessLauncher: [start_process] *)

Definition start_process (k : TrunkProcessEnum) : M unit :=
  let! trunc_process_data := get_data k in
  do! emit (EvLog LogInfo (MsgStarting (name trunc_process_data))) in
  try_except
    (do! set_data k (set_process (Some (mkProcess None None)) trunc_process_data) in
     let! r := ask (fun tr => proc_start os tr (name trunc_process_data))
                 (EvStart (name trunc_process_data) (entrypoint trunc_process_data)
                    (args trunc_process_data)) in
     let! n := of_result r in
     set_data k (set_process (Some (mkProcess (Some n) None)) trunc_process_data))
    is_Exception
    (fun e =>
       do! emit (EvLog LogError (MsgFailedToStart (name trunc_process_data) e)) in
       do! close_api_gracefully in
       raise e).

(** ** HealthGate: [wait_api_start] *)

(** [timeout = 60] and the argument of [asyncio.sleep(0.5)], in milliseconds. *)
Definition timeout_ms : Z := 60000.
Definition poll_interval_ms : Z := 500.

(** The [while] loop of [wait_api_start].  The loop is entered only while
    less than [timeout_ms] have passed and every round sleeps
    [poll_interval_ms] at least, so [max_rounds] rounds are never used up;
    the branch that says otherwise is there to make the recursion
    structural and is shown dead. *)
Definition max_rounds : nat := 120.

Fixpoint wait_loop (rounds : nat) (start_time : Z) (of_pid on_port : option Z)
    (started : bool) : M bool :=
  let! now := get_clock in
  if (now - start_time <? timeout_ms) && negb started then
    match rounds with
    | O => raise (OtherException "wait_api_start: more rounds than the timeout allows")
    | S rounds' =>
        do! sleep poll_interval_ms in
        let! started' := ask (fun tr => is_pid_listen_port os tr of_pid on_port)
                           (EvListen of_pid on_port) in
        wait_loop rounds' start_time of_pid on_port started'
    end
  else ret started.

Definition wait_api_start (api_name : string) (of_pid on_port : option Z)
  : M (string * option Z * bool) :=
  let! start_time := get_clock in
  let! started := ask (fun tr => is_pid_listen_port os tr of_pid on_port)
                    (EvListen of_pid on_port) in
  let! started' := wait_loop max_rounds start_time of_pid on_port started in
  ret (api_name, on_port, started').

(** The two [logger] calls that follow a health check. *)
Definition log_health (r : string * option Z * bool) : M unit :=
  let '(api_name, on_port, started) := r in
  if started then emit (EvLog LogInfo (MsgStarted api_name on_port))
  else emit (EvLog LogError (MsgCantStart api_name on_port)).

(** The descriptors [wait_apis_start] checks. *)
Definition port_bearing (w : World) : list TrunkProcessEnum :=
  List.filter
    (fun k => match port (trunc_processes_struct w k) with
              | Some _ => need_to_run (trunc_processes_struct w k)
              | None => false
              end)
    all_apis.

(** *** The health checks of [wait_apis_start], run together

    [asyncio.as_completed] makes a task of every coroutine of
    [wait_api_start], and the event loop runs them together with the [for]
    loop that consumes their results: a task runs until its next [await];
    which of the tasks that are ready runs next is the choice of the loop;
    when none is ready the loop sleeps until the first timer. *)

(** A coroutine object [wait_api_start(api_name, pid, port)]. *)
Record Future := mkFuture {
  fut_name : string;
  fut_pid : option Z;
  fut_port : option Z
}.

(** Where a coroutine of [wait_api_start] stands: not run yet, suspended in
    [await asyncio.sleep(0.5)] with its [start_time] and the time its timer
    fires, or returned. *)
Inductive Coro :=
| Pending
| Asleep (start_time wake : Z)
| Returned.

(** [api_name, port, started] *)
Definition Result : Type := string * option Z * bool.

(** [started = is_pid_listen_port(pid, port)] *)
Definition check (f : Future) : M bool :=
  ask (fun tr => is_pid_listen_port os tr (fut_pid f) (fut_port f))
    (EvListen (fut_pid f) (fut_port f)).

(** The test of the [while] loop after a check: the coroutine goes to sleep
    for half a second, or returns its result. *)
Definition after_check (f : Future) (start_time : Z) (started : bool)
  : M (Coro * list Result) :=
  let! now := get_clock in
  if (now - start_time <? timeout_ms) && negb started
  then ret (Asleep start_time (now + poll_interval_ms), [])
  else ret (Returned, [(fut_name f, fut_port f, started)]).

(** A coroutine runs until its next [await]; the result it returns, if it
    does, is handed to [as_completed]. *)
Definition resume (f : Future) (c : Coro) : M (Coro * list Result) :=
  match c with
  | Pending =>
      let! start_time := get_clock in
      let! started := check f in
      after_check f start_time started
  | Asleep start_time _ =>
      let! started := check f in
      after_check f start_time started
  | Returned => ret (Returned, [])
  end.

Definition is_ready (now : Z) (c : Coro) : bool :=
  match c with
  | Pending => true
  | Asleep _ wake => wake <=? now
  | Returned => false
  end.

(** What the event loop can run: a coroutine, or the [for] loop of
    [wait_apis_start], which is ready when a result waits for it. *)
Inductive Job :=
| RunTask (i : nat)
| Report.

Definition ready_tasks (now : Z) (tasks : list (Future * Coro)) : list nat :=
  List.filter
    (fun i => match tasks !! i with
              | Some (_, c) => is_ready now c
              | None => false
              end)
    (seq 0 (length tasks)).

Definition ready_jobs (now : Z) (tasks : list (Future * Coro)) (done : list Result)
  : list Job :=
  List.map RunTask (ready_tasks now tasks)
  ++ match done with [] => [] | _ :: _ => [Report] end.

(** The timers of the coroutines that sleep, and the first to fire. *)
Definition timers (tasks : list (Future * Coro)) : list Z :=
  flat_map (fun t => match snd t with Asleep _ wake => [wake] | _ => [] end) tasks.

Fixpoint earliest (wakes : list Z) : option Z :=
  match wakes with
  | [] => None
  | wake :: wakes' =>
      Some (match earliest wakes' with
            | None => wake
            | Some m => Z.min wake m
            end)
  end.

Definition next_job : M nat := fun w => (inr (next_ready os (trace w)), w).

(** One iteration of the event loop: it waits for the first timer when
    nothing is ready, then runs one of the jobs that are ready.  The [for]
    loop logs the result it is given; results are given in the order the
    coroutines return.  The branches that raise [OtherException] stand for
    a loop with nothing to run, and are shown dead. *)
Definition run_once (tasks : list (Future * Coro)) (done : list Result)
  : M (list (Future * Coro) * list Result) :=
  let! now := get_clock in
  do! (match ready_jobs now tasks done, earliest (timers tasks) with
       | [], Some wake => sleep (wake - now)
       | _, _ => ret tt
       end) in
  let! now := get_clock in
  let jobs := ready_jobs now tasks done in
  let! n := next_job in
  match jobs !! (n mod length jobs)%nat with
  | Some (RunTask i) =>
      match tasks !! i with
      | Some (f, c) =>
          let! r := resume f c in
          ret (<[i := (f, fst r)]> tasks, done ++ snd r)
      | None => raise (OtherException "wait_apis_start: no such task")
      end
  | Some Report =>
      match done with
      | r :: done' => do! log_health r in ret (tasks, done')
      | [] => raise (OtherException "wait_apis_start: no result to report")
      end
  | None => raise (OtherException "wait_apis_start: nothing to run")
  end.

Definition all_returned (tasks : list (Future * Coro)) : bool :=
  forallb (fun t => match snd t with Returned => true | _ => false end) tasks.

(** The event loop, until every coroutine has returned and every result
    has been logged.  A coroutine checks its port once and then at most
    [max_rounds] times more, so that [loop_fuel] iterations are never used
    up; the branch that says otherwise is shown dead. *)
Fixpoint run_until_complete (fuel : nat) (tasks : list (Future * Coro))
    (done : list Result) : M unit :=
  if all_returned tasks && match done with [] => true | _ :: _ => false end
  then ret tt
  else
    match fuel with
    | O => raise (OtherException "wait_apis_start: more rounds than the timeout allows")
    | S fuel' =>
        let! st := run_once tasks done in
        run_until_complete fuel' (fst st) (snd st)
    end.

Definition loop_fuel (n : nat) : nat := (S (S max_rounds) * n)%nat.

(** The element of the list comprehension of [wait_apis_start]: the
    coroutine object is made with [process.pid] read at once. *)
Definition future_of (k : TrunkProcessEnum) : M Future :=
  let! trunc_process_data := get_data k in
  match process trunc_process_data with
  | None => raise AttributeError
  | Some p => ret (mkFuture (name trunc_process_data) (pid p)
                     (port trunc_process_data))
  end.

(** A list comprehension whose element expression reads the world and may
    raise. *)
Fixpoint collect {A B} (l : list A) (f : A -> M B) : M (list B) :=
  match l with
  | [] => ret []
  | x :: l' =>
      let! y := f x in
      let! ys := collect l' f in
      ret (y :: ys)
  end.

(** [wait_apis_start]: the coroutine objects are made first, in the order
    of the dict, then run together. *)
Definition wait_apis_start : M unit :=
  fun w =>
    (let! futures := collect (port_bearing w) future_of in
     run_until_complete (loop_fuel (length futures))
       (List.map (fun f => (f, Pending)) futures) []) w.

(** ** Supervisor: [join_process] *)

(** The descriptors [gather_apis] starts a [join_process] task for. *)
Definition monitored (w : World) : list TrunkProcessEnum :=
  List.filter (fun k => need_to_run (trunc_processes_struct w k)) all_apis.

(** [while process.is_alive(): process.join(1); await asyncio.sleep(0)] on
    the handle of descriptor [k]: nothing to wait for when the exit code is
    known or the handle was never started; otherwise the wait ends with the
    exit of the process or with an exception. *)
Definition wait_for_exit (k : TrunkProcessEnum) : M unit :=
  let! trunc_process_data := get_data k in
  match process trunc_process_data with
  | None => raise AttributeError
  | Some p =>
      match pid p, exitcode p with
      | Some n, None =>
          let! r := ask (fun tr => proc_wait os tr n) (EvWait n) in
          let! c := of_result r in
          let! d := get_data k in
          set_data k (set_process (Some (mkProcess (Some n) (Some c))) d)
      | _, _ => ret tt
      end
  end.

(** The property [should_restart] read on descriptor [k], with the warning
    it logs.  [self.process.exitcode] is read as the exit code the handle
    holds, that is the one the last wait or join of the supervisor has
    seen. *)
Definition read_should_restart (k : TrunkProcessEnum) : M bool :=
  let! self := get_data k in
  do! (if negb (config_is_cloud cfg)
          && negb (platform_in_linux_darwin (sys_platform cfg))
          && (max_restart_count self =? 0)
       then emit (EvLog LogWarning MsgMaxRestartCountZero) else ret tt) in
  of_result (should_restart (config_is_cloud cfg) (sys_platform cfg) self).

(** The [finally] block of [join_process]; the result is [finish]. *)
Definition restart_or_finish (k : TrunkProcessEnum) : M bool :=
  let! restart := read_should_restart k in
  let! trunc_process_data := get_data k in
  if restart then
    let! now := get_clock in
    let '(admitted, self') :=
      request_restart_attempt (Z.quot now 1000) trunc_process_data in
    do! set_data k self' in
    if admitted then
      do! emit (EvLog LogWarning (MsgRestarting (name self'))) in
      do! set_data k (set_process None self') in
      do! (if String.eqb (name self') (enum_value HTTP)
           then set_data k (set_args (Some [cmd_args_verbose cfg; true])
                              (set_process None self'))
           else ret tt) in
      do! start_process k in
      let! d := get_data k in
      let! p := match process d with
                | None => raise AttributeError
                | Some p => ret p
                end in
      let! r := wait_api_start (name d) (pid p) (port d) in
      do! log_health r in
      ret false
    else
      do! emit (EvLog LogError (MsgNoFurtherRestart (name self'))) in
      ret true
  else
    do! emit (EvLog LogInfo (MsgStopped (name trunc_process_data))) in
    ret true.

(** One round of the [while not finish] loop of [join_process]. *)
Definition join_process_round (k : TrunkProcessEnum) : M bool :=
  try_finally
    (try_except (wait_for_exit k) is_KeyboardInterrupt
       (fun _ =>
          do! emit (EvLog LogInfo MsgKeyboardInterrupt) in
          close_api_gracefully))
    (restart_or_finish k).

(** [join_process], for at most [rounds] rounds of its loop; the result
    tells whether the loop has finished. *)
Fixpoint join_process (rounds : nat) (k : TrunkProcessEnum) : M bool :=
  match rounds with
  | O => ret false
  | S rounds' =>
      let! finish := join_process_round k in
      if finish then ret true else join_process rounds' k
  end.

End Supervisor.

(** ** OrphanReconciler *)

(** A value of a JSON column. *)
#[local] Set Warnings "-register-all".
Inductive json :=
| JNull
| JBool (b : bool)
| JNum (n : Z)
| JStr (s : string)
| JList (l : list json)
| JDict (items : list (string * json)).

(** Modelled from the spec: [db.PREDICTOR_STATUS] is declared outside the
    files at hand; a status is complete, error, or one of the running
    states, which the supervisor does not tell apart. *)
Inductive PREDICTOR_STATUS :=
| COMPLETE
| ERROR
| RUNNING (state : string).

(** The columns of [db.Predictor] the supervisor reads or writes.
    [training_metadata] is [None] or a dict. *)
Record Predictor := mkPredictor {
  deleted_at : option Z;
  status : PREDICTOR_STATUS;
  training_metadata : option (list (string * json));
  data : json
}.

(** The session: the table, and how often [db.session.commit()] ran. *)
Record Session := mkSession {
  predictors : list Predictor;
  commits : nat
}.

(** [key in d] and [d.get(key)] on a dict. *)
Definition dict_has (key : string) (d : list (string * json)) : bool :=
  existsb (fun kv => String.eqb (fst kv) key) d.

Definition dict_get (key : string) (d : list (string * json)) : json :=
  match List.find (fun kv => String.eqb (fst kv) key) d with
  | Some kv => snd kv
  | None => JNull
  end.

(** [v in pids] for a list of ints ([True == 1] and [False == 0] in Python). *)
Definition py_in (v : json) (pids : list Z) : bool :=
  match v with
  | JNum n => existsb (Z.eqb n) pids
  | JBool b => existsb (Z.eqb (if b then 1 else 0)) pids
  | _ => false
  end.

(** The filter of the query: [deleted_at IS NULL] and [status NOT IN
    (COMPLETE, ERROR)]. *)
Definition is_terminal (st : PREDICTOR_STATUS) : bool :=
  match st with COMPLETE | ERROR => true | RUNNING _ => false end.

Definition unfinished (r : Predictor) : bool :=
  match deleted_at r with
  | None => negb (is_terminal (status r))
  | Some _ => false
  end.

(** [(predictor_record.training_metadata or {}).get('process_id')] *)
Definition predictor_process_id (r : Predictor) : json :=
  dict_get "process_id" (default [] (training_metadata r)).

Definition terminated_message : string :=
  "The training process was terminated for unknown reasons".

(** The body of the [if predictor_process_id in unexisting_pids:] of
    [set_error_model_status_by_pids], up to the commit. *)
Definition set_error (message : string) (r : Predictor) : Predictor :=
  let d := match data r with JDict items => items | _ => [] end in
  let d' := if dict_has "error" d then d else d ++ [("error", JStr message)] in
  mkPredictor (deleted_at r) ERROR (training_metadata r) (JDict d').

(** What [set_error_model_status_by_pids] does to one row of the table: the
    rows the query returns are those that are [unfinished] when the
    function starts, and the loop touches each of them once. *)
Definition reconcile (unexisting_pids : list Z) (r : Predictor) : Predictor * nat :=
  if unfinished r && py_in (predictor_process_id r) unexisting_pids
  then (set_error terminated_message r, 1%nat)
  else (r, 0%nat).

Fixpoint reconcile_all (unexisting_pids : list Z) (rows : list Predictor)
  : list Predictor * nat :=
  match rows with
  | [] => ([], 0%nat)
  | r :: rows' =>
      let '(r', c) := reconcile unexisting_pids r in
      let '(rs, cs) := reconcile_all unexisting_pids rows' in
      (r' :: rs, (c + cs)%nat)
  end.

Definition set_error_model_status_by_pids (unexisting_pids : list Z) (s : Session)
  : Session :=
  let '(rows, c) := reconcile_all unexisting_pids (predictors s) in
  mkSession rows (commits s + c)%nat.

(** One round of the [while] loop of [do_clean_process_marks];
    [unexisting_pids] is what [clean_unlinked_process_marks()] returned. *)
Definition clean_process_marks_round (is_cloud : bool) (unexisting_pids : list Z)
    (s : Session) : Session :=
  if negb is_cloud && (0 <? Z.of_nat (length unexisting_pids))
  then set_error_model_status_by_pids unexisting_pids s
  else s.

(** [do_clean_process_marks]: each element of [rounds] is what one
    [_stop_event.wait(timeout=5)] returned and what the sweep of the process
    marks then found. *)
Fixpoint do_clean_process_marks (is_cloud : bool) (rounds : list (bool * list Z))
    (s : Session) : Session :=
  match rounds with
  | [] => s
  | (stop, unexisting_pids) :: rounds' =>
      if stop then s
      else do_clean_process_marks is_cloud rounds'
             (clean_process_marks_round is_cloud unexisting_pids s)
  end.

(** The [error] entry of a row, when its data is a dict that has one. *)
Definition error_message (r : Predictor) : option json :=
  match data r with
  | JDict items =>
      if dict_has "error" items then Some (dict_get "error" items) else None
  | _ => None
  end.

(** The claim of the specification for one sweep, in its words: a row in a
    non-terminal status whose process id is orphaned ends in [ERROR] with a
    message that is not empty. *)
Definition has_nonempty_message (r : Predictor) : bool :=
  match error_message r with
  | Some (JStr m) => negb (String.eqb m "")
  | _ => false
  end.

Definition spec_swept (r' : Predictor) : bool :=
  match status r' with ERROR => has_nonempty_message r' | _ => false end.

(** Rows of the examples: training under process 4242. *)
Definition training_row (deleted : option Z) (d : json) : Predictor :=
  mkPredictor deleted (RUNNING "training") (Some [("process_id", JNum 4242)]) d.

(** ** Reading traces *)

Definition with_stop_event (b : bool) (w : World) : World :=
  mkWorld (trunc_processes_struct w) b (clock w) (trace w).

(** The supervisor has seen process [n] exit: a [join] or a wait on it has
    returned its exit code, and the process is gone from the process table. *)
Definition reaped (n : Z) (tr : list event) : bool :=
  existsb (fun ev => match ev with
                     | EvJoin m (inr _) | EvWait m (inr _) => m =? n
                     | _ => false
                     end) tr.

(** The calls that signal a process or wait for one. *)
Definition acts_on_process (ev : event) : bool :=
  match ev with
  | EvOsKill _ _ _ | EvChildKill _ _ | EvTerminate _ | EvJoin _ _ | EvStart _ _ _ _ => true
  | _ => false
  end.

(** The calls after which the set of reaped processes is what it was, and
    the calls that are a [terminate()]. *)
Definition is_quiet (ev : event) : bool :=
  match ev with
  | EvTerminate _ | EvJoin _ _ | EvWait _ _ => false
  | _ => true
  end.

Definition is_terminate (ev : event) : bool :=
  match ev with EvTerminate _ => true | _ => false end.

(** No [terminate()] in [evs], played after [tr], is sent to a process that
    was reaped before it. *)
Fixpoint never_reterminates (tr evs : list event) : bool :=
  match evs with
  | [] => true
  | ev :: evs' =>
      match ev with EvTerminate n => negb (reaped n tr) | _ => true end
      && never_reterminates (tr ++ [ev]) evs'
  end.

(** The enumeration of the children of a process that was reaped raises
    [psutil.NoSuchProcess]. *)
Definition raises_for_reaped (os : OS) : Prop :=
  forall tr n, reaped n tr = true -> get_child_pids os tr (Some n) = inl NoSuchProcess.

(** Every handle the descriptors hold is one of a reaped process. *)
Definition all_reaped (w : World) : Prop :=
  forall k p, process (trunc_processes_struct w k) = Some p ->
    exists n, pid p = Some n /\ reaped n (trace w) = true.

(** [w'] comes after [w]: the trace has grown by events that satisfy [Q],
    the stop event, once set, is still set, and the clock has not gone back. *)
Definition grows (Q : event -> Prop) (w w' : World) : Prop :=
  (exists evs, trace w' = trace w ++ evs /\ Forall Q evs)
  /\ (_stop_event w = true -> _stop_event w' = true)
  /\ clock w <= clock w'.

Definition within (Q : event -> Prop) {A} (m : M A) : Prop :=
  forall w, grows Q w (snd (m w)).

(** The events of [rounds] of polling: a sleep of half a second, then one
    check of the port, each with its answer. *)
Definition poll_events (of_pid on_port : option Z) (answers : list bool) : list event :=
  flat_map (fun r => [EvSleep poll_interval_ms; EvListen of_pid on_port r]) answers.

(** Every answer of a round of polling is the one [is_pid_listen_port]
    gave when it was asked, after the sleep of that round. *)
Fixpoint polled (os : OS) (tr : list event) (of_pid on_port : option Z)
    (answers : list bool) : Prop :=
  match answers with
  | [] => True
  | a :: answers' =>
      a = is_pid_listen_port os (tr ++ [EvSleep poll_interval_ms]) of_pid on_port
      /\ polled os (tr ++ [EvSleep poll_interval_ms; EvListen of_pid on_port a])
           of_pid on_port answers'
  end.

(** The line the [for] loop of [wait_apis_start] logs for a result. *)
Definition log_line (r : Result) : event :=
  let '(api_name, on_port, started) := r in
  if started then EvLog LogInfo (MsgStarted api_name on_port)
  else EvLog LogError (MsgCantStart api_name on_port).

Definition is_listen (ev : event) : bool :=
  match ev with EvListen _ _ _ => true | _ => false end.

(** The coroutine object [wait_apis_start] makes for descriptor [k]. *)
Definition future_at (w : World) (k : TrunkProcessEnum) : Future :=
  let d := trunc_processes_struct w k in
  mkFuture (name d)
    (match process d with Some p => pid p | None => None end)
    (port d).

(** The checks a coroutine may still make: one now and [max_rounds] after
    it when it has not run yet; when it sleeps, one for every half second
    that is left of the timeout when its timer fires, and one at least. *)
Definition checks_left (c : Coro) : nat :=
  match c with
  | Pending => S max_rounds
  | Asleep start_time wake =>
      Z.to_nat (Z.max 1 ((start_time + timeout_ms + (poll_interval_ms - 1) - wake)
                         / poll_interval_ms + 1))
  | Returned => 0
  end.

(** The iterations of the event loop a coroutine may still take: its
    checks, and the report of its result. *)
Definition task_cost (c : Coro) : nat :=
  match c with
  | Returned => 0
  | _ => S (checks_left c)
  end.

Definition loop_cost (tasks : list (Future * Coro)) (done : list Result) : nat :=
  (list_sum (List.map (fun t => task_cost (snd t)) tasks) + length done)%nat.

(** ** Worlds and oracles of the examples *)

(** An outside in which the children of a reaped process cannot be
    enumerated, a terminated process exits with [-SIGTERM], the operator
    interrupts every wait, and a started service listens at once. *)
Definition os_psutil : OS :=
  mkOS (fun tr p => match p with
                    | Some n => if reaped n tr then inl NoSuchProcess else inr []
                    | None => inr []
                    end)
       (fun _ _ _ => None) (fun _ _ => None)
       (fun _ _ => inr (- SIGTERM))
       (fun _ _ => inr 101)
       (fun _ _ => inl KeyboardInterrupt)
       (fun _ _ _ => true)
       (fun _ => 0%N)
       (fun _ => 0%nat).

(** The same outside, but the pid of the reaped process is in use again,
    and its enumeration succeeds. *)
Definition os_pid_reused : OS :=
  mkOS (fun _ _ => inr [])
       (fun _ _ _ => None) (fun _ _ => None)
       (fun _ _ => inr (- SIGTERM))
       (fun _ _ => inr 101)
       (fun _ _ => inl KeyboardInterrupt)
       (fun _ _ _ => true)
       (fun _ => 0%N)
       (fun _ => 0%nat).

(** An outside in which the process has been killed for lack of memory when
    the operator interrupts the wait: its exit code, seen at the join, is
    [-SIGKILL]. *)
Definition os_oom : OS :=
  mkOS (fun _ _ => inr [])
       (fun _ _ _ => None) (fun _ _ => None)
       (fun _ _ => inr (- SIGKILL))
       (fun _ _ => inr 101)
       (fun _ _ => inl KeyboardInterrupt)
       (fun _ _ _ => true)
       (fun _ => 0%N)
       (fun _ => 0%nat).

(** An outside in which no service ever listens. *)
Definition os_deaf : OS :=
  mkOS (fun _ _ => inr [])
       (fun _ _ _ => None) (fun _ _ => None)
       (fun _ _ => inr (- SIGTERM))
       (fun _ _ => inr 101)
       (fun _ _ => inr 1)
       (fun _ _ _ => false)
       (fun _ => 0%N)
       (fun _ => 0%nat).

(** The HTTP API running as process 100, restarts enabled (at most 3 in 60
    seconds); nothing else is needed. *)
Definition running_http : TrunkProcessData :=
  mkTrunkProcessData "http" start_http true (Some 47334)
    (Some (mkProcess (Some 100) None)) false (Some [false; false])
    true 3 60 0 [].

Definition idle (k : TrunkProcessEnum) : TrunkProcessData :=
  mkTrunkProcessData (enum_value k) start_tasks false None None false None
    false 3 60 0 [].

Definition http_only : TrunkProcessEnum -> TrunkProcessData :=
  fun k => match k with HTTP => running_http | _ => idle k end.

Definition world0 : World := mkWorld http_only false 1700000000000 [].

Definition linux_local : Config := mkConfig false "linux" false.
Definition win32_local : Config := mkConfig false "win32" false.

(** ** The rest of the boot sequence *)

(** [set_error_model_status_for_unfinished]: the same query, no test of the
    process id, and its own message. *)
Definition unknown_message : string := "Unknown error".

Definition mark_unfinished (r : Predictor) : Predictor * nat :=
  if unfinished r then (set_error unknown_message r, 1%nat) else (r, 0%nat).

Fixpoint mark_unfinished_all (rows : list Predictor) : list Predictor * nat :=
  match rows with
  | [] => ([], 0%nat)
  | r :: rows' =>
      let '(r', c) := mark_unfinished r in
      let '(rs, cs) := mark_unfinished_all rows' in
      (r' :: rs, (c + cs)%nat)
  end.

Definition set_error_model_status_for_unfinished (s : Session) : Session :=
  let '(rows, c) := mark_unfinished_all (predictors s) in
  mkSession rows (commits s + c)%nat.

(** The reconciliation at boot: [unexisting_pids = clean_unlinked_process_marks()],
    then, [if not is_cloud], the sweep by pids when there are any, and the
    sweep of everything unfinished. *)
Definition boot_reconcile (is_cloud : bool) (unexisting_pids : list Z) (s : Session)
  : Session :=
  if negb is_cloud then
    set_error_model_status_for_unfinished
      (if 0 <? Z.of_nat (length unexisting_pids)
       then set_error_model_status_by_pids unexisting_pids s
       else s)
  else s.

(** [TrunkProcessEnum(value)]: the member that has this value; for any other
    string [_missing_] prints and calls [sys.exit(1)]. *)
Definition TrunkProcessEnum_of_value (value : string) : exn + TrunkProcessEnum :=
  match List.find (fun e => String.eqb (enum_value e) value) all_apis with
  | Some e => inr e
  | None => inl (SystemExit 1)
  end.

(** [s.split(sep)] for a separator of one character. *)
Fixpoint split_on (sep : Ascii.ascii) (s : string) : list string :=
  match s with
  | EmptyString => [EmptyString]
  | String c s' =>
      if Ascii.eqb c sep then EmptyString :: split_on sep s'
      else match split_on sep s' with
           | x :: xs => String c x :: xs
           | [] => [String c EmptyString]
           end
  end.

(** A list comprehension whose element expression may raise: the first
    exception ends it. *)
Fixpoint map_or_raise {A B} (f : A -> exn + B) (l : list A) : exn + list B :=
  match l with
  | [] => inr []
  | x :: l' =>
      match f x with
      | inl e => inl e
      | inr y => match map_or_raise f l' with
                 | inl e => inl e
                 | inr ys => inr (y :: ys)
                 end
      end
  end.

(** [a or b] on two values that are [None] or a string. *)
Definition str_or (a b : option string) : option string :=
  match a with
  | Some s => if String.eqb s "" then b else a
  | None => b
  end.

(** [apis = os.getenv('MINDSDB_APIS') or config.cmd_args.api] and the three
    branches that build [api_arr]. *)
Definition select_apis (env_apis cmd_api : option string) : exn + list TrunkProcessEnum :=
  match str_or env_apis cmd_api with
  | None => inr [HTTP; MYSQL]
  | Some apis =>
      if String.eqb apis "" then inr []
      else map_or_raise TrunkProcessEnum_of_value (split_on ","%char apis)
  end.

(** [",".join(names)] *)
Definition join_commas (names : list string) : string := String.concat "," names.

(** What [config['api'][...]] holds for an API that has a restart policy:
    each key may be absent. *)
Record PolicyConfig := mkPolicyConfig {
  cfg_restart_on_failure : option bool;
  cfg_max_restart_count : option Z;
  cfg_max_restart_interval_seconds : option Z
}.

(** The parts of [config] the dict [trunc_processes_struct] is built from. *)
Record StructConfig := mkStructConfig {
  http_port : Z;
  http_policy : PolicyConfig;
  mysql_port : Z;
  mysql_policy : PolicyConfig;
  mongodb_port : Z;
  postgres_port : Z;
  mcp_port : option Z;
  mcp_policy : PolicyConfig;
  cfg_verbose : bool;
  cfg_no_studio : bool
}.

(** A [TrunkProcessData(...)] call: the fields not given take the defaults
    of the dataclass. *)
Definition new_data (nm : string) (ep : Entrypoint) (po : option Z) (a : list bool)
    (rof : bool) (count interval : Z) : TrunkProcessData :=
  mkTrunkProcessData nm ep false po None false (Some a) rof count interval 0 [].

Definition with_policy (nm : string) (ep : Entrypoint) (po : option Z) (a : list bool)
    (pc : PolicyConfig) : TrunkProcessData :=
  new_data nm ep po a
    (default false (cfg_restart_on_failure pc))
    (default 3 (cfg_max_restart_count pc))
    (default 60 (cfg_max_restart_interval_seconds pc)).

(** The dict literal [trunc_processes_struct = {...}]. *)
Definition build_struct (c : StructConfig) : TrunkProcessEnum -> TrunkProcessData :=
  fun k =>
    match k with
    | HTTP => with_policy (enum_value HTTP) start_http (Some (http_port c))
                [cfg_verbose c; cfg_no_studio c] (http_policy c)
    | MYSQL => with_policy (enum_value MYSQL) start_mysql (Some (mysql_port c))
                 [cfg_verbose c] (mysql_policy c)
    | MONGODB => new_data (enum_value MONGODB) start_mongo (Some (mongodb_port c))
                   [cfg_verbose c] false 3 60
    | POSTGRES => new_data (enum_value POSTGRES) start_postgres (Some (postgres_port c))
                    [cfg_verbose c] false 3 60
    | JOBS => new_data (enum_value JOBS) start_scheduler None [cfg_verbose c] false 3 60
    | TASKS => new_data (enum_value TASKS) start_tasks None [cfg_verbose c] false 3 60
    | ML_TASK_QUEUE => new_data (enum_value ML_TASK_QUEUE) start_ml_task_queue None
                         [cfg_verbose c] false 3 60
    | MCP => with_policy (enum_value MCP) start_mcp (Some (default 47337 (mcp_port c)))
               [cfg_verbose c] (mcp_policy c)
    end.

Definition set_need_to_run (b : bool) (d : TrunkProcessData) : TrunkProcessData :=
  mkTrunkProcessData (name d) (entrypoint d) b (port d) (process d)
    (started d) (args d) (restart_on_failure d) (max_restart_count d)
    (max_restart_interval_seconds d) (_restart_count d) (_restarts_time d).

Definition need (k : TrunkProcessEnum) (s : TrunkProcessEnum -> TrunkProcessData)
  : TrunkProcessEnum -> TrunkProcessData :=
  update k (set_need_to_run true (s k)) s.

(** The loop over [api_arr] and the three [if]s that follow it:
    [jobs_disable] is [config['jobs']['disable']], [tasks_disable] is
    [config['tasks']['disable']], [ml_consumer] is
    [config.cmd_args.ml_task_queue_consumer]. *)
Definition mark_needed (api_arr : list TrunkProcessEnum)
    (jobs_disable tasks_disable ml_consumer : bool)
    (s : TrunkProcessEnum -> TrunkProcessData) : TrunkProcessEnum -> TrunkProcessData :=
  let s1 := fold_left (fun s api_enum => need api_enum s) api_arr s in
  let s2 := if negb jobs_disable then need JOBS s1 else s1 in
  let s3 := if negb tasks_disable then need TASKS s2 else s2 in
  if ml_consumer then need ML_TASK_QUEUE s3 else s3.

(** The loop that starts the processes:
    [if started is True or need_to_run is False: continue]. *)
Definition start_needed (os : OS) : M unit :=
  for_each all_apis
    (fun k =>
       let! trunc_process_data := get_data k in
       if started trunc_process_data || negb (need_to_run trunc_process_data)
       then ret tt
       else start_process os k).

(** ** More readings of traces and descriptors *)

Definition is_start (ev : event) : bool :=
  match ev with EvStart _ _ _ _ => true | _ => false end.

Definition count_starts (evs : list event) : nat :=
  length (List.filter is_start evs).

(** What no operation of the supervisor writes: everything but the process
    handle, the arguments and the restart history. *)
Definition policy_of (d : TrunkProcessData)
  : string * Entrypoint * bool * option Z * bool * bool * Z * Z * Z :=
  (name d, entrypoint d, need_to_run d, port d, started d,
   restart_on_failure d, max_restart_count d, max_restart_interval_seconds d,
   _restart_count d).

(** The same, with the restart history. *)
Definition settings_of (d : TrunkProcessData) :=
  (policy_of d, _restarts_time d).

(** [f] of every descriptor is in [w'] what it is in [w]. *)
Definition same_on {T} (f : TrunkProcessData -> T) (w w' : World) : Prop :=
  forall k, f (trunc_processes_struct w' k) = f (trunc_processes_struct w k).

Definition keeps {T} (f : TrunkProcessData -> T) {A} (m : M A) : Prop :=
  forall w, same_on f w (snd (m w)).

(** An outside in which nothing fails: children are enumerated, signals are
    delivered, joins return. *)
Definition obliging (os : OS) : Prop :=
  (forall tr p, exists childs, get_child_pids os tr p = inr childs)
  /\ (forall tr c sig, os_kill os tr c sig = None)
  /\ (forall tr n, exists c, proc_join os tr n = inr c).

(** The handle of [d'] is the handle of [d] after its process was joined. *)
Definition joined (d d' : TrunkProcessData) : Prop :=
  match process d with
  | None => d' = d
  | Some p =>
      exists n c, pid p = Some n
        /\ d' = set_process (Some (mkProcess (Some n) (Some c))) d
        /\ (forall c0, exitcode p = Some c0 -> c = c0)
  end.

(** ** Readings of the composition of the descriptor set *)

Fixpoint contains_char (c : Ascii.ascii) (s : string) : bool :=
  match s with
  | EmptyString => false
  | String c' s' => Ascii.eqb c' c || contains_char c s'
  end.

(** [k in api_arr] *)
Definition listed (k : TrunkProcessEnum) (api_arr : list TrunkProcessEnum) : bool :=
  existsb (fun e => bool_decide (e = k)) api_arr.

(** The descriptors that are to run, as the composition decides it. *)
Definition wanted (api_arr : list TrunkProcessEnum)
    (jobs_disable tasks_disable ml_consumer : bool) (k : TrunkProcessEnum) : bool :=
  listed k api_arr
  || match k with
     | JOBS => negb jobs_disable
     | TASKS => negb tasks_disable
     | ML_TASK_QUEUE => ml_consumer
     | _ => false
     end.

(** The descriptors the dict literal gives a port. *)
Definition has_port (k : TrunkProcessEnum) : bool :=
  match k with
  | HTTP | MYSQL | MONGODB | POSTGRES | MCP => true
  | JOBS | TASKS | ML_TASK_QUEUE => false
  end.

(** The descriptors the dict literal gives a restart policy from the
    configuration. *)
Definition has_policy (k : TrunkProcessEnum) : bool :=
  match k with
  | HTTP | MYSQL | MCP => true
  | _ => false
  end.

(** [m] keeps [f] of every descriptor, when run in a world where [f] of
    descriptor [k] is [v]. *)
Definition keeps_from {T} (f : TrunkProcessData -> T) (k : TrunkProcessEnum) (v : T)
    {A} (m : M A) : Prop :=
  forall w, f (trunc_processes_struct w k) = v -> same_on f w (snd (m w)).

(** Every spawn the outside is asked for succeeds. *)
Definition spawns (os : OS) : Prop :=
  forall tr nm, exists n, proc_start os tr nm = inr n.

(** Descriptor [d'] is [d], started anew when [d] is needed and not marked
    as started. *)
Definition launched (d d' : TrunkProcessData) : Prop :=
  if started d || negb (need_to_run d) then d' = d
  else exists n, d' = set_process (Some (mkProcess (Some n) None)) d.

(** An outside in which the enumeration of the children is interrupted by
    the operator. *)
Definition os_interrupted : OS :=
  mkOS (fun _ _ => inl KeyboardInterrupt)
       (fun _ _ _ => None) (fun _ _ => None)
       (fun _ _ => inr (- SIGTERM))
       (fun _ _ => inr 101)
       (fun _ _ => inr 1)
       (fun _ _ _ => true)
       (fun _ => 0%N)
       (fun _ => 0%nat).

(** An outside in which the child 7 of every process is gone by the time
    it is signalled: [os.kill] fails and [p.kill()] finds no such process. *)
Definition os_child_gone : OS :=
  mkOS (fun _ _ => inr [7])
       (fun _ _ _ => Some (OtherException "TypeError"))
       (fun _ _ => Some NoSuchProcess)
       (fun _ _ => inr (- SIGTERM))
       (fun _ _ => inr 101)
       (fun _ _ => inr 1)
       (fun _ _ _ => true)
       (fun _ => 0%N)
       (fun _ => 0%nat).

(** [m] adds to the trace the start of [n] processes at most. *)
Definition starts_within (n : nat) {A} (m : M A) : Prop :=
  forall w, exists evs, trace (snd (m w)) = trace w ++ evs
                        /\ (count_starts evs <= n)%nat.

(** What a round of the watch loop of descriptor [k] may do: it keeps the
    policy of [k], starts one process at most, never shortens the restart
    history when that history has no window, and starts a process only
    together with a new entry of the history that keeps it within
    [max_restart_count]. *)
Definition restart_step (k : TrunkProcessEnum) (w w' : World) : Prop :=
  let d := trunc_processes_struct w k in
  let d' := trunc_processes_struct w' k in
  policy_of d' = policy_of d
  /\ exists evs, trace w' = trace w ++ evs
       /\ (count_starts evs <= 1)%nat
       /\ (length (_restarts_time d) <= length (_restarts_time d'))%nat
       /\ (count_starts evs = 1%nat ->
           length (_restarts_time d') = S (length (_restarts_time d))
           /\ Z.of_nat (length (_restarts_time d')) <= max_restart_count d).

(** The descriptors the start-up loop launches. *)
Definition to_launch (w : World) (k : TrunkProcessEnum) : bool :=
  negb (started (trunc_processes_struct w k)
        || negb (need_to_run (trunc_processes_struct w k))).

(** * Theorems *)

(** ** Restart policy *)

Section RestartPolicy.

Implicit Types (self : TrunkProcessData) (now t : Z) (ts : list Z).

Lemma config_request_restart_attempt now self :
  let self' := snd (request_restart_attempt now self) in
  max_restart_count self' = max_restart_count self
  /\ max_restart_interval_seconds self' = max_restart_interval_seconds self
  /\ restart_on_failure self' = restart_on_failure self
  /\ process self' = process self.
Proof.
  unfold request_restart_attempt.
  destruct (max_restart_count self =? 0); [easy|].
  match goal with |- context [if ?c <? ?n then _ else _] => destruct (c <? n) end;
    cbn; easy.
Qed.

Lemma config_restart_attempts ts : forall self,
  let self' := snd (restart_attempts ts self) in
  max_restart_count self' = max_restart_count self
  /\ max_restart_interval_seconds self' = max_restart_interval_seconds self.
Proof.
  induction ts as [|t ts IH]; intros self; cbn; [easy|].
  destruct (request_restart_attempt t self) as [b self1] eqn:E1.
  destruct (restart_attempts ts self1) as [bs self2] eqn:E2. cbn.
  pose proof (config_request_restart_attempt t self) as H1. rewrite E1 in H1.
  pose proof (IH self1) as H2. rewrite E2 in H2. cbn in *.
  destruct H1 as (Ec & Ew & _). rewrite <- Ec, <- Ew. exact H2.
Qed.

(** The list the code keeps is the history of the specification's rule. *)
Lemma kept_is_spec_history now w (h : list Z) :
  (if 0 <? w then List.filter (fun x => now - w <=? x) (h ++ [now]) else h ++ [now])
  = spec_history now w h.
Proof.
  unfold spec_history. destruct (0 <? w); [|reflexivity].
  apply List.filter_ext. intros x.
  destruct (Z.leb_spec (now - w) x), (Z.ltb_spec x (now - w)); cbn; auto; lia.
Qed.

Lemma request_restart_attempt_eq now self :
  request_restart_attempt now self =
    if max_restart_count self =? 0 then (true, self)
    else
      let kept := spec_history now (max_restart_interval_seconds self)
                    (_restarts_time self) in
      (Z.of_nat (length kept) <=? max_restart_count self,
       set_restarts_time kept self).
Proof.
  unfold request_restart_attempt.
  destruct (max_restart_count self =? 0); [reflexivity|].
  cbv zeta. rewrite kept_is_spec_history.
  rewrite Z.leb_antisym.
  destruct (max_restart_count self <? _); reflexivity.
Qed.

(** The newest entry survives the pruning: it is never older than the
    window that ends at it. *)
Lemma spec_history_snoc now w (h : list Z) :
  spec_history now w h =
    (if 0 <? w then List.filter (fun x => now - w <=? x) h else h) ++ [now].
Proof.
  rewrite <- kept_is_spec_history.
  destruct (Z.ltb_spec 0 w) as [Hw|Hw]; [|reflexivity].
  rewrite List.filter_app. cbn.
  destruct (Z.leb_spec (now - w) now); [reflexivity|lia].
Qed.

(** C1.  A call at time [now] answers true exactly when
    [max_restart_count] is 0 or the history of the specification's rule
    (append [now]; with a positive window drop what is older than
    [now - window]) is no longer than [max_restart_count]; otherwise it
    answers false.  With [max_restart_count = 0] the answer is true for
    every history. *)
Theorem request_restart_attempt_decision now self :
  let h := spec_history now (max_restart_interval_seconds self)
             (_restarts_time self) in
  (fst (request_restart_attempt now self) = true <->
     max_restart_count self = 0 \/ Z.of_nat (length h) <= max_restart_count self)
  /\ (fst (request_restart_attempt now self) = false <->
     ~ (max_restart_count self = 0 \/ Z.of_nat (length h) <= max_restart_count self))
  /\ (forall nm ep ntr po pr st ar rof w rc history,
        fst (request_restart_attempt now
               (mkTrunkProcessData nm ep ntr po pr st ar rof 0 w rc history)) = true).
Proof.
  cbv zeta. rewrite request_restart_attempt_eq.
  split; [|split]; [| |reflexivity];
    destruct (Z.eqb_spec (max_restart_count self) 0) as [E0|E0]; cbn [fst];
    try (destruct (Z.leb_spec
           (Z.of_nat (length (spec_history now (max_restart_interval_seconds self)
                                (_restarts_time self))))
           (max_restart_count self)));
    split; intros; try tauto; try lia; try discriminate.
  all: exfalso; intuition lia.
Qed.

(** C4, as amended.  Every call made with [max_restart_count <> 0], the
    first one included, records the attempt: afterwards the history is
    what the window kept of the old history, followed by [now].  A call
    made with [max_restart_count = 0] leaves the descriptor as it was. *)
Theorem request_restart_attempt_records now self :
  (max_restart_count self <> 0 ->
     _restarts_time (snd (request_restart_attempt now self)) =
       (if 0 <? max_restart_interval_seconds self
        then List.filter (fun x => now - max_restart_interval_seconds self <=? x)
               (_restarts_time self)
        else _restarts_time self) ++ [now])
  /\ (max_restart_count self = 0 ->
        snd (request_restart_attempt now self) = self).
Proof.
  rewrite request_restart_attempt_eq. split; intros H.
  - destruct (Z.eqb_spec (max_restart_count self) 0); [contradiction|].
    cbn. apply spec_history_snoc.
  - rewrite H. reflexivity.
Qed.

Lemma request_restart_attempt_records_witness :
  _restarts_time (snd (request_restart_attempt 1009 (crashed_http 1))) = [1009]
  /\ snd (request_restart_attempt 1009 unlimited_http) = unlimited_http.
Proof.
  split.
  - apply (proj1 (request_restart_attempt_records 1009 (crashed_http 1))).
    cbn. lia.
  - apply (proj2 (request_restart_attempt_records 1009 unlimited_http)).
    reflexivity.
Defined.

(** C4, as stated, fails: with [max_restart_count = 0] the call returns
    before the append, and the attempt is not in the history. *)
Lemma unlimited_attempt_not_recorded :
  max_restart_count unlimited_http = 0
  /\ fst (request_restart_attempt 1009 unlimited_http) = true
  /\ ~ In 1009 (_restarts_time (snd (request_restart_attempt 1009 unlimited_http))).
Proof. cbn. intuition. Qed.

Lemma restart_attempts_cons t ts self :
  restart_attempts (t :: ts) self =
    (fst (request_restart_attempt t self)
       :: fst (restart_attempts ts (snd (request_restart_attempt t self))),
     snd (restart_attempts ts (snd (request_restart_attempt t self)))).
Proof.
  cbn. destruct (request_restart_attempt t self) as [b self1]. cbn [fst snd].
  destruct (restart_attempts ts self1) as [bs self2]. reflexivity.
Qed.

(** Pruning for an earlier call loses nothing a later call would keep. *)
Lemma filter_window_earlier w t1 t (l : list Z) :
  t1 <= t ->
  List.filter (fun x => t - w <=? x) (List.filter (fun x => t1 - w <=? x) l)
  = List.filter (fun x => t - w <=? x) l.
Proof.
  intros Hle. induction l as [|x l IH]; cbn; [reflexivity|].
  destruct (Z.leb_spec (t1 - w) x) as [H1|H1]; cbn;
    destruct (Z.leb_spec (t - w) x) as [H2|H2]; try lia; now rewrite IH.
Qed.

Lemma history_after_attempts t ts : forall self,
  max_restart_count self <> 0 ->
  0 < max_restart_interval_seconds self ->
  Forall (fun x => x <= t) ts ->
  let w := max_restart_interval_seconds self in
  List.filter (fun x => t - w <=? x) (_restarts_time (snd (restart_attempts ts self)))
  = List.filter (fun x => t - w <=? x) (_restarts_time self ++ ts).
Proof.
  induction ts as [|t1 ts IH]; intros self HN HW Hts; cbv zeta.
  - cbn. now rewrite app_nil_r.
  - rewrite restart_attempts_cons. cbn [snd].
    pose proof (config_request_restart_attempt t1 self) as (Ec & Ew & _).
    set (self1 := snd (request_restart_attempt t1 self)) in *.
    apply Forall_cons_1 in Hts as [Ht1 Hts].
    specialize (IH self1). cbv zeta in IH. rewrite Ew in IH.
    rewrite IH by (rewrite ?Ec, ?Ew; auto).
    subst self1. rewrite request_restart_attempt_eq.
    destruct (Z.eqb_spec (max_restart_count self) 0); [contradiction|].
    cbn. rewrite <- kept_is_spec_history.
    destruct (Z.ltb_spec 0 (max_restart_interval_seconds self)); [|lia].
    rewrite (List.filter_app _ (List.filter _ _) ts).
    rewrite filter_window_earlier by assumption.
    rewrite <- List.filter_app, <- app_assoc. reflexivity.
Qed.

Lemma in_window_below w t (l : list Z) :
  Forall (fun x => x <= t) l ->
  in_window w t l = List.filter (fun x => t - w <=? x) l.
Proof.
  intros H. unfold in_window. induction H as [|x l Hx _ IH]; cbn; [reflexivity|].
  rewrite IH. destruct (Z.leb_spec x t); [|lia]. now rewrite andb_true_r.
Qed.

Lemma answers_without_window ts : forall self k b,
  max_restart_count self <> 0 ->
  max_restart_interval_seconds self <= 0 ->
  nth_error (fst (restart_attempts ts self)) k = Some b ->
  b = (Z.of_nat (length (_restarts_time self)) + Z.of_nat k + 1
       <=? max_restart_count self).
Proof.
  induction ts as [|t ts IH]; intros self k b HN HW Hk.
  - destruct k; discriminate.
  - rewrite restart_attempts_cons in Hk. cbn [fst] in Hk.
    pose proof (config_request_restart_attempt t self) as (Ec & Ew & _).
    rewrite request_restart_attempt_eq in Hk, Ec, Ew.
    destruct (Z.eqb_spec (max_restart_count self) 0); [contradiction|].
    unfold spec_history in Hk, Ec, Ew.
    destruct (Z.ltb_spec 0 (max_restart_interval_seconds self)); [lia|].
    cbn [fst snd] in Hk, Ec, Ew.
    destruct k as [|k]; cbn [nth_error] in Hk.
    + injection Hk as <-. rewrite length_app. cbn [length]. f_equal. lia.
    + apply IH in Hk; [|rewrite Ec; auto|rewrite Ew; auto].
      rewrite Hk, Ec. cbn [_restarts_time set_restarts_time].
      rewrite length_app. cbn [length]. f_equal. lia.
Qed.


(** C5, as amended.  With [max_restart_count = N > 0], it is the attempts
    inside the sliding window that count, as long as time does not step
    back.  With a window [W > 0]: a call at time [t]
    that no recorded or earlier attempt is later than answers by counting
    the attempts in [[t - W, t]] among all those recorded or made, and the
    entries older than [t - W] have no part in this answer or in any later
    one.  With [W = 0] every attempt counts, the [k]-th further call answers
    by comparing the number of attempts ever made with [N], so from call
    [N + 1] on the answer is false.  With [N = 3], [W = 60] and four
    attempts within 10 seconds the answers are true, true, true, false. *)
Theorem sliding_window_counts self (HN : 0 < max_restart_count self) :
  let N := max_restart_count self in
  let W := max_restart_interval_seconds self in
  let h := _restarts_time self in
  (0 < W ->
     (forall ts t, Forall (fun x => x <= t) (h ++ ts) ->
        fst (request_restart_attempt t (snd (restart_attempts ts self)))
        = (Z.of_nat (length (in_window W t (h ++ ts ++ [t]))) <=? N))
     /\ (forall t ts,
        fst (restart_attempts (t :: ts) self)
        = fst (restart_attempts (t :: ts)
                 (set_restarts_time (List.filter (fun x => t - W <=? x) h) self))))
  /\ (W = 0 ->
      forall ts k b, nth_error (fst (restart_attempts ts self)) k = Some b ->
        b = (Z.of_nat (length h) + Z.of_nat k + 1 <=? N)
        /\ (N <= Z.of_nat k -> b = false))
  /\ (N = 3 -> W = 60 -> h = [] ->
      forall t1 t2 t3 t4, t1 <= t2 -> t2 <= t3 -> t3 <= t4 -> t4 <= t1 + 10 ->
        fst (restart_attempts [t1; t2; t3; t4] self) = [true; true; true; false]).
Proof.
  cbv zeta. split; [|split].
  - intros HW. split.
    + intros ts t Hall. apply Forall_app in Hall as [Hh Hts].
      pose proof (config_restart_attempts ts self) as [Ec Ew]. cbv zeta in Ec, Ew.
      rewrite request_restart_attempt_eq, Ec, Ew.
      destruct (Z.eqb_spec (max_restart_count self) 0); [lia|]. cbn [fst].
      rewrite spec_history_snoc.
      destruct (Z.ltb_spec 0 (max_restart_interval_seconds self)); [|lia].
      rewrite history_after_attempts by (auto; lia).
      rewrite in_window_below.
      * rewrite app_assoc, !List.filter_app. cbn [List.filter].
        destruct (Z.leb_spec (t - max_restart_interval_seconds self) t); [|lia].
        reflexivity.
      * rewrite app_assoc. apply Forall_app. split.
        -- apply Forall_app. now split.
        -- constructor; [lia|constructor].
    + intros t ts. rewrite !restart_attempts_cons. cbn [fst].
      rewrite !request_restart_attempt_eq. cbn [max_restart_count set_restarts_time
        max_restart_interval_seconds _restarts_time].
      destruct (Z.eqb_spec (max_restart_count self) 0); [lia|]. cbn [fst snd].
      rewrite !spec_history_snoc.
      destruct (Z.ltb_spec 0 (max_restart_interval_seconds self)); [|lia].
      rewrite (filter_window_earlier _ t t) by lia. reflexivity.
  - intros HW ts k b Hk.
    apply answers_without_window in Hk; [|lia|lia].
    split; [exact Hk|]. intros Hle. rewrite Hk. apply Z.leb_gt. lia.
  - intros E3 E60 Eh t1 t2 t3 t4 H12 H23 H34 H41.
    destruct self as [nm ep ntr po pr st ar rof N W rc h]. cbn in *. subst.
    cbv -[Z.leb Z.sub].
    repeat (match goal with
            | |- context [?a <=? ?b] => destruct (Z.leb_spec a b); try lia
            end; cbv -[Z.leb Z.sub]).
    reflexivity.
Qed.

Lemma sliding_window_counts_witness :
  fst (request_restart_attempt 1009
         (snd (restart_attempts [1000; 1003; 1006] (crashed_http 1)))) = false
  /\ fst (restart_attempts [1000; 1003; 1006; 1009] (crashed_http 1))
     = [true; true; true; false]
  /\ nth_error (fst (restart_attempts [5; 900; 4000; 4001; 99999] bounded_forever_http)) 3
     = Some false.
Proof.
  assert (H3 : 0 < max_restart_count (crashed_http 1)) by (cbn; lia).
  assert (H3' : 0 < max_restart_count bounded_forever_http) by (cbn; lia).
  pose proof (sliding_window_counts (crashed_http 1) H3) as (Hw & _ & Hc).
  pose proof (sliding_window_counts bounded_forever_http H3') as (_ & Hz & _).
  cbv zeta in Hw, Hc, Hz. split; [|split].
  - assert (HW : 0 < max_restart_interval_seconds (crashed_http 1)) by (cbn; lia).
    destruct (Hw HW) as [Hcount _].
    rewrite (Hcount [1000; 1003; 1006] 1009); [reflexivity|].
    cbn. repeat constructor; lia.
  - apply Hc; cbn; try reflexivity; lia.
  - destruct (Hz eq_refl [5; 900; 4000; 4001; 99999] 3%nat false eq_refl) as [E _].
    reflexivity.
Defined.

(** C5, as stated, fails when the clock steps back: only the lower bound
    of the window is tested, so that an attempt recorded at a later time is
    counted at time [t] although it is not within [[t - W, t]].  With
    [N = 1] and [W = 60], an attempt at time 10 after one recorded at time
    100 is denied, while the window [[-50, 10]] holds one attempt. *)
Lemma sliding_window_not_upper_bounded :
  let self := mkTrunkProcessData "http" start_http true (Some 47334)
                (Some (mkProcess (Some 100) (Some 1))) false (Some [false; false])
                true 1 60 0 [100] in
  fst (request_restart_attempt 10 self) = false
  /\ (Z.of_nat (length (in_window 60 10 (_restarts_time self ++ [10]))) <=? 1) = true
  /\ fst (restart_attempts [100; 10] (set_restarts_time [] self)) = [true; false]
  /\ in_window 60 10 [100; 10] = [10].
Proof. vm_compute. repeat split. Qed.

(** ** Restart eligibility *)

(** C2, as amended.  A crashed process is restart-eligible exactly when the
    deployment is not hosted, its [restart_on_failure] flag is set, and
    either the platform is linux or darwin and the exit code is the one of
    a SIGKILL, or the platform is another one and [max_restart_count] is
    not 0. *)
Theorem should_restart_iff (is_cloud : bool) (platform : string) self :
  should_restart is_cloud platform self = inr true <->
    is_cloud = false /\ restart_on_failure self = true
    /\ ((platform_in_linux_darwin platform = true
         /\ exists p, process self = Some p /\ exitcode p = Some (- SIGKILL))
        \/ (platform_in_linux_darwin platform = false
            /\ max_restart_count self <> 0)).
Proof.
  unfold should_restart, exitcode_is.
  destruct is_cloud; [split; [discriminate|intros [? _]; discriminate]|].
  destruct (platform_in_linux_darwin platform).
  - destruct (restart_on_failure self);
      [|split; [discriminate|intros (_ & ? & _); discriminate]].
    destruct (process self) as [p|].
    + destruct (exitcode p) as [c|] eqn:Ec.
      * destruct (Z.eqb_spec c (- SIGKILL)) as [->|Hne].
        -- split; [intros _|reflexivity].
           split; [reflexivity|]. split; [reflexivity|].
           left. split; [reflexivity|]. exists p. now split.
        -- split; [discriminate|].
           intros (_ & _ & [(_ & q & Hq & Hc)|(? & _)]); [|discriminate].
           injection Hq as <-. congruence.
      * split; [discriminate|].
        intros (_ & _ & [(_ & q & Hq & Hc)|(? & _)]); [|discriminate].
        injection Hq as <-. congruence.
    + split; [discriminate|].
      intros (_ & _ & [(_ & q & Hq & _)|(? & _)]); discriminate.
  - destruct (Z.eqb_spec (max_restart_count self) 0) as [E|E].
    + split; [discriminate|].
      intros (_ & _ & [(? & _)|(_ & ?)]); [discriminate|contradiction].
    + split.
      * intros [= ->]. split; [reflexivity|]. split; [reflexivity|].
        right. now split.
      * intros (_ & -> & _). reflexivity.
Qed.

(** C2, as stated, fails in both directions of its "either": a hosted
    deployment never restarts, not even after an out-of-memory kill on linux,
    and an unmanaged linux deployment does not restart after another exit. *)
Lemma should_restart_not_spec_rule :
  (should_restart true "linux" (crashed_http (- SIGKILL)) = inr false
   /\ spec_restart_eligible true "linux" (crashed_http (- SIGKILL)) = true)
  /\ (should_restart false "linux" (crashed_http 1) = inr false
      /\ spec_restart_eligible false "linux" (crashed_http 1) = true).
Proof. repeat split. Qed.

(** C8, as amended.  In a deployment that is not hosted, on a platform that
    is neither linux nor darwin, [should_restart] is [restart_on_failure]
    when [max_restart_count > 0] and false when [max_restart_count = 0]. *)
Theorem should_restart_other_platform (platform : string) self
    (Hplat : platform_in_linux_darwin platform = false) :
  (0 < max_restart_count self ->
     should_restart false platform self = inr (restart_on_failure self))
  /\ (max_restart_count self = 0 ->
     should_restart false platform self = inr false).
Proof.
  unfold should_restart. rewrite Hplat. split; intros H.
  - destruct (Z.eqb_spec (max_restart_count self) 0); [lia|reflexivity].
  - rewrite H. reflexivity.
Qed.

Lemma should_restart_other_platform_witness :
  should_restart false "win32" (crashed_http 1) = inr true
  /\ should_restart false "win32" unlimited_http = inr false.
Proof.
  split.
  - apply (proj1 (should_restart_other_platform "win32" (crashed_http 1) eq_refl)).
    cbn. lia.
  - apply (proj2 (should_restart_other_platform "win32" unlimited_http eq_refl)).
    reflexivity.
Defined.

(** C8, as stated, fails in a hosted deployment: the platform branch is not
    reached, and the answer is false although [restart_on_failure] is set
    and [max_restart_count] is 3. *)
Lemma should_restart_other_platform_hosted :
  platform_in_linux_darwin "win32" = false
  /\ 0 < max_restart_count (crashed_http 1)
  /\ restart_on_failure (crashed_http 1) = true
  /\ should_restart true "win32" (crashed_http 1) = inr false.
Proof. repeat split. Qed.

(** C10.  In a hosted deployment [should_restart] is false for every
    descriptor, every platform and every exit code, and raises nothing; the
    [finally] block of [join_process] then logs the stop of the API, starts
    nothing and ends the loop. *)
Theorem should_restart_hosted (platform : string) self :
  should_restart true platform self = inr false
  /\ forall os verbose k w,
       trunc_processes_struct w k = self ->
       restart_or_finish (mkConfig true platform verbose) os k w
       = (inr true, snd (emit os (EvLog LogInfo (MsgStopped (name self))) w)).
Proof.
  split; [reflexivity|]. intros os verbose k w <-.
  unfold restart_or_finish, read_should_restart, bind, get_data. cbn.
  reflexivity.
Qed.

Lemma should_restart_hosted_witness :
  restart_or_finish (mkConfig true "linux" false) os_oom HTTP
    (mkWorld (update HTTP (crashed_http (- SIGKILL)) http_only) false 1700000000000 [])
  = (inr true,
     snd (emit os_oom (EvLog LogInfo (MsgStopped "http"))
            (mkWorld (update HTTP (crashed_http (- SIGKILL)) http_only) false
               1700000000000 []))).
Proof.
  apply (proj2 (should_restart_hosted "linux" (crashed_http (- SIGKILL)))).
  reflexivity.
Defined.

End RestartPolicy.

(** ** Orphan reconciliation *)

Section Reconciliation.

Implicit Types (r : Predictor) (pids : list Z) (rows : list Predictor) (s : Session).

Lemma set_error_unfinished message r : unfinished (set_error message r) = false.
Proof. unfold unfinished, set_error. cbn. now destruct (deleted_at r). Qed.

(** A row the query does not return is left alone, whatever the pids. *)
Lemma reconcile_finished pids r : unfinished r = false -> reconcile pids r = (r, 0%nat).
Proof. intros H. unfold reconcile. now rewrite H. Qed.

(** After a sweep no row is both unfinished and orphaned. *)
Lemma reconcile_settled pids r :
  reconcile pids (fst (reconcile pids r)) = (fst (reconcile pids r), 0%nat).
Proof.
  unfold reconcile at 2 3.
  destruct (unfinished r && py_in (predictor_process_id r) pids) eqn:E; cbn [fst].
  - apply reconcile_finished, set_error_unfinished.
  - unfold reconcile. now rewrite E.
Qed.

Lemma reconcile_all_settled pids rows :
  reconcile_all pids (fst (reconcile_all pids rows)) = (fst (reconcile_all pids rows), 0%nat).
Proof.
  induction rows as [|r rows IH]; [reflexivity|]. cbn.
  pose proof (reconcile_settled pids r) as Hr.
  destruct (reconcile pids r) as [r' c].
  destruct (reconcile_all pids rows) as [rs cs]. cbn in *.
  now rewrite Hr, IH.
Qed.

Lemma dict_has_snoc key (d : list (string * json)) v :
  dict_has key (d ++ [(key, v)]) = true.
Proof.
  unfold dict_has. rewrite existsb_app. cbn. rewrite String.eqb_refl.
  now rewrite orb_true_r.
Qed.

Lemma dict_get_snoc key (d : list (string * json)) v :
  dict_has key d = false -> dict_get key (d ++ [(key, v)]) = v.
Proof.
  unfold dict_has, dict_get. induction d as [|[k x] d IH]; cbn.
  - now rewrite String.eqb_refl.
  - destruct (String.eqb k key); [discriminate|]. exact IH.
Qed.

(** What [set_error] leaves in the [error] entry: the entry that was there,
    or the message. *)
Lemma error_message_set_error message r :
  error_message (set_error message r)
  = Some (match error_message r with Some e => e | None => JStr message end).
Proof.
  unfold error_message, set_error. cbn [data].
  destruct (data r) as [ |b|n|m|l|items]; cbn [dict_has existsb app];
    try reflexivity.
  destruct (dict_has "error" items) eqn:E.
  - now rewrite E.
  - now rewrite dict_has_snoc, dict_get_snoc.
Qed.

Lemma reconcile_all_lookup pids rows : forall i : nat,
  fst (reconcile_all pids rows) !! i = (fun r => fst (reconcile pids r)) <$> rows !! i.
Proof.
  induction rows as [|r rows IH]; intros i; [now destruct i|].
  cbn [reconcile_all].
  destruct (reconcile pids r) as [r' c] eqn:Er.
  destruct (reconcile_all pids rows) as [rs cs] eqn:Ea. cbn [fst] in *.
  destruct i as [|i]; cbn; [now rewrite Er|apply IH].
Qed.

Lemma predictors_swept pids s :
  predictors (set_error_model_status_by_pids pids s) = fst (reconcile_all pids (predictors s)).
Proof.
  unfold set_error_model_status_by_pids.
  now destruct (reconcile_all pids (predictors s)).
Qed.

Lemma py_in_nonempty v pids : py_in v pids = true -> (0 <? Z.of_nat (length pids)) = true.
Proof.
  destruct pids; [|reflexivity]. destruct v; cbn; discriminate.
Qed.

(** C7, as amended.  For every row that is not soft-deleted, is in a
    non-terminal status and whose process id is in the orphaned set, one
    sweep sets the status to [ERROR] and leaves an [error] entry in its
    data: the entry that was there, untouched, or else the default message,
    which is not empty.  Whatever the orphaned set of a later sweep, the row
    is left as it is; a second sweep with the same set changes no row and
    commits nothing.  A round of [do_clean_process_marks] in a deployment
    that is not hosted is this sweep, and rounds that find the same orphans
    again add nothing to it. *)
Theorem orphan_reconciled_once pids s (i : nat) r
    (Hrow : predictors s !! i = Some r)
    (Hlive : deleted_at r = None)
    (Hrun : is_terminal (status r) = false)
    (Horphan : py_in (predictor_process_id r) pids = true) :
  let s1 := set_error_model_status_by_pids pids s in
  (exists r', predictors s1 !! i = Some r'
      /\ status r' = ERROR
      /\ error_message r'
         = Some (match error_message r with
                 | Some e => e
                 | None => JStr terminated_message
                 end)
      /\ terminated_message <> ""%string)
  /\ (forall pids',
        predictors (set_error_model_status_by_pids pids' s1) !! i = predictors s1 !! i)
  /\ set_error_model_status_by_pids pids s1 = s1
  /\ clean_process_marks_round false pids s = s1
  /\ do_clean_process_marks false [(false, pids); (false, pids); (true, pids)] s = s1.
Proof.
  cbv zeta.
  assert (Hi : predictors (set_error_model_status_by_pids pids s) !! i
               = Some (set_error terminated_message r)).
  { rewrite predictors_swept, reconcile_all_lookup, Hrow. cbn.
    unfold reconcile, unfinished. now rewrite Hlive, Hrun, Horphan. }
  assert (Hround : clean_process_marks_round false pids s
                   = set_error_model_status_by_pids pids s).
  { unfold clean_process_marks_round. now rewrite (py_in_nonempty _ _ Horphan). }
  assert (Hagain : set_error_model_status_by_pids pids
                     (set_error_model_status_by_pids pids s)
                   = set_error_model_status_by_pids pids s).
  { unfold set_error_model_status_by_pids at 1.
    rewrite predictors_swept, reconcile_all_settled.
    rewrite Nat.add_0_r, <- predictors_swept.
    now destruct (set_error_model_status_by_pids pids s). }
  split; [|split; [|split; [|split]]].
  - exists (set_error terminated_message r).
    split; [exact Hi|]. split; [reflexivity|].
    split; [apply error_message_set_error|discriminate].
  - intros pids'. rewrite (predictors_swept pids'), reconcile_all_lookup, Hi. cbn.
    now rewrite reconcile_finished by apply set_error_unfinished.
  - exact Hagain.
  - exact Hround.
  - cbn [do_clean_process_marks]. rewrite Hround.
    unfold clean_process_marks_round. rewrite (py_in_nonempty _ _ Horphan).
    exact Hagain.
Qed.

Lemma orphan_reconciled_once_witness :
  let s := mkSession [training_row None JNull; training_row None (JDict [("error", JStr "out of memory")])] 0 in
  let s1 := set_error_model_status_by_pids [4242] s in
  predictors s1 !! 1%nat
    = Some (mkPredictor None ERROR (Some [("process_id", JNum 4242)])
              (JDict [("error", JStr "out of memory")]))
  /\ set_error_model_status_by_pids [4242] s1 = s1.
Proof.
  cbv zeta.
  destruct (orphan_reconciled_once [4242]
              (mkSession [training_row None JNull;
                          training_row None (JDict [("error", JStr "out of memory")])] 0)
              1%nat (training_row None (JDict [("error", JStr "out of memory")]))
              eq_refl eq_refl eq_refl eq_refl) as (_ & _ & Hsame & _ & _).
  split; [reflexivity|exact Hsame].
Defined.

(** C7, as stated, fails on three inputs: a soft-deleted row in a running
    status whose process is orphaned is not returned by the query and keeps
    its status; a row that already has an empty [error] entry ends in
    [ERROR] with the empty message; and in a hosted deployment a round of
    [do_clean_process_marks] does not sweep at all. *)
Lemma orphan_not_always_reconciled :
  (let row := training_row (Some 1700000000) JNull in
   py_in (predictor_process_id row) [4242] = true
   /\ is_terminal (status row) = false
   /\ predictors (set_error_model_status_by_pids [4242] (mkSession [row] 0)) = [row])
  /\ (let row := training_row None (JDict [("error", JStr "")]) in
      exists row',
        predictors (set_error_model_status_by_pids [4242] (mkSession [row] 0)) = [row']
        /\ status row' = ERROR
        /\ error_message row' = Some (JStr "")
        /\ spec_swept row' = false)
  /\ (let row := training_row None JNull in
      clean_process_marks_round true [4242] (mkSession [row] 0) = mkSession [row] 0).
Proof.
  split; [|split].
  - repeat split.
  - eexists. repeat split.
  - reflexivity.
Qed.

End Reconciliation.

(** ** Traces *)

Section TraceGrowth.

Variable Q : event -> Prop.
Variable os : OS.

Lemma grows_refl w : grows Q w w.
Proof.
  split; [|split]; [|auto|lia].
  exists []. split; [now rewrite app_nil_r|constructor].
Qed.

Lemma grows_trans w1 w2 w3 : grows Q w1 w2 -> grows Q w2 w3 -> grows Q w1 w3.
Proof.
  intros ((e1 & T1 & F1) & S1 & C1) ((e2 & T2 & F2) & S2 & C2).
  split; [|split]; [|auto|lia].
  exists (e1 ++ e2). split; [now rewrite T2, T1, app_assoc|].
  apply Forall_app. now split.
Qed.

Lemma within_ret {A} (a : A) : within Q (ret a).
Proof. intros w. apply grows_refl. Qed.

Lemma within_raise {A} e : within Q (@raise A e).
Proof. intros w. apply grows_refl. Qed.

Lemma within_bind {A B} (m : M A) (f : A -> M B) :
  within Q m -> (forall a, within Q (f a)) -> within Q (bind m f).
Proof.
  intros Hm Hf w. unfold bind. specialize (Hm w).
  destruct (m w) as [[e|a] w1]; cbn in *; [exact Hm|].
  eapply grows_trans; [exact Hm|apply Hf].
Qed.

Lemma within_try_except {A} (body : M A) handles handler :
  within Q body -> (forall e, within Q (handler e)) ->
  within Q (try_except body handles handler).
Proof.
  intros Hb Hh w. unfold try_except. specialize (Hb w).
  destruct (body w) as [[e|a] w1]; cbn in *; [|exact Hb].
  destruct (handles e); [|exact Hb].
  eapply grows_trans; [exact Hb|apply Hh].
Qed.

Lemma within_try_finally {A B} (body : M A) (final : M B) :
  within Q body -> within Q final -> within Q (try_finally body final).
Proof.
  intros Hb Hf w. unfold try_finally. specialize (Hb w).
  destruct (body w) as [[e|a] w1]; cbn in *.
  - specialize (Hf w1). destruct (final w1) as [[e'|b] w2]; cbn in *;
      eapply grows_trans; eauto.
  - eapply grows_trans; [exact Hb|apply Hf].
Qed.

Lemma within_for_each {A} (l : list A) (body : A -> M unit) :
  (forall x, within Q (body x)) -> within Q (for_each l body).
Proof.
  intros Hb. induction l as [|x l IH]; cbn [for_each].
  - apply within_ret.
  - apply within_bind; [apply Hb|intros _; exact IH].
Qed.

Lemma within_emit ev : Q ev -> within Q (emit os ev).
Proof.
  intros Hq w. split; [|split]; cbn; [|auto|lia].
  exists [ev]. split; [reflexivity|]. now constructor.
Qed.

Lemma within_ask {R} (answer : list event -> R) (ev : R -> event) :
  (forall r, Q (ev r)) -> within Q (ask os answer ev).
Proof.
  intros Hq w. unfold ask. split; [|split]; cbn; [|auto|lia].
  exists [ev (answer (trace w))]. split; [reflexivity|]. now constructor.
Qed.

Lemma within_sleep ms : Q (EvSleep ms) -> 0 <= ms -> within Q (sleep os ms).
Proof.
  intros Hq Hms w. split; [|split]; cbn; [|auto|lia].
  exists [EvSleep ms]. split; [reflexivity|]. now constructor.
Qed.

Lemma within_get_clock : within Q get_clock.
Proof. intros w. apply grows_refl. Qed.

Lemma within_get_data k : within Q (get_data k).
Proof. intros w. apply grows_refl. Qed.

Lemma within_set_data k d : within Q (set_data k d).
Proof.
  intros w. split; [|split]; cbn; [|auto|lia].
  exists []. split; [now rewrite app_nil_r|constructor].
Qed.

Lemma within_stop_event_set : within Q stop_event_set.
Proof.
  intros w. split; [|split]; cbn; [|auto|lia].
  exists []. split; [now rewrite app_nil_r|constructor].
Qed.

Lemma within_of_result {A} (r : exn + A) : within Q (of_result r).
Proof. destruct r; [apply within_raise|apply within_ret]. Qed.

End TraceGrowth.

(** One step of a proof that a computation stays [within] a class of
    events: follow the structure of the computation. *)
Ltac within_step :=
  lazymatch goal with
  | |- within _ (bind _ _) => apply within_bind; [|intros ?]
  | |- within _ (ret _) => apply within_ret
  | |- within _ (raise _) => apply within_raise
  | |- within _ (try_except _ _ _) => apply within_try_except; [|intros ?]
  | |- within _ (try_finally _ _) => apply within_try_finally
  | |- within _ (for_each _ _) => apply within_for_each; intros ?
  | |- within _ (emit _ _) => apply within_emit
  | |- within _ (ask _ _ _) => apply within_ask; intros ?
  | |- within _ (sleep _ _) => apply within_sleep
  | |- within _ get_clock => apply within_get_clock
  | |- within _ (get_data _) => apply within_get_data
  | |- within _ (set_data _ _) => apply within_set_data
  | |- within _ stop_event_set => apply within_stop_event_set
  | |- within _ (of_result _) => apply within_of_result
  | |- within _ (match ?x with _ => _ end) => destruct x
  end.

(** ** Shutdown *)

Section Shutdown.

Variable os : OS.

Implicit Types (w : World) (k : TrunkProcessEnum) (p : Process) (tr evs : list event).

Lemma reaped_app n tr evs : reaped n (tr ++ evs) = reaped n tr || reaped n evs.
Proof. apply existsb_app. Qed.

Lemma reaped_quiet n evs :
  Forall (fun ev => is_quiet ev = true) evs -> reaped n evs = false.
Proof.
  unfold reaped. induction 1 as [|ev evs Hq _ IH]; [reflexivity|]. cbn. rewrite IH.
  destruct ev; cbn in Hq; try discriminate; reflexivity.
Qed.

Lemma never_reterminates_app evs1 : forall tr evs2,
  never_reterminates tr (evs1 ++ evs2)
  = never_reterminates tr evs1 && never_reterminates (tr ++ evs1) evs2.
Proof.
  induction evs1 as [|ev evs1 IH]; intros tr evs2; cbn.
  - now rewrite app_nil_r.
  - rewrite IH, <- app_assoc, andb_assoc. reflexivity.
Qed.

Lemma never_reterminates_calm evs : forall tr,
  Forall (fun ev => is_terminate ev = false) evs -> never_reterminates tr evs = true.
Proof.
  induction evs as [|ev evs IH]; intros tr H; [reflexivity|].
  apply Forall_cons_1 in H as [Hev H]. cbn. rewrite IH by assumption.
  destruct ev; try reflexivity; discriminate.
Qed.

Lemma quiet_is_calm evs :
  Forall (fun ev => is_quiet ev = true) evs ->
  Forall (fun ev => is_terminate ev = false) evs.
Proof.
  intros H. eapply Forall_impl; [exact H|].
  intros ev. destruct ev; cbn; congruence.
Qed.

Lemma within_kill_child c : within (fun ev => is_quiet ev = true) (kill_child os c).
Proof. unfold kill_child. repeat (within_step; try reflexivity). Qed.

Lemma within_signal_children (of_pid : option Z) :
  within (fun ev => is_quiet ev = true) (signal_children os of_pid).
Proof.
  unfold signal_children. repeat (within_step; try reflexivity).
  apply within_kill_child.
Qed.

(** The children were signalled only if their enumeration succeeded. *)
Lemma signal_children_ok (of_pid : option Z) w :
  fst (signal_children os of_pid w) = inr tt ->
  exists childs, get_child_pids os (trace w) of_pid = inr childs.
Proof.
  unfold signal_children, bind, ask. cbn.
  destruct (get_child_pids os (trace w) of_pid) as [e|childs]; cbn; [discriminate|].
  eauto.
Qed.

Lemma within_join_tail k p :
  within (fun ev => is_terminate ev = false)
    (bind (process_join os k p) (fun _ => emit os EvFlush)).
Proof.
  unfold process_join. within_step; [|now within_step].
  repeat (within_step; try reflexivity).
Qed.

(** What [stop_process] adds to the trace: the flush, then, if the handle
    was started, one [terminate()] of its process and no other. *)
Lemma stop_process_trace k p w :
  exists evs, trace (snd (stop_process os k p w)) = trace w ++ EvFlush :: evs
    /\ match pid p with
       | Some n => exists rest, evs = EvTerminate n :: rest
                     /\ Forall (fun ev => is_terminate ev = false) rest
       | None => evs = []
       end.
Proof.
  unfold stop_process, bind at 1, emit at 1. cbn [fst snd].
  unfold bind at 1, process_terminate.
  destruct (pid p) as [n|] eqn:Hpid.
  - unfold emit at 1. cbn [fst snd].
    match goal with |- context [bind _ _ ?w1] => set (w' := w1) end.
    destruct (within_join_tail k p w') as ((rest & Hrest & Hcalm) & _).
    exists (EvTerminate n :: rest). split; [|eauto].
    rewrite Hrest. subst w'. cbn [trace]. now rewrite <- !app_assoc.
  - cbn. exists []. now split.
Qed.

Lemma close_one_never_reterminates k w :
  raises_for_reaped os ->
  exists evs, trace (snd (close_one os k w)) = trace w ++ evs
    /\ never_reterminates (trace w) evs = true.
Proof.
  intros Hps. unfold close_one, bind at 1, get_data. cbn [fst snd].
  destruct (process (trunc_processes_struct w k)) as [p|];
    [|exists []; split; [now rewrite app_nil_r|reflexivity]].
  unfold try_except, bind.
  destruct (within_signal_children (pid p) w) as ((e1 & T1 & Q1) & _).
  pose proof (signal_children_ok (pid p) w) as Hok.
  destruct (signal_children os (pid p) w) as [[e|[]] w1]; cbn [fst snd] in *.
  - exists e1. split.
    + now destruct (is_NoSuchProcess e).
    + now apply never_reterminates_calm, quiet_is_calm.
  - destruct (Hok eq_refl) as [childs Hchilds].
    destruct (stop_process_trace k p w1) as (e2 & T2 & H2).
    exists (e1 ++ EvFlush :: e2). split.
    + destruct (stop_process os k p w1) as [[e|[]] w2]; cbn [fst snd] in *;
        [destruct (is_NoSuchProcess e)|]; cbn [ret snd];
        now rewrite T2, T1, <- app_assoc.
    + rewrite never_reterminates_app.
      rewrite never_reterminates_calm by now apply quiet_is_calm.
      destruct (pid p) as [n|].
      * destruct H2 as (rest & -> & Hrest). cbn.
        rewrite never_reterminates_calm by assumption.
        rewrite !reaped_app, (reaped_quiet n e1) by assumption. cbn.
        destruct (reaped n (trace w)) eqn:Hr; [|reflexivity].
        rewrite (Hps _ _ Hr) in Hchilds. discriminate.
      * subst e2. reflexivity.
Qed.

Lemma for_each_close_never_reterminates (ks : list TrunkProcessEnum) :
  raises_for_reaped os -> forall w,
  exists evs, trace (snd (for_each ks (close_one os) w)) = trace w ++ evs
    /\ never_reterminates (trace w) evs = true.
Proof.
  intros Hps. induction ks as [|k ks IH]; intros w; cbn [for_each].
  - exists []. split; [now rewrite app_nil_r|reflexivity].
  - unfold bind.
    destruct (close_one_never_reterminates k w Hps) as (e1 & T1 & N1).
    destruct (close_one os k w) as [[e|[]] w1]; cbn [fst snd] in *; [eauto|].
    destruct (IH w1) as (e2 & T2 & N2).
    exists (e1 ++ e2). split; [now rewrite T2, T1, app_assoc|].
    now rewrite never_reterminates_app, N1, <- T1.
Qed.

Lemma all_reaped_later w w' evs :
  all_reaped w ->
  trunc_processes_struct w' = trunc_processes_struct w ->
  trace w' = trace w ++ evs ->
  all_reaped w'.
Proof.
  intros Hall Hs Ht k p Hp. rewrite Hs in Hp.
  destruct (Hall k p Hp) as (n & Hn & Hr). exists n. split; [exact Hn|].
  now rewrite Ht, reaped_app, Hr.
Qed.

Lemma close_one_all_reaped k w :
  raises_for_reaped os -> all_reaped w ->
  exists w', close_one os k w = (inr tt, w')
    /\ trunc_processes_struct w' = trunc_processes_struct w
    /\ _stop_event w' = _stop_event w
    /\ exists evs, trace w' = trace w ++ evs
         /\ Forall (fun ev => acts_on_process ev = false) evs.
Proof.
  intros Hps Hall. unfold close_one, bind at 1, get_data. cbn [fst snd].
  destruct (process (trunc_processes_struct w k)) as [p|] eqn:Hp.
  - destruct (Hall k p Hp) as (n & Hn & Hr).
    unfold try_except, bind at 1, signal_children, bind at 1, ask. cbn.
    rewrite Hn, (Hps _ _ Hr). cbn.
    eexists. split; [reflexivity|]. cbn. repeat split.
    eexists. split; [reflexivity|]. now repeat constructor.
  - exists w. repeat split. exists []. split; [now rewrite app_nil_r|constructor].
Qed.

Lemma for_each_close_all_reaped (ks : list TrunkProcessEnum) :
  raises_for_reaped os -> forall w, all_reaped w ->
  exists w', for_each ks (close_one os) w = (inr tt, w')
    /\ trunc_processes_struct w' = trunc_processes_struct w
    /\ _stop_event w' = _stop_event w
    /\ exists evs, trace w' = trace w ++ evs
         /\ Forall (fun ev => acts_on_process ev = false) evs.
Proof.
  intros Hps. induction ks as [|k ks IH]; intros w Hall; cbn [for_each].
  - exists w. repeat split. exists []. split; [now rewrite app_nil_r|constructor].
  - unfold bind.
    destruct (close_one_all_reaped k w Hps Hall) as (w1 & -> & S1 & E1 & e1 & T1 & F1).
    destruct (IH w1 (all_reaped_later _ _ _ Hall S1 T1))
      as (w2 & -> & S2 & E2 & e2 & T2 & F2).
    exists w2. split; [reflexivity|]. split; [congruence|]. split; [congruence|].
    exists (e1 ++ e2). split; [now rewrite T2, T1, app_assoc|].
    apply Forall_app. now split.
Qed.

(** C3, as amended.  [close_api_gracefully] sets the stop event on every
    call and never reads it: what a call does is the same whether the event
    was set before or not.  A descriptor without a process handle is
    skipped; a descriptor whose children cannot be enumerated because the
    process is gone ([NoSuchProcess]) is skipped and nothing is raised.
    When the enumeration raises [NoSuchProcess] for every process the
    supervisor has reaped, no call sends [terminate()] to a process reaped
    before, and a call made when every handle is that of a reaped process,
    as the second of two calls in sequence is, raises nothing, leaves the
    descriptors as they are, and signals, terminates and joins nothing. *)
Theorem close_api_gracefully_repeated w :
  (forall b, close_api_gracefully os (with_stop_event b w) = close_api_gracefully os w)
  /\ _stop_event (snd (close_api_gracefully os w)) = true
  /\ (forall k, process (trunc_processes_struct w k) = None ->
        close_one os k w = (inr tt, w))
  /\ (forall k p, process (trunc_processes_struct w k) = Some p ->
        get_child_pids os (trace w) (pid p) = inl NoSuchProcess ->
        close_one os k w
        = (inr tt, snd (emit os (EvGetChildPids (pid p) (inl NoSuchProcess)) w)))
  /\ (raises_for_reaped os ->
        (exists evs, trace (snd (close_api_gracefully os w)) = trace w ++ evs
           /\ never_reterminates (trace w) evs = true)
        /\ (all_reaped w ->
            exists w', close_api_gracefully os w = (inr tt, w')
              /\ trunc_processes_struct w' = trunc_processes_struct w
              /\ exists evs, trace w' = trace w ++ evs
                   /\ Forall (fun ev => acts_on_process ev = false) evs)).
Proof.
  split; [|split; [|split; [|split]]].
  - reflexivity.
  - unfold close_api_gracefully, bind at 1, stop_event_set. cbn [fst snd].
    match goal with |- _stop_event (snd (?m ?w0)) = true =>
      assert (Hm : within (fun _ => True) m);
      [|exact (proj1 (proj2 (Hm w0)) eq_refl)] end.
    unfold close_one, signal_children, stop_process, kill_child,
      process_terminate, process_join.
    repeat (within_step; try exact I).
  - intros k Hk. unfold close_one, bind, get_data. cbn. now rewrite Hk.
  - intros k p Hk Hgone. unfold close_one, bind at 1, get_data. cbn [fst snd].
    rewrite Hk. unfold try_except, bind at 1, signal_children, bind at 1, ask. cbn.
    now rewrite Hgone.
  - intros Hps. split.
    + unfold close_api_gracefully, bind at 1, stop_event_set, try_except. cbn [fst snd].
      match goal with |- context [for_each all_apis (close_one os) ?w0] =>
        destruct (for_each_close_never_reterminates all_apis Hps w0) as (evs & T & N);
        destruct (for_each all_apis (close_one os) w0) as [[e|[]] w1] end;
        cbn [fst snd trace] in *; exists evs; split; auto.
      now destruct (is_KeyboardInterrupt e).
    + intros Hall.
      unfold close_api_gracefully, bind at 1, stop_event_set, try_except. cbn [fst snd].
      match goal with |- context [for_each all_apis (close_one os) ?w0] =>
        destruct (for_each_close_all_reaped all_apis Hps w0)
          as (w1 & -> & S1 & _ & evs & T1 & F1) end.
      { intros k p Hp. exact (Hall k p Hp). }
      exists w1. split; [reflexivity|]. split; [exact S1|]. now exists evs.
Qed.

End Shutdown.

Lemma os_psutil_raises_for_reaped : raises_for_reaped os_psutil.
Proof. intros tr n H. cbn. now rewrite H. Qed.

Lemma close_api_gracefully_repeated_witness :
  let w1 := snd (close_api_gracefully os_psutil world0) in
  trace w1 = [EvGetChildPids (Some 100) (inr []); EvFlush; EvTerminate 100;
              EvJoin 100 (inr (- SIGTERM)); EvFlush]
  /\ exists w2, close_api_gracefully os_psutil w1 = (inr tt, w2)
       /\ trunc_processes_struct w2 = trunc_processes_struct w1
       /\ exists evs, trace w2 = trace w1 ++ evs
            /\ Forall (fun ev => acts_on_process ev = false) evs.
Proof.
  cbv zeta. split; [reflexivity|].
  apply (proj2 (proj2 (proj2 (proj2
           (close_api_gracefully_repeated os_psutil
              (snd (close_api_gracefully os_psutil world0))))))).
  - exact os_psutil_raises_for_reaped.
  - intros k p Hp. exists 100.
    destruct k; vm_compute in Hp; try discriminate.
    injection Hp as <-. split; reflexivity.
Defined.

(** C3, as stated, fails.  The stop event is set by the first call and the
    handle holds the exit code of its terminated process, yet the second
    call walks the descriptors again: it enumerates the children of the
    pid, and when the enumeration succeeds (the pid is in use again) it
    calls [terminate()] and [join()] on the process once more; when the
    enumeration raises, that failed enumeration is what the second call
    does. *)
Lemma close_api_gracefully_not_guarded :
  (let w1 := snd (close_api_gracefully os_pid_reused world0) in
   fst (close_api_gracefully os_pid_reused world0) = inr tt
   /\ _stop_event w1 = true
   /\ process (trunc_processes_struct w1 HTTP)
      = Some (mkProcess (Some 100) (Some (- SIGTERM)))
   /\ trace (snd (close_api_gracefully os_pid_reused w1))
      = trace w1 ++ [EvGetChildPids (Some 100) (inr []); EvFlush; EvTerminate 100;
                     EvJoin 100 (inr (- SIGTERM)); EvFlush])
  /\ (let w1 := snd (close_api_gracefully os_psutil world0) in
      _stop_event w1 = true
      /\ trace (snd (close_api_gracefully os_psutil w1))
         = trace w1 ++ [EvGetChildPids (Some 100) (inl NoSuchProcess)]).
Proof. repeat split. Qed.

(** ** Health gate *)

Section HealthGate.

Variable os : OS.

Implicit Types (w : World) (k : TrunkProcessEnum) (of_pid on_port : option Z).

Lemma last_cons {A} (a d : A) (l : list A) : List.last (a :: l) d = List.last l a.
Proof.
  revert a d. induction l as [|b l IH]; intros a d; [reflexivity|].
  change (List.last (a :: b :: l) d) with (List.last (b :: l) d).
  now rewrite !IH.
Qed.

Lemma monitored_iff k w :
  In k (monitored w) <-> need_to_run (trunc_processes_struct w k) = true.
Proof.
  unfold monitored. rewrite List.filter_In. split; [tauto|].
  intros H. split; [|exact H]. destruct k; cbn; tauto.
Qed.

Lemma port_bearing_needed k w :
  In k (port_bearing w) -> need_to_run (trunc_processes_struct w k) = true.
Proof.
  unfold port_bearing. rewrite List.filter_In. intros [_ H].
  now destruct (port (trunc_processes_struct w k)).
Qed.

(** *** One gate alone *)

(** The loop of [wait_api_start] asks [is_pid_listen_port] after every
    sleep and goes on only while the answer is false. *)
Lemma wait_loop_polled of_pid on_port start_time : forall rounds started w,
  start_time + timeout_ms - clock w <= poll_interval_ms * Z.of_nat rounds ->
  exists answers w',
    wait_loop os rounds start_time of_pid on_port started w
    = (inr (List.last answers started), w')
    /\ trace w' = trace w ++ poll_events of_pid on_port answers
    /\ polled os (trace w) of_pid on_port answers
    /\ (length answers <= rounds)%nat
    /\ (List.last answers started = false -> timeout_ms <= clock w' - start_time)
    /\ (started = true -> answers = [])
    /\ Forall (fun a => a = false) (removelast answers).
Proof.
  unfold timeout_ms, poll_interval_ms.
  induction rounds as [|rounds IH]; intros started w Hleft.
  - cbn [wait_loop]. unfold bind, get_clock. cbn [fst snd].
    destruct (Z.ltb_spec (clock w - start_time) timeout_ms) as [Hlt|Hge];
      unfold timeout_ms in *; [lia|]. cbn [andb].
    exists [], w. cbn. rewrite app_nil_r. repeat split; auto; lia.
  - cbn [wait_loop]. unfold bind at 1, get_clock. cbn [fst snd].
    destruct ((clock w - start_time <? timeout_ms) && negb started) eqn:Hcond.
    + unfold bind at 1, sleep. cbn [fst snd].
      unfold bind at 1, ask, emit. cbn [fst snd trace clock trunc_processes_struct].
      match goal with |- context [wait_loop os rounds _ _ _ ?a ?w2] =>
        destruct (IH a w2) as (answers & w' & Hrun & Ht & Hp & Hl & Hc & Hfirst & Hfalse);
        [cbn [clock]; unfold poll_interval_ms; lia|];
        exists (a :: answers), w'; rewrite Hrun; set (first := a) in * end.
      rewrite last_cons. cbn [trace] in Ht, Hp.
      split; [reflexivity|]. split; [|split; [|split; [|split; [|split]]]].
      * rewrite Ht. cbn [poll_events flat_map]. unfold poll_interval_ms.
        now rewrite <- !app_assoc.
      * cbn [polled]. unfold poll_interval_ms. split; [reflexivity|].
        rewrite <- app_assoc in Hp. exact Hp.
      * cbn [length]. lia.
      * exact Hc.
      * intros ->. rewrite andb_false_r in Hcond. discriminate.
      * destruct answers as [|a' answers]; [constructor|].
        change (removelast (first :: a' :: answers))
          with (first :: removelast (a' :: answers)).
        constructor; [|exact Hfalse].
        destruct first; [|reflexivity]. now specialize (Hfirst eq_refl).
    + exists [], w. cbn. rewrite app_nil_r. repeat split; auto; try lia.
      intros ->. rewrite andb_true_r in Hcond.
      apply Z.ltb_ge in Hcond. unfold timeout_ms in Hcond. lia.
Qed.

Lemma wait_api_start_polled api_name of_pid on_port w :
  exists answers w',
    let first := is_pid_listen_port os (trace w) of_pid on_port in
    wait_api_start os api_name of_pid on_port w
    = (inr (api_name, on_port, List.last answers first), w')
    /\ trace w' = trace w ++ EvListen of_pid on_port first
                     :: poll_events of_pid on_port answers
    /\ polled os (trace w ++ [EvListen of_pid on_port first]) of_pid on_port answers
    /\ (length answers <= max_rounds)%nat
    /\ (List.last answers first = false -> timeout_ms <= clock w' - clock w)
    /\ (first = true -> answers = [])
    /\ Forall (fun a => a = false) (removelast (first :: answers)).
Proof.
  unfold wait_api_start, bind at 1, get_clock. cbn [fst snd].
  unfold bind at 1, ask, emit. cbn [fst snd trace clock trunc_processes_struct].
  unfold bind at 1.
  match goal with |- context [wait_loop os _ _ _ _ ?a ?w1] =>
    destruct (wait_loop_polled of_pid on_port (clock w) max_rounds a w1)
      as (answers & w' & Hrun & Ht & Hp & Hl & Hc & Hfirst & Hfalse);
    [cbn [clock]; unfold timeout_ms, poll_interval_ms, max_rounds; lia|];
    exists answers, w'; cbv zeta; rewrite Hrun; set (first := a) in * end.
  cbn [trace] in Ht, Hp. unfold ret.
  split; [reflexivity|]. split; [now rewrite Ht, <- app_assoc|].
  split; [exact Hp|]. split; [exact Hl|]. split; [exact Hc|].
  split; [exact Hfirst|].
  destruct answers as [|a' answers]; [constructor|].
  change (removelast (first :: a' :: answers))
    with (first :: removelast (a' :: answers)).
  constructor; [|exact Hfalse].
  destruct first; [|reflexivity]. now specialize (Hfirst eq_refl).
Qed.

(** *** The gates run together *)

Lemma log_health_emit (r : Result) : log_health os r = emit os (log_line r).
Proof. destruct r as [[nm po] b]. now destruct b. Qed.

(** A coroutine that has not returned asks [is_pid_listen_port] once, then
    goes to sleep or returns what it was answered. *)
Lemma resume_runs f c w (Hc : c <> Returned) :
  let b := is_pid_listen_port os (trace w) (fut_pid f) (fut_port f) in
  let s := match c with Asleep s _ => s | _ => clock w end in
  let w' := mkWorld (trunc_processes_struct w) (_stop_event w)
              (clock w + Z.of_N (lag os (trace w)))
              (trace w ++ [EvListen (fut_pid f) (fut_port f) b]) in
  resume os f c w
  = (inr (if (clock w' - s <? timeout_ms) && negb b
          then (Asleep s (clock w' + poll_interval_ms), [])
          else (Returned, [(fut_name f, fut_port f, b)])), w').
Proof.
  destruct c; [| |contradiction];
    cbv beta iota zeta delta [resume bind get_clock check ask emit after_check ret];
    cbn [clock];
    match goal with |- context [if ?c then _ else _] => destruct c end; reflexivity.
Qed.

Lemma ready_tasks_spec now tasks (i : nat) :
  In i (ready_tasks now tasks) <->
  exists f c, tasks !! i = Some (f, c) /\ is_ready now c = true.
Proof.
  unfold ready_tasks. rewrite List.filter_In, in_seq. split.
  - intros [_ H]. destruct (tasks !! i) as [[f c]|]; [|discriminate]. eauto.
  - intros (f & c & Hi & Hr). rewrite Hi. split; [|exact Hr].
    apply lookup_lt_Some in Hi. lia.
Qed.

Lemma ready_jobs_spec now tasks done j :
  In j (ready_jobs now tasks done) ->
  match j with
  | RunTask i => exists f c, tasks !! i = Some (f, c) /\ is_ready now c = true
  | Report => done <> []
  end.
Proof.
  unfold ready_jobs. rewrite in_app_iff, in_map_iff.
  intros [(i & <- & Hi)|H].
  - now apply ready_tasks_spec.
  - destruct done; [destruct H|]. destruct H as [<-|[]]. discriminate.
Qed.

Lemma ready_jobs_task now tasks done (i : nat) f c :
  tasks !! i = Some (f, c) -> is_ready now c = true ->
  ready_jobs now tasks done <> [].
Proof.
  intros Hi Hr Hnil.
  assert (Hin : In (RunTask i) (ready_jobs now tasks done)).
  { unfold ready_jobs. apply in_or_app. left. apply in_map.
    apply ready_tasks_spec. eauto. }
  rewrite Hnil in Hin. destruct Hin.
Qed.

Lemma pick_ready {A} (l : list A) (n : nat) :
  l <> [] -> exists x, l !! (n mod length l)%nat = Some x /\ In x l.
Proof.
  intros Hne.
  assert (Hlt : (n mod length l < length l)%nat).
  { apply Nat.mod_upper_bound. destruct l; [contradiction|discriminate]. }
  apply lookup_lt_is_Some_2 in Hlt. destruct Hlt as [x Hx].
  exists x. split; [exact Hx|]. apply list_elem_of_In.
  eapply list_elem_of_lookup_2. exact Hx.
Qed.

Lemma earliest_in wakes m : earliest wakes = Some m -> In m wakes.
Proof.
  revert m. induction wakes as [|wake wakes IH]; intros m; [discriminate|].
  cbn [earliest]. intros [= <-].
  destruct (earliest wakes) as [m'|]; [|now left].
  destruct (Z.min_spec wake m') as [[_ ->]|[_ ->]]; [now left|right; now apply IH].
Qed.

Lemma timers_in tasks wake :
  In wake (timers tasks) ->
  exists (i : nat) f s, tasks !! i = Some (f, Asleep s wake).
Proof.
  unfold timers. rewrite in_flat_map. intros ([f c] & Hin & Hw).
  apply list_elem_of_In, list_elem_of_lookup_1 in Hin as [i Hi].
  exists i, f. destruct c as [|s wake'|]; cbn in Hw; [destruct Hw| |destruct Hw].
  destruct Hw as [<-|[]]. now exists s.
Qed.

Lemma timers_nil tasks (i : nat) f s wake :
  timers tasks = [] -> tasks !! i = Some (f, Asleep s wake) -> False.
Proof.
  intros Hnil Hi.
  assert (Hin : In wake (timers tasks)).
  { unfold timers. apply in_flat_map. exists (f, Asleep s wake).
    split; [|now left]. apply list_elem_of_In. eapply list_elem_of_lookup_2, Hi. }
  rewrite Hnil in Hin. destruct Hin.
Qed.

Lemma all_returned_spec tasks :
  all_returned tasks = true <->
  forall (i : nat) f c, tasks !! i = Some (f, c) -> c = Returned.
Proof.
  unfold all_returned. rewrite forallb_forall. split.
  - intros H i f c Hi.
    assert (Hin : In (f, c) tasks).
    { apply list_elem_of_In. eapply list_elem_of_lookup_2, Hi. }
    specialize (H _ Hin). cbn in H. now destruct c.
  - intros H [f c] Hin.
    apply list_elem_of_In, list_elem_of_lookup_1 in Hin as [i Hi].
    now rewrite (H i f c Hi).
Qed.

(** Before it runs a job the loop has waited for the first timer, if
    nothing was ready; then something is. *)
Lemma loop_waits tasks done w :
  all_returned tasks && match done with [] => true | _ :: _ => false end = false ->
  exists w0 e0,
    match ready_jobs (clock w) tasks done, earliest (timers tasks) with
    | [], Some wake => sleep os (wake - clock w)
    | _, _ => ret tt
    end w = (inr tt, w0)
    /\ trace w0 = trace w ++ e0
    /\ trunc_processes_struct w0 = trunc_processes_struct w
    /\ _stop_event w0 = _stop_event w
    /\ clock w <= clock w0
    /\ (e0 = [] \/ exists ms, e0 = [EvSleep ms])
    /\ ready_jobs (clock w0) tasks done <> [].
Proof.
  intros Hnot.
  destruct (ready_jobs (clock w) tasks done) as [|j jobs] eqn:Hj.
  - assert (Hidle : forall (i : nat) f c,
              tasks !! i = Some (f, c) -> is_ready (clock w) c = false).
    { intros i f c Hi. destruct (is_ready (clock w) c) eqn:Hr; [|reflexivity].
      now destruct (ready_jobs_task (clock w) tasks done i f c Hi Hr). }
    assert (Hdone : done = []).
    { destruct done; [reflexivity|]. unfold ready_jobs in Hj.
      apply app_eq_nil in Hj as [_ Hj]. discriminate. }
    destruct (earliest (timers tasks)) as [wake|] eqn:He.
    + apply earliest_in, timers_in in He as (i & f & s & Hi).
      pose proof (Hidle i f _ Hi) as Hr. cbn in Hr. apply Z.leb_gt in Hr.
      eexists _, [EvSleep (wake - clock w)]. unfold sleep.
      split; [reflexivity|]. cbn [trace trunc_processes_struct _stop_event clock].
      repeat split; try lia; [right; eauto|].
      apply (ready_jobs_task _ tasks done i f _ Hi). cbn. apply Z.leb_le. lia.
    + exfalso. subst done. rewrite andb_true_r in Hnot.
      assert (Hall : all_returned tasks = true); [|congruence].
      apply all_returned_spec. intros i f c Hi.
      pose proof (Hidle i f c Hi) as Hr.
      destruct c as [|s wake|]; [discriminate| |reflexivity].
      destruct (timers tasks) as [|t ts] eqn:Ht; [|discriminate].
      now destruct (timers_nil tasks i f s wake Ht Hi).
  - exists w, []. unfold ret. rewrite app_nil_r.
    repeat split; try lia; [now left|]. rewrite Hj. discriminate.
Qed.

(** One iteration of the event loop runs a coroutine that is ready, or
    logs the first of the results that wait. *)
Lemma run_once_runs tasks done w :
  all_returned tasks && match done with [] => true | _ :: _ => false end = false ->
  exists w0 e0,
    trace w0 = trace w ++ e0
    /\ trunc_processes_struct w0 = trunc_processes_struct w
    /\ _stop_event w0 = _stop_event w
    /\ clock w <= clock w0
    /\ (e0 = [] \/ exists ms, e0 = [EvSleep ms])
    /\ ((exists (i : nat) f c,
           tasks !! i = Some (f, c) /\ is_ready (clock w0) c = true
           /\ run_once os tasks done w
              = bind (resume os f c)
                  (fun r => ret (<[i := (f, fst r)]> tasks, done ++ snd r)) w0)
        \/ (exists r done',
              done = r :: done'
              /\ run_once os tasks done w
                 = (inr (tasks, done'), snd (emit os (log_line r) w0)))).
Proof.
  intros Hnot.
  destruct (loop_waits tasks done w Hnot)
    as (w0 & e0 & Hpre & Ht & Hs & He & Hc & Hev & Hne).
  exists w0, e0. repeat (split; [assumption|]).
  assert (Heq : run_once os tasks done w
                = match ready_jobs (clock w0) tasks done
                        !! (next_ready os (trace w0)
                              mod length (ready_jobs (clock w0) tasks done))%nat with
                  | Some (RunTask i) =>
                      match tasks !! i with
                      | Some (f, c) =>
                          bind (resume os f c)
                            (fun r => ret (<[i := (f, fst r)]> tasks, done ++ snd r))
                      | None => raise (OtherException "wait_apis_start: no such task")
                      end
                  | Some Report =>
                      match done with
                      | r :: done' => do! log_health os r in ret (tasks, done')
                      | [] => raise (OtherException "wait_apis_start: no result to report")
                      end
                  | None => raise (OtherException "wait_apis_start: nothing to run")
                  end w0).
  { unfold run_once, bind at 1. unfold get_clock at 1. cbn [fst snd].
    unfold bind at 1. rewrite Hpre.
    unfold bind at 1. unfold get_clock at 1. cbn [fst snd].
    unfold bind at 1. unfold next_job at 1. cbn [fst snd]. reflexivity. }
  rewrite Heq. clear Heq.
  destruct (pick_ready (ready_jobs (clock w0) tasks done)
              (next_ready os (trace w0)) Hne) as (j & -> & Hin).
  apply ready_jobs_spec in Hin. destruct j as [i|].
  - destruct Hin as (f & c & Hi & Hr). left. exists i, f, c.
    rewrite Hi. now repeat split.
  - destruct done as [|r done']; [contradiction|]. right. exists r, done'.
    split; [reflexivity|]. rewrite log_health_emit. reflexivity.
Qed.

Lemma list_sum_insert {A} (g : A -> nat) (l : list A) (i : nat) x y :
  l !! i = Some x ->
  (list_sum (List.map g (<[i:=y]> l)) + g x = list_sum (List.map g l) + g y)%nat.
Proof.
  revert i. induction l as [|a l IH]; intros [|i] Hi; try discriminate; cbn in Hi.
  - injection Hi as ->.
    change (g y + list_sum (List.map g l) + g x
            = g x + list_sum (List.map g l) + g y)%nat. lia.
  - specialize (IH i Hi).
    change (g a + list_sum (List.map g (<[i:=y]> l)) + g x
            = g a + list_sum (List.map g l) + g y)%nat. lia.
Qed.

(** A check uses up one of the checks that are left, and an iteration of
    the loop one of the iterations. *)
Lemma step_cost c (now0 now1 : Z) (b : bool) (res : Result) :
  is_ready now0 c = true -> now0 <= now1 ->
  let s := match c with Asleep s _ => s | _ => now0 end in
  let r := if (now1 - s <? timeout_ms) && negb b
           then (Asleep s (now1 + poll_interval_ms), @nil Result)
           else (Returned, [res]) in
  (checks_left (fst r) + 1 <= checks_left c)%nat
  /\ (task_cost (fst r) + length (snd r) + 1 <= task_cost c)%nat.
Proof.
  intros Hr Hle. cbv zeta.
  destruct c as [|s wake|]; [| |discriminate]; cbn [is_ready] in Hr.
  - destruct (Z.ltb_spec (now1 - now0) timeout_ms) as [Hlt|Hge]; [destruct b|];
      cbn [andb negb fst snd task_cost checks_left length];
      unfold timeout_ms, poll_interval_ms, max_rounds in *; try lia.
    Z.div_mod_to_equations. lia.
  - apply Z.leb_le in Hr.
    destruct (Z.ltb_spec (now1 - s) timeout_ms) as [Hlt|Hge]; [destruct b|];
      cbn [andb negb fst snd task_cost checks_left length];
      unfold timeout_ms, poll_interval_ms, max_rounds in *;
      Z.div_mod_to_equations; lia.
Qed.

Lemma loop_cost_zero tasks done :
  loop_cost tasks done = 0%nat ->
  all_returned tasks && match done with [] => true | _ :: _ => false end = true.
Proof.
  unfold loop_cost. intros H.
  assert (Hd : done = []) by (destruct done; [reflexivity|cbn [length] in H; lia]).
  subst done. rewrite andb_true_r. cbn [length] in H. rewrite Nat.add_0_r in H.
  induction tasks as [|[f c] tasks IH]; [reflexivity|].
  change (task_cost c + list_sum (List.map (fun t => task_cost (snd t)) tasks)
          = 0)%nat in H.
  cbn [all_returned forallb snd].
  destruct c; cbn [task_cost] in H; try lia. apply IH. lia.
Qed.

(** The check a coroutine is logged for, found in a run that starts
    later, is found in the run that starts now. *)
Lemma earlier_check (tr pre evs : list event) (f : Future) :
  (exists b e1 e2,
     evs = e1 ++ EvListen (fut_pid f) (fut_port f) b :: e2
     /\ b = is_pid_listen_port os ((tr ++ pre) ++ e1) (fut_pid f) (fut_port f)
     /\ In (log_line (fut_name f, fut_port f, b)) e2) ->
  exists b e1 e2,
    pre ++ evs = e1 ++ EvListen (fut_pid f) (fut_port f) b :: e2
    /\ b = is_pid_listen_port os (tr ++ e1) (fut_pid f) (fut_port f)
    /\ In (log_line (fut_name f, fut_port f, b)) e2.
Proof.
  intros (b & e1 & e2 & -> & Hb & Hin). exists b, (pre ++ e1), e2.
  split; [now rewrite <- app_assoc|]. split; [|exact Hin].
  now rewrite app_assoc.
Qed.

Lemma log_line_harmless (r : Result) :
  acts_on_process (log_line r) = false /\ is_listen (log_line r) = false.
Proof. destruct r as [[nm po] b]. now destruct b. Qed.

Lemma log_line_error (r : Result) nm po :
  log_line r = EvLog LogError (MsgCantStart nm po) -> r = (nm, po, false).
Proof.
  destruct r as [[nm' po'] b]. destruct b; cbn; [discriminate|].
  now intros [= -> ->].
Qed.

(** The event loop returns, whatever it is answered and whichever jobs it
    picks.  It raises nothing and touches neither the descriptors nor the
    stop event; every check is one that was left to a coroutine; every
    result that waits is logged; every coroutine that has not returned is
    logged with an answer [is_pid_listen_port] gave to one of its checks;
    and a line that reports a failure, unless it is of a result that
    waited, comes [timeout_ms] at least after the coroutines began. *)
Lemma run_until_complete_runs (c0 : Z) : forall fuel tasks done w,
  (loop_cost tasks done <= fuel)%nat ->
  c0 <= clock w ->
  (forall (i : nat) f s wake, tasks !! i = Some (f, Asleep s wake) -> c0 <= s) ->
  exists w' evs,
    run_until_complete os fuel tasks done w = (inr tt, w')
    /\ trace w' = trace w ++ evs
    /\ trunc_processes_struct w' = trunc_processes_struct w
    /\ _stop_event w' = _stop_event w
    /\ clock w <= clock w'
    /\ Forall (fun ev => acts_on_process ev = false) evs
    /\ (length (List.filter is_listen evs)
        <= list_sum (List.map (fun t => checks_left (snd t)) tasks))%nat
    /\ (forall r, In r done -> In (log_line r) evs)
    /\ (forall (i : nat) f c, tasks !! i = Some (f, c) -> c <> Returned ->
          exists b e1 e2,
            evs = e1 ++ EvListen (fut_pid f) (fut_port f) b :: e2
            /\ b = is_pid_listen_port os (trace w ++ e1) (fut_pid f) (fut_port f)
            /\ In (log_line (fut_name f, fut_port f, b)) e2)
    /\ (forall nm po, In (EvLog LogError (MsgCantStart nm po)) evs ->
          In (nm, po, false) done \/ c0 + timeout_ms <= clock w').
Proof.
  induction fuel as [|fuel IH]; intros tasks done w Hfuel Hc0 Hstart;
    cbn [run_until_complete];
    destruct (all_returned tasks
              && match done with [] => true | _ :: _ => false end) eqn:Hfin.
  1, 3: apply andb_true_iff in Hfin as [Hall Hdone];
    (destruct done; [|discriminate]);
    exists w, []; unfold ret; rewrite app_nil_r;
    (split; [reflexivity|]); (split; [reflexivity|]); (split; [reflexivity|]);
    (split; [reflexivity|]); (split; [lia|]); (split; [constructor|]);
    (split; [cbn; lia|]); (split; [intros r []|]);
    (split; [|intros nm po []]);
    intros i f c Hi Hc; rewrite all_returned_spec in Hall;
    now specialize (Hall i f c Hi).
  - assert (H0 : loop_cost tasks done = 0%nat) by lia.
    apply loop_cost_zero in H0. congruence.
  - destruct (run_once_runs tasks done w Hfin)
      as (w0 & e0 & T0 & S0 & E0 & C0 & Hev & Hjob).
    assert (F0 : Forall (fun ev => acts_on_process ev = false) e0
                 /\ List.filter is_listen e0 = []
                 /\ forall nm po, ~ In (EvLog LogError (MsgCantStart nm po)) e0).
    { destruct Hev as [->|(ms & ->)]; repeat split; try constructor; auto;
        intros nm po [[=]|[]]. }
    destruct F0 as (F0 & L0 & X0).
    destruct Hjob as [(i & f & c & Hi & Hr & Hrun)|(r0 & done' & -> & Hrun)].
    + (* a coroutine runs *)
      assert (Hc : c <> Returned) by (intros ->; discriminate).
      pose proof (resume_runs f c w0 Hc) as Hres. cbv zeta in Hres.
      set (b := is_pid_listen_port os (trace w0) (fut_pid f) (fut_port f)) in *.
      set (s := match c with Asleep s _ => s | _ => clock w0 end) in *.
      set (w1 := mkWorld (trunc_processes_struct w0) (_stop_event w0)
                   (clock w0 + Z.of_N (lag os (trace w0)))
                   (trace w0 ++ [EvListen (fut_pid f) (fut_port f) b])) in *.
      assert (C1 : clock w0 <= clock w1) by (subst w1; cbn [clock]; lia).
      set (r := if (clock w1 - s <? timeout_ms) && negb b
                then (Asleep s (clock w1 + poll_interval_ms), @nil Result)
                else (Returned, [(fut_name f, fut_port f, b)])) in *.
      assert (Hstep : (checks_left (fst r) + 1 <= checks_left c)%nat
                      /\ (task_cost (fst r) + length (snd r) + 1 <= task_cost c)%nat)
        by exact (step_cost c (clock w0) (clock w1) b (fut_name f, fut_port f, b) Hr C1).
      destruct Hstep as [Hcl Hcost].
      assert (Hs : c0 <= s).
      { subst s. destruct c as [|s' wake|]; try lia. eapply Hstart, Hi. }
      assert (Hnext : (fst r <> Returned /\ snd r = []
                       /\ exists wake, fst r = Asleep s wake)
                      \/ (fst r = Returned
                          /\ snd r = [(fut_name f, fut_port f, b)]
                          /\ (b = false -> c0 + timeout_ms <= clock w1))).
      { subst r. destruct ((clock w1 - s <? timeout_ms) && negb b) eqn:Hcond.
        - left. repeat split; [discriminate|eauto].
        - right. repeat split. intros Hb. rewrite Hb, andb_true_r in Hcond.
          apply Z.ltb_ge in Hcond. lia. }
      assert (Hone : run_once os tasks done w
                     = (inr (<[i := (f, fst r)]> tasks, done ++ snd r), w1)).
      { rewrite Hrun. unfold bind. rewrite Hres. reflexivity. }
      unfold bind at 1. rewrite Hone. cbn [fst snd].
      destruct (IH (<[i := (f, fst r)]> tasks) (done ++ snd r) w1)
        as (w' & evs & -> & T2 & S2 & E2 & C2 & F2 & N2 & D2 & P2 & X2).
      { pose proof (list_sum_insert (fun t => task_cost (snd t)) tasks i
                      (f, c) (f, fst r) Hi) as Hsum. cbn [snd] in Hsum.
        clear - Hsum Hcost Hfuel. unfold loop_cost in *. rewrite length_app.
        lia. }
      { lia. }
      { intros j f' s' wake Hj. destruct (decide (j = i)) as [->|Hne].
        - rewrite list_lookup_insert_eq in Hj by (eapply lookup_lt_Some, Hi).
          injection Hj as <- Hj.
          destruct Hnext as [(_ & _ & wake' & Hw)|(Hret & _)]; congruence.
        - rewrite list_lookup_insert_ne in Hj by congruence. eapply Hstart, Hj. }
      assert (T1 : trace w1 = (trace w ++ e0) ++ [EvListen (fut_pid f) (fut_port f) b])
        by (subst w1; cbn [trace]; now rewrite T0).
      exists w', (e0 ++ EvListen (fut_pid f) (fut_port f) b :: evs).
      split; [reflexivity|].
      split; [rewrite T2, T1, <- !app_assoc; reflexivity|].
      split; [rewrite S2; exact S0|]. split; [rewrite E2; exact E0|].
      split; [lia|].
      split; [apply Forall_app; split; [exact F0|constructor; [reflexivity|exact F2]]|].
      split.
      { rewrite List.filter_app, L0. cbn [List.filter is_listen app length].
        pose proof (list_sum_insert (fun t => checks_left (snd t)) tasks i
                      (f, c) (f, fst r) Hi) as Hsum. cbn [snd] in Hsum. lia. }
      split.
      { intros r' Hin. apply in_or_app. right. right. apply D2.
        apply in_or_app. now left. }
      split.
      { intros j f' c' Hj Hc'.
        assert (Hshift :
          (exists b' e1 e2,
             evs = e1 ++ EvListen (fut_pid f') (fut_port f') b' :: e2
             /\ b' = is_pid_listen_port os (trace w1 ++ e1) (fut_pid f') (fut_port f')
             /\ In (log_line (fut_name f', fut_port f', b')) e2) ->
          exists b' e1 e2,
            e0 ++ EvListen (fut_pid f) (fut_port f) b :: evs
            = e1 ++ EvListen (fut_pid f') (fut_port f') b' :: e2
            /\ b' = is_pid_listen_port os (trace w ++ e1) (fut_pid f') (fut_port f')
            /\ In (log_line (fut_name f', fut_port f', b')) e2).
        { intros H.
          destruct (earlier_check (trace w)
                      (e0 ++ [EvListen (fut_pid f) (fut_port f) b]) evs f')
            as (b' & e1 & e2 & Heq & Hb' & Hin).
          - rewrite app_assoc, <- T1. exact H.
          - exists b', e1, e2. rewrite <- Heq, <- app_assoc. now repeat split. }
        destruct (decide (j = i)) as [->|Hne].
        - rewrite Hi in Hj. injection Hj as <- <-.
          destruct Hnext as [(Hnr & _ & _)|(Hret & Hsnd & _)].
          + apply Hshift. apply (P2 i f (fst r)); [|exact Hnr].
            apply list_lookup_insert_eq. eapply lookup_lt_Some, Hi.
          + exists b, e0, evs. split; [reflexivity|].
            split; [subst b; now rewrite T0|].
            apply D2. apply in_or_app. right. rewrite Hsnd. now left.
        - apply Hshift. apply (P2 j f' c'); [|exact Hc'].
          rewrite list_lookup_insert_ne by congruence. exact Hj. }
      { intros nm po Hin. apply in_app_or in Hin as [Hin|[[=]|Hin]];
          [now destruct (X0 nm po)|].
        destruct (X2 nm po Hin) as [Hd|Ht]; [|now right].
        apply in_app_or in Hd as [Hd|Hd]; [now left|]. right.
        destruct Hnext as [(_ & Hsnd & _)|(_ & Hsnd & Hlate)].
        - rewrite Hsnd in Hd. destruct Hd.
        - rewrite Hsnd in Hd. destruct Hd as [[= _ _ Hb]|[]].
          specialize (Hlate Hb). lia. }
    + (* the [for] loop logs a result *)
      unfold bind at 1. rewrite Hrun. cbn [fst snd].
      set (w1 := snd (emit os (log_line r0) w0)).
      assert (T1 : trace w1 = (trace w ++ e0) ++ [log_line r0])
        by (subst w1; cbn [snd emit trace]; now rewrite T0).
      assert (C1 : clock w0 <= clock w1) by (subst w1; cbn; lia).
      destruct (log_line_harmless r0) as [Hq Hl].
      destruct (IH tasks done' w1)
        as (w' & evs & -> & T2 & S2 & E2 & C2 & F2 & N2 & D2 & P2 & X2).
      { unfold loop_cost in *. cbn [length] in Hfuel. lia. }
      { lia. }
      { exact Hstart. }
      exists w', (e0 ++ log_line r0 :: evs).
      split; [reflexivity|].
      split; [rewrite T2, T1, <- !app_assoc; reflexivity|].
      split; [rewrite S2; exact S0|]. split; [rewrite E2; exact E0|].
      split; [lia|].
      split; [apply Forall_app; split; [exact F0|constructor; [exact Hq|exact F2]]|].
      split.
      { rewrite List.filter_app, L0. cbn [List.filter app]. rewrite Hl. exact N2. }
      split.
      { intros r' [<-|Hin]; apply in_or_app; right; [now left|].
        right. now apply D2. }
      split.
      { intros j f' c' Hj Hc'.
        destruct (earlier_check (trace w) (e0 ++ [log_line r0]) evs f')
          as (b' & e1 & e2 & Heq & Hb' & Hin).
        - rewrite app_assoc, <- T1. exact (P2 j f' c' Hj Hc').
        - exists b', e1, e2. rewrite <- Heq, <- app_assoc. now repeat split. }
      { intros nm po Hin. apply in_app_or in Hin as [Hin|[Heq|Hin]];
          [now destruct (X0 nm po)| |].
        - left. left. now apply log_line_error.
        - destruct (X2 nm po Hin) as [Hd|Ht]; [left; now right|now right]. }
Qed.

Lemma collect_futures (ks : list TrunkProcessEnum) w :
  (forall k, In k ks -> process (trunc_processes_struct w k) <> None) ->
  collect ks future_of w = (inr (List.map (future_at w) ks), w).
Proof.
  induction ks as [|k ks IH]; intros Hall; [reflexivity|].
  assert (Hk : future_of k w = (inr (future_at w k), w)).
  { unfold future_of, future_at, bind, get_data, ret. cbn [fst snd].
    destruct (process (trunc_processes_struct w k)) as [p|] eqn:Hp; [reflexivity|].
    destruct (Hall k); [now left|exact Hp]. }
  cbn [collect]. unfold bind at 1. rewrite Hk.
  unfold bind at 1. rewrite IH by (intros; apply Hall; now right).
  reflexivity.
Qed.

Lemma collect_futures_raises (ks : list TrunkProcessEnum) w :
  (exists k, In k ks /\ process (trunc_processes_struct w k) = None) ->
  collect ks future_of w = (inl AttributeError, w).
Proof.
  induction ks as [|k ks IH]; intros (k' & Hin & Hk'); [destruct Hin|].
  cbn [collect]. unfold bind at 1.
  destruct (process (trunc_processes_struct w k)) as [p|] eqn:Hp.
  - assert (Hk : future_of k w = (inr (future_at w k), w)).
    { unfold future_of, future_at, bind, get_data, ret. cbn [fst snd].
      now rewrite Hp. }
    rewrite Hk. unfold bind at 1. rewrite IH; [reflexivity|].
    destruct Hin as [->|Hin]; [congruence|eauto].
  - assert (Hk : future_of k w = (inl AttributeError, w)).
    { unfold future_of, bind, get_data, raise. cbn [fst snd]. now rewrite Hp. }
    now rewrite Hk.
Qed.

Lemma pending_cost (fs : list Future) :
  loop_cost (List.map (fun f => (f, Pending)) fs) [] = loop_fuel (length fs)
  /\ list_sum (List.map (fun t => checks_left (snd t))
                 (List.map (fun f => (f, Pending)) fs))
     = (S max_rounds * length fs)%nat.
Proof.
  unfold loop_cost, loop_fuel. induction fs as [|f fs [IH1 IH2]]; [split; reflexivity|].
  cbn [List.map length] in *.
  change (list_sum (?a :: ?l)) with (a + list_sum l)%nat.
  cbn [snd task_cost checks_left]. split; lia.
Qed.

Lemma pending_lookup (fs : list Future) (i : nat) f c :
  List.map (fun f => (f, Pending)) fs !! i = Some (f, c) -> c = Pending.
Proof.
  revert i. induction fs as [|f' fs IH]; intros [|i] Hi; try discriminate; cbn in Hi.
  - now injection Hi as _ <-.
  - eapply IH, Hi.
Qed.

(** C9.  A gate alone ([wait_api_start]) asks [is_pid_listen_port] at once,
    then after every sleep of half a second, for at most 120 rounds, that
    is 60 seconds of polling; it goes on only while the answer is false,
    and it answers false only when the 60 seconds have passed.  The gates
    of [wait_apis_start], run together on the event loop in whichever order
    the loop picks them: when every port-bearing descriptor has a process
    handle, [wait_apis_start] returns and raises nothing; it signals,
    terminates and joins no process and leaves the descriptors, with their
    handles and restart policies, and the stop event as they were; it makes
    at most 121 checks for every port-bearing descriptor; for every such
    descriptor it logs the line of an answer that [is_pid_listen_port] gave
    to one of its checks (an error for the answer false, an info line for
    true), and the descriptor is among those [gather_apis] starts a
    [join_process] task for; and an error line is logged only when 60
    seconds have passed.  When a port-bearing descriptor has no handle,
    [AttributeError] is raised before any check is made. *)
Theorem health_gate_not_fatal w :
  (forall (api_name : string) of_pid on_port,
     exists answers w1,
       let first := is_pid_listen_port os (trace w) of_pid on_port in
       wait_api_start os api_name of_pid on_port w
       = (inr (api_name, on_port, List.last answers first), w1)
       /\ trace w1 = trace w ++ EvListen of_pid on_port first
                        :: flat_map (fun r => [EvSleep 500; EvListen of_pid on_port r])
                             answers
       /\ polled os (trace w ++ [EvListen of_pid on_port first]) of_pid on_port answers
       /\ Forall (fun a => a = false) (removelast (first :: answers))
       /\ Z.of_nat (length answers) * 500 <= 60000
       /\ (List.last answers first = false -> 60000 <= clock w1 - clock w))
  /\ ((forall k, In k (port_bearing w) ->
         process (trunc_processes_struct w k) <> None) ->
      exists w' evs,
        wait_apis_start os w = (inr tt, w')
        /\ trace w' = trace w ++ evs
        /\ trunc_processes_struct w' = trunc_processes_struct w
        /\ _stop_event w' = _stop_event w
        /\ Forall (fun ev => acts_on_process ev = false) evs
        /\ (length (List.filter is_listen evs)
            <= 121 * length (port_bearing w))%nat
        /\ (forall k, In k (port_bearing w) ->
              In k (monitored w')
              /\ exists started e1 e2,
                   evs = e1 ++ EvListen (fut_pid (future_at w k))
                                 (fut_port (future_at w k)) started :: e2
                   /\ started = is_pid_listen_port os (trace w ++ e1)
                                  (fut_pid (future_at w k)) (fut_port (future_at w k))
                   /\ In (log_line (fut_name (future_at w k),
                                    fut_port (future_at w k), started)) e2)
        /\ (forall nm po, In (EvLog LogError (MsgCantStart nm po)) evs ->
              60000 <= clock w' - clock w))
  /\ ((exists k, In k (port_bearing w)
                 /\ process (trunc_processes_struct w k) = None) ->
      wait_apis_start os w = (inl AttributeError, w)).
Proof.
  split; [|split].
  - intros api_name of_pid on_port.
    destruct (wait_api_start_polled api_name of_pid on_port w)
      as (answers & w1 & Hrun & Ht & Hp & Hl & Hc & _ & Hf).
    exists answers, w1. cbv zeta in *.
    split; [exact Hrun|]. split; [exact Ht|]. split; [exact Hp|].
    split; [exact Hf|].
    split; [unfold max_rounds in *; lia|exact Hc].
  - intros Hall. unfold wait_apis_start, bind.
    rewrite (collect_futures _ w Hall).
    set (fs := List.map (future_at w) (port_bearing w)).
    destruct (pending_cost fs) as [Hcost Hsum].
    destruct (run_until_complete_runs (clock w) (loop_fuel (length fs))
                (List.map (fun f => (f, Pending)) fs) [] w)
      as (w' & evs & Hrun & Ht & Hs & He & Hc & Hq & Hn & _ & Hp & Hx).
    { rewrite Hcost. lia. }
    { lia. }
    { intros i f s wake Hi. apply pending_lookup in Hi. discriminate. }
    exists w', evs.
    split; [exact Hrun|]. split; [exact Ht|]. split; [exact Hs|].
    split; [exact He|]. split; [exact Hq|].
    split; [rewrite Hsum in Hn; subst fs; rewrite length_map in Hn;
            unfold max_rounds in Hn; exact Hn|].
    split.
    + intros k Hk. split.
      * apply monitored_iff. rewrite Hs. now apply port_bearing_needed.
      * assert (Hin : In (future_at w k, Pending)
                        (List.map (fun f => (f, Pending)) fs)).
        { apply (in_map (fun f => (f, Pending)) fs (future_at w k)).
          subst fs. now apply in_map. }
        apply list_elem_of_In, list_elem_of_lookup_1 in Hin as [i Hi].
        apply (Hp i (future_at w k) Pending Hi). discriminate.
    + intros nm po Hin. destruct (Hx nm po Hin) as [[]|Hlate].
      unfold timeout_ms in Hlate. lia.
  - intros Hnone. unfold wait_apis_start, bind.
    now rewrite (collect_futures_raises _ w Hnone).
Qed.

End HealthGate.

Lemma health_gate_not_fatal_witness :
  exists w' evs,
    wait_apis_start os_deaf world0 = (inr tt, w')
    /\ trace w' = evs
    /\ In (EvListen (Some 100) (Some 47334) false) evs
    /\ In (EvLog LogError (MsgCantStart "http" (Some 47334))) evs
    /\ 60000 <= clock w' - clock world0
    /\ trunc_processes_struct w' = trunc_processes_struct world0
    /\ In HTTP (monitored w').
Proof.
  assert (Hall : forall k, In k (port_bearing world0) ->
                   process (trunc_processes_struct world0 k) <> None).
  { intros k Hk. vm_compute in Hk. destruct Hk as [<-|[]]. discriminate. }
  destruct (proj1 (proj2 (health_gate_not_fatal os_deaf world0)) Hall)
    as (w' & evs & Hrun & Ht & Hs & _ & _ & _ & Hper & Hlate).
  destruct (Hper HTTP) as (Hmon & started & e1 & e2 & Hevs & Hstarted & Hlog).
  { vm_compute. now left. }
  cbn in Hstarted. subst started.
  assert (Herr : In (EvLog LogError (MsgCantStart "http" (Some 47334))) evs).
  { rewrite Hevs. apply in_or_app. right. right. exact Hlog. }
  exists w', evs. split; [exact Hrun|]. split; [exact Ht|].
  split; [rewrite Hevs; apply in_or_app; right; now left|].
  split; [exact Herr|]. split; [exact (Hlate _ _ Herr)|].
  split; [exact Hs|exact Hmon].
Defined.

(** ** Watch loop *)

(** C6 is broken by the code.  The operator's interrupt arrives while the
    watch task of the HTTP API waits for its process.  [close_api_gracefully]
    runs at once and terminates and joins the process; the [finally] block
    then goes through the restart logic all the same.  On win32, where
    [should_restart] does not look at the exit code, and on linux when the
    exit code seen at the join is that of a SIGKILL, the attempt is
    admitted and the API is started again, as process 101, after the
    interrupt; the round ends with [finish] false, so the loop goes on. *)
Theorem interrupt_then_restart :
  (let r := join_process_round win32_local os_psutil HTTP world0 in
   fst r = inr false
   /\ trace (snd r)
      = [EvWait 100 (inl KeyboardInterrupt);
         EvLog LogInfo MsgKeyboardInterrupt;
         EvGetChildPids (Some 100) (inr []); EvFlush;
         EvTerminate 100; EvJoin 100 (inr (- SIGTERM)); EvFlush;
         EvLog LogWarning (MsgRestarting "http");
         EvLog LogInfo (MsgStarting "http");
         EvStart "http" start_http (Some [false; true]) (inr 101);
         EvListen (Some 101) (Some 47334) true;
         EvLog LogInfo (MsgStarted "http" (Some 47334))]
   /\ process (trunc_processes_struct (snd r) HTTP) = Some (mkProcess (Some 101) None))
  /\ (let r := join_process_round linux_local os_oom HTTP world0 in
      fst r = inr false
      /\ trace (snd r)
         = [EvWait 100 (inl KeyboardInterrupt);
            EvLog LogInfo MsgKeyboardInterrupt;
            EvGetChildPids (Some 100) (inr []); EvFlush;
            EvTerminate 100; EvJoin 100 (inr (- SIGKILL)); EvFlush;
            EvLog LogWarning (MsgRestarting "http");
            EvLog LogInfo (MsgStarting "http");
            EvStart "http" start_http (Some [false; true]) (inr 101);
            EvListen (Some 101) (Some 47334) true;
            EvLog LogInfo (MsgStarted "http" (Some 47334))]).
Proof. repeat split. Qed.

(** * Further properties of the code *)

(** ** Reconciliation at boot and in the background *)

Section BootReconciliation.

Implicit Types (r : Predictor) (pids : list Z) (rows : list Predictor) (s : Session).

Lemma reconcile_all_fst pids rows :
  fst (reconcile_all pids rows) = List.map (fun r => fst (reconcile pids r)) rows.
Proof.
  induction rows as [|r rows IH]; [reflexivity|]. cbn [reconcile_all List.map].
  destruct (reconcile pids r) as [r' c] eqn:Er.
  destruct (reconcile_all pids rows) as [rs cs]. cbn [fst] in *. now rewrite IH.
Qed.

Lemma reconcile_all_snd pids rows :
  snd (reconcile_all pids rows)
  = length (List.filter (fun r => unfinished r && py_in (predictor_process_id r) pids) rows).
Proof.
  induction rows as [|r rows IH]; [reflexivity|]. cbn [reconcile_all List.filter].
  unfold reconcile at 1.
  destruct (unfinished r && py_in (predictor_process_id r) pids);
    destruct (reconcile_all pids rows) as [rs cs]; cbn [snd length] in *; lia.
Qed.

Lemma mark_unfinished_all_fst rows :
  fst (mark_unfinished_all rows) = List.map (fun r => fst (mark_unfinished r)) rows.
Proof.
  induction rows as [|r rows IH]; [reflexivity|]. cbn [mark_unfinished_all List.map].
  destruct (mark_unfinished r) as [r' c] eqn:Er.
  destruct (mark_unfinished_all rows) as [rs cs]. cbn [fst] in *. now rewrite IH.
Qed.

Lemma mark_unfinished_all_snd rows :
  snd (mark_unfinished_all rows) = length (List.filter unfinished rows).
Proof.
  induction rows as [|r rows IH]; [reflexivity|]. cbn [mark_unfinished_all List.filter].
  unfold mark_unfinished at 1.
  destruct (unfinished r);
    destruct (mark_unfinished_all rows) as [rs cs]; cbn [snd length] in *; lia.
Qed.

Lemma swept_for_unfinished s :
  set_error_model_status_for_unfinished s
  = mkSession (fst (mark_unfinished_all (predictors s)))
      (commits s + snd (mark_unfinished_all (predictors s))).
Proof.
  unfold set_error_model_status_for_unfinished.
  now destruct (mark_unfinished_all (predictors s)).
Qed.

Lemma swept_by_pids pids s :
  set_error_model_status_by_pids pids s
  = mkSession (fst (reconcile_all pids (predictors s)))
      (commits s + snd (reconcile_all pids (predictors s))).
Proof.
  unfold set_error_model_status_by_pids.
  now destruct (reconcile_all pids (predictors s)).
Qed.

Lemma mark_unfinished_done r : unfinished (fst (mark_unfinished r)) = false.
Proof.
  unfold mark_unfinished. destruct (unfinished r) eqn:E; cbn [fst]; [|exact E].
  apply set_error_unfinished.
Qed.

Lemma filter_none {A} (f : A -> bool) (l : list A) :
  Forall (fun x => f x = false) l -> List.filter f l = [].
Proof.
  induction 1 as [|x l Hx _ IH]; [reflexivity|]. cbn. now rewrite Hx.
Qed.

Lemma map_id_on {A} (f : A -> A) (l : list A) :
  Forall (fun x => f x = x) l -> List.map f l = l.
Proof.
  induction 1 as [|x l Hx _ IH]; [reflexivity|]. cbn. now rewrite Hx, IH.
Qed.

(** X1.  [set_error_model_status_for_unfinished] leaves no row unfinished:
    every row that is not soft-deleted and not terminal becomes an error
    row, every other row is left as it is; it commits once per row it
    changes, and a second run changes and commits nothing. *)
Theorem unfinished_all_marked s :
  let s' := set_error_model_status_for_unfinished s in
  predictors s'
  = List.map (fun r => if unfinished r then set_error unknown_message r else r)
      (predictors s)
  /\ Forall (fun r => unfinished r = false) (predictors s')
  /\ commits s' = (commits s + length (List.filter unfinished (predictors s)))%nat
  /\ set_error_model_status_for_unfinished s' = s'.
Proof.
  cbv zeta. rewrite swept_for_unfinished. cbn [predictors commits].
  rewrite mark_unfinished_all_fst, mark_unfinished_all_snd.
  assert (Hdone : Forall (fun r => unfinished r = false)
                    (List.map (fun r => fst (mark_unfinished r)) (predictors s))).
  { apply Forall_forall. intros r' Hr'. apply list_elem_of_In, in_map_iff in Hr'.
    destruct Hr' as (r & <- & _). apply mark_unfinished_done. }
  split; [|split; [exact Hdone|split; [reflexivity|]]].
  - apply List.map_ext. intros r. unfold mark_unfinished. now destruct (unfinished r).
  - rewrite swept_for_unfinished. cbn [predictors commits].
    rewrite mark_unfinished_all_fst, mark_unfinished_all_snd.
    rewrite (filter_none _ _ Hdone). cbn [length]. rewrite Nat.add_0_r.
    f_equal. apply map_id_on.
    eapply Forall_impl; [exact Hdone|]. intros r Hr. unfold mark_unfinished.
    now rewrite Hr.
Qed.

Lemma py_in_nil v : py_in v [] = false.
Proof. now destruct v. Qed.

(** What the two sweeps of the boot do to one row, and how often they
    commit it. *)
Lemma boot_row pids r :
  fst (mark_unfinished (fst (reconcile pids r)))
  = (if unfinished r
     then set_error (if py_in (predictor_process_id r) pids
                     then terminated_message else unknown_message) r
     else r)
  /\ (snd (reconcile pids r) + snd (mark_unfinished (fst (reconcile pids r))))%nat
     = (if unfinished r then 1 else 0)%nat.
Proof.
  unfold reconcile. destruct (unfinished r) eqn:Eu; cbn [andb].
  - destruct (py_in (predictor_process_id r) pids); cbn [fst snd].
    + unfold mark_unfinished. rewrite set_error_unfinished. now split.
    + unfold mark_unfinished. rewrite Eu. now split.
  - cbn [fst snd]. unfold mark_unfinished. rewrite Eu. now split.
Qed.

Lemma length_filter_cons {A} (f : A -> bool) (x : A) (l : list A) :
  length (List.filter f (x :: l))
  = ((if f x then 1 else 0) + length (List.filter f l))%nat.
Proof. cbn. now destruct (f x). Qed.

Lemma boot_rows pids rows :
  List.map (fun r => fst (mark_unfinished r))
    (List.map (fun r => fst (reconcile pids r)) rows)
  = List.map (fun r => if unfinished r
                       then set_error (if py_in (predictor_process_id r) pids
                                       then terminated_message else unknown_message) r
                       else r) rows
  /\ (length (List.filter (fun r => unfinished r && py_in (predictor_process_id r) pids) rows)
      + length (List.filter unfinished
                  (List.map (fun r => fst (reconcile pids r)) rows)))%nat
     = length (List.filter unfinished rows).
Proof.
  induction rows as [|r rows [IH1 IH2]]; [now split|].
  destruct (boot_row pids r) as [H1 _]. split.
  - cbn [List.map]. now rewrite H1, IH1.
  - cbn [List.map]. rewrite !length_filter_cons.
    assert (Hr : ((if unfinished r && py_in (predictor_process_id r) pids then 1 else 0)
                  + (if unfinished (fst (reconcile pids r)) then 1 else 0))%nat
                 = (if unfinished r then 1 else 0)%nat).
    { unfold reconcile. destruct (unfinished r) eqn:Eu; cbn [andb].
      - destruct (py_in (predictor_process_id r) pids); cbn [fst].
        + now rewrite set_error_unfinished.
        + now rewrite Eu.
      - cbn [fst]. now rewrite Eu. }
    lia.
Qed.

(** X2.  The reconciliation at boot, in a deployment that is not hosted:
    every unfinished row ends as an error row and is committed exactly
    once; its message, when it had none, is the one of the orphan sweep if
    its process id is among the orphaned ones and "Unknown error"
    otherwise; every other row is left as it is.  In a hosted deployment
    the boot changes nothing. *)
Theorem boot_reconcile_result pids s :
  let s' := boot_reconcile false pids s in
  predictors s'
  = List.map (fun r => if unfinished r
                       then set_error (if py_in (predictor_process_id r) pids
                                       then terminated_message else unknown_message) r
                       else r) (predictors s)
  /\ commits s' = (commits s + length (List.filter unfinished (predictors s)))%nat
  /\ Forall (fun r => unfinished r = false) (predictors s')
  /\ boot_reconcile true pids s = s.
Proof.
  cbv zeta.
  assert (Hrows : predictors (boot_reconcile false pids s)
            = List.map (fun r => if unfinished r
                                 then set_error (if py_in (predictor_process_id r) pids
                                                 then terminated_message
                                                 else unknown_message) r
                                 else r) (predictors s)
            /\ commits (boot_reconcile false pids s)
               = (commits s + length (List.filter unfinished (predictors s)))%nat).
  { unfold boot_reconcile. cbn [negb].
    destruct pids as [|n pids]; cbn [length Z.of_nat Z.ltb Z.compare].
    - rewrite swept_for_unfinished. cbn [predictors commits].
      rewrite mark_unfinished_all_fst, mark_unfinished_all_snd. split; [|reflexivity].
      apply List.map_ext. intros r. unfold mark_unfinished.
      rewrite py_in_nil. now destruct (unfinished r).
    - change (0 <? Z.of_nat (S (length pids))) with true. cbv iota.
      rewrite swept_for_unfinished, swept_by_pids. cbn [predictors commits].
      rewrite mark_unfinished_all_fst, mark_unfinished_all_snd.
      rewrite reconcile_all_fst, reconcile_all_snd.
      destruct (boot_rows (n :: pids) (predictors s)) as [H1 H2].
      rewrite H1. split; [reflexivity|]. lia. }
  destruct Hrows as [Hrows Hcommits].
  split; [exact Hrows|]. split; [exact Hcommits|]. split; [|reflexivity].
  rewrite Hrows. apply Forall_forall. intros r' Hr'.
  apply list_elem_of_In, in_map_iff in Hr'. destruct Hr' as (r & <- & _).
  destruct (unfinished r) eqn:Eu; [apply set_error_unfinished|exact Eu].
Qed.

Lemma dict_get_app_has key (d e : list (string * json)) :
  dict_has key d = true -> dict_get key (d ++ e) = dict_get key d.
Proof.
  unfold dict_has, dict_get. induction d as [|[k x] d IH]; cbn; [discriminate|].
  destruct (String.eqb k key); [reflexivity|]. exact IH.
Qed.

Lemma dict_has_app key (d e : list (string * json)) :
  dict_has key (d ++ e) = dict_has key d || dict_has key e.
Proof. apply existsb_app. Qed.

(** [set_error] keeps the row's other columns and every entry of its data. *)
Lemma set_error_keeps message r :
  deleted_at (set_error message r) = deleted_at r
  /\ training_metadata (set_error message r) = training_metadata r
  /\ forall items key, data r = JDict items -> dict_has key items = true ->
       exists items', data (set_error message r) = JDict items'
         /\ dict_has key items' = true
         /\ dict_get key items' = dict_get key items.
Proof.
  split; [reflexivity|]. split; [reflexivity|].
  intros items key Hd Hk. unfold set_error. rewrite Hd. cbn [data].
  destruct (dict_has "error" items); eexists; (split; [reflexivity|]).
  - now split.
  - rewrite dict_has_app, Hk. split; [reflexivity|].
    now apply dict_get_app_has.
Qed.

(** X3.  A sweep by pids neither adds nor removes rows.  It leaves a row
    untouched when the row is soft-deleted, complete or already in error;
    and when it does mark a row, the row keeps its deletion mark, its
    training metadata and, if its data is a dict, every entry the dict
    had. *)
Theorem sweep_frame pids s (i : nat) r (Hrow : predictors s !! i = Some r) :
  let s' := set_error_model_status_by_pids pids s in
  length (predictors s') = length (predictors s)
  /\ exists r', predictors s' !! i = Some r'
       /\ (unfinished r = false -> r' = r)
       /\ deleted_at r' = deleted_at r
       /\ training_metadata r' = training_metadata r
       /\ forall items key, data r = JDict items -> dict_has key items = true ->
            exists items', data r' = JDict items'
              /\ dict_has key items' = true
              /\ dict_get key items' = dict_get key items.
Proof.
  cbv zeta. rewrite predictors_swept. split.
  - now rewrite reconcile_all_fst, List.length_map.
  - rewrite reconcile_all_lookup, Hrow. cbn. eexists. split; [reflexivity|].
    unfold reconcile.
    destruct (unfinished r && py_in (predictor_process_id r) pids) eqn:E; cbn [fst].
    + destruct (set_error_keeps terminated_message r) as (H1 & H2 & H3).
      split; [|split; [exact H1|split; [exact H2|exact H3]]].
      intros Hu. rewrite Hu in E. discriminate.
    + split; [reflexivity|]. split; [reflexivity|]. split; [reflexivity|].
      intros items key Hd Hk. exists items. now split.
Qed.

Lemma sweep_frame_witness :
  exists r',
    predictors (set_error_model_status_by_pids [4242]
                  (mkSession [training_row None
                                (JDict [("accuracy", JNum 97)])] 0)) !! 0%nat = Some r'
    /\ deleted_at r' = None.
Proof.
  destruct (sweep_frame [4242]
              (mkSession [training_row None (JDict [("accuracy", JNum 97)])] 0)
              0%nat (training_row None (JDict [("accuracy", JNum 97)])) eq_refl)
    as (_ & r' & Hr' & _ & Hd & _).
  exists r'. split; [exact Hr'|exact Hd].
Defined.

Lemma round_frame is_cloud pids s (i : nat) r :
  predictors s !! i = Some r -> unfinished r = false ->
  predictors (clean_process_marks_round is_cloud pids s) !! i = Some r.
Proof.
  intros Hrow Hu. unfold clean_process_marks_round.
  destruct (negb is_cloud && (0 <? Z.of_nat (length pids))); [|exact Hrow].
  rewrite predictors_swept, reconcile_all_lookup, Hrow. cbn.
  now rewrite reconcile_finished.
Qed.

(** X4.  The background loop [do_clean_process_marks]: in a hosted
    deployment it never writes, whatever the rounds find; a round in which
    the stop event is set ends it, and what later rounds would have found
    does not matter; and whatever the rounds find, a row that is
    soft-deleted, complete or in error when the loop starts is the same row
    when it ends. *)
Theorem background_loop_frame (rounds : list (bool * list Z)) s :
  do_clean_process_marks true rounds s = s
  /\ (forall is_cloud pids later,
        do_clean_process_marks is_cloud (rounds ++ (true, pids) :: later) s
        = do_clean_process_marks is_cloud rounds s)
  /\ (forall is_cloud (i : nat) r,
        predictors s !! i = Some r -> unfinished r = false ->
        predictors (do_clean_process_marks is_cloud rounds s) !! i = Some r).
Proof.
  split; [|split].
  - revert s. induction rounds as [|[stop pids] rounds IH]; intros s; [reflexivity|].
    cbn. destruct stop; [reflexivity|]. apply IH.
  - intros is_cloud pids later. revert s.
    induction rounds as [|[stop p] rounds IH]; intros s; [reflexivity|].
    cbn. destruct stop; [reflexivity|]. apply IH.
  - intros is_cloud i r. revert s.
    induction rounds as [|[stop p] rounds IH]; intros s Hrow Hu; [exact Hrow|].
    cbn. destruct stop; [exact Hrow|].
    apply IH; [|exact Hu]. now apply round_frame.
Qed.

End BootReconciliation.

Lemma background_loop_frame_witness :
  predictors (do_clean_process_marks false [(false, [4242])]
                (mkSession [mkPredictor None COMPLETE
                              (Some [("process_id", JNum 4242)]) JNull] 0))
    !! 0%nat
  = Some (mkPredictor None COMPLETE (Some [("process_id", JNum 4242)]) JNull).
Proof.
  apply (proj2 (proj2 (background_loop_frame [(false, [4242])]
                         (mkSession [mkPredictor None COMPLETE
                                       (Some [("process_id", JNum 4242)]) JNull] 0)))
           false 0%nat
           (mkPredictor None COMPLETE (Some [("process_id", JNum 4242)]) JNull)
           eq_refl eq_refl).
Defined.

(** ** More on the restart policy *)

Section RestartPolicyEdges.

Implicit Types (self : TrunkProcessData) (now t : Z) (ts : list Z).

Lemma filter_all_below w t (h : list Z) :
  Forall (fun x => x < t - w) h -> List.filter (fun x => t - w <=? x) h = [].
Proof.
  intros H. apply filter_none. eapply Forall_impl; [exact H|].
  intros x Hx. cbn in Hx. apply Z.leb_gt. exact Hx.
Qed.

Lemma filter_window_bound w t (h : list Z) :
  Forall (fun x => t - w <= x) (List.filter (fun x => t - w <=? x) h).
Proof.
  apply Forall_forall. intros x Hx. apply list_elem_of_In, List.filter_In in Hx.
  destruct Hx as [_ Hx]. now apply Z.leb_le in Hx.
Qed.

(** X5.  What a call made with [max_restart_count <> 0] leaves behind: the
    history has one entry more at most; with a window [W > 0] no entry of
    it is older than [now - W]; it has at most [max_restart_count] entries
    when the answer is true, and more than that when the answer is false. *)
Theorem attempt_history_bounds now self (HN : max_restart_count self <> 0) :
  let h' := _restarts_time (snd (request_restart_attempt now self)) in
  (length h' <= S (length (_restarts_time self)))%nat
  /\ (0 < max_restart_interval_seconds self ->
      Forall (fun x => now - max_restart_interval_seconds self <= x) h')
  /\ (fst (request_restart_attempt now self) = true ->
      Z.of_nat (length h') <= max_restart_count self)
  /\ (fst (request_restart_attempt now self) = false ->
      max_restart_count self < Z.of_nat (length h')).
Proof.
  cbv zeta. rewrite request_restart_attempt_eq.
  destruct (Z.eqb_spec (max_restart_count self) 0); [contradiction|].
  cbn [fst snd _restarts_time set_restarts_time]. rewrite spec_history_snoc.
  split; [|split; [|split]].
  - rewrite length_app. cbn [length].
    destruct (0 <? max_restart_interval_seconds self); [|lia].
    pose proof (List.filter_length_le
                  (fun x => now - max_restart_interval_seconds self <=? x)
                  (_restarts_time self)). lia.
  - intros HW. destruct (Z.ltb_spec 0 (max_restart_interval_seconds self)); [|lia].
    apply Forall_app. split; [apply filter_window_bound|].
    constructor; [lia|constructor].
  - intros H. now apply Z.leb_le in H.
  - intros H. now apply Z.leb_gt in H.
Qed.

Lemma attempt_history_bounds_witness :
  Z.of_nat (length (_restarts_time
                      (snd (request_restart_attempt 1009 (crashed_http 1))))) <= 3.
Proof.
  assert (HN : max_restart_count (crashed_http 1) <> 0) by (cbn; lia).
  destruct (attempt_history_bounds 1009 (crashed_http 1) HN) as (_ & _ & Hle & _).
  apply Hle. reflexivity.
Defined.

(** X6.  The limiter recovers: with [max_restart_count >= 1] and a window
    [W > 0], a call made when every recorded attempt is older than
    [now - W] is admitted and leaves [now] as the only entry of the
    history. *)
Theorem attempt_after_quiet_period now self
    (HN : 1 <= max_restart_count self)
    (HW : 0 < max_restart_interval_seconds self)
    (Hold : Forall (fun x => x < now - max_restart_interval_seconds self)
              (_restarts_time self)) :
  request_restart_attempt now self = (true, set_restarts_time [now] self).
Proof.
  rewrite request_restart_attempt_eq.
  destruct (Z.eqb_spec (max_restart_count self) 0); [lia|].
  cbv zeta. rewrite spec_history_snoc.
  destruct (Z.ltb_spec 0 (max_restart_interval_seconds self)); [|lia].
  rewrite filter_all_below by assumption. cbn [app length].
  destruct (Z.leb_spec (Z.of_nat 1) (max_restart_count self)); [reflexivity|lia].
Qed.

Lemma attempt_after_quiet_period_witness :
  request_restart_attempt 2000
    (set_restarts_time [1000; 1003; 1006; 1009] (crashed_http 1))
  = (true, set_restarts_time [2000] (crashed_http 1)).
Proof.
  apply (attempt_after_quiet_period 2000
           (set_restarts_time [1000; 1003; 1006; 1009] (crashed_http 1))).
  - cbn. lia.
  - cbn. lia.
  - cbn. repeat constructor; lia.
Defined.

(** X7.  A negative [max_restart_count] does not mean "no limit": every
    attempt is denied, the first one included, whatever the window and the
    history; each of them is recorded all the same. *)
Theorem negative_count_denies self (HN : max_restart_count self < 0) :
  (forall now, fst (request_restart_attempt now self) = false
     /\ In now (_restarts_time (snd (request_restart_attempt now self))))
  /\ forall ts, Forall (fun b => b = false) (fst (restart_attempts ts self)).
Proof.
  assert (H1 : forall now d, max_restart_count d < 0 ->
                 fst (request_restart_attempt now d) = false
                 /\ In now (_restarts_time (snd (request_restart_attempt now d)))).
  { intros now d Hd. rewrite request_restart_attempt_eq.
    destruct (Z.eqb_spec (max_restart_count d) 0); [lia|].
    cbn [fst snd _restarts_time set_restarts_time]. split.
    - apply Z.leb_gt. lia.
    - rewrite spec_history_snoc. apply in_or_app. right. now left. }
  split; [intros now; now apply H1|].
  intros ts. revert self HN.
  induction ts as [|t ts IH]; intros self HN; [constructor|].
  rewrite restart_attempts_cons. cbn [fst]. constructor.
  - now apply H1.
  - apply IH.
    pose proof (config_request_restart_attempt t self) as (Ec & _).
    cbv zeta in Ec. now rewrite Ec.
Qed.

Lemma negative_count_denies_witness :
  fst (request_restart_attempt 1000
         (mkTrunkProcessData "http" start_http true (Some 47334) None false None
            true (-1) 60 0 [])) = false.
Proof.
  apply (proj1 (negative_count_denies
                  (mkTrunkProcessData "http" start_http true (Some 47334) None false
                     None true (-1) 60 0 []) eq_refl)).
Defined.

(** X8.  When [should_restart] raises: only in a deployment that is not
    hosted, on linux or darwin, for a descriptor whose [restart_on_failure]
    is set and that holds no process handle; the exception is the
    [AttributeError] of [self.process.exitcode].  A process whose exit has
    not been seen is never restart-eligible there. *)
Theorem should_restart_raises (is_cloud : bool) (platform : string) self :
  (forall e, should_restart is_cloud platform self = inl e <->
     e = AttributeError /\ is_cloud = false
     /\ platform_in_linux_darwin platform = true
     /\ restart_on_failure self = true /\ process self = None)
  /\ (forall p, platform_in_linux_darwin platform = true ->
        process self = Some p -> exitcode p = None ->
        should_restart is_cloud platform self = inr false).
Proof.
  unfold should_restart, exitcode_is. split.
  - intros e. destruct is_cloud.
    { split; [discriminate|]. intros (_ & ? & _). discriminate. }
    destruct (platform_in_linux_darwin platform).
    + destruct (restart_on_failure self).
      * destruct (process self) as [p|].
        -- split; [discriminate|]. intros (_ & _ & _ & _ & ?). discriminate.
        -- split; [intros [= <-]; now repeat split|]. now intros (-> & _).
      * split; [discriminate|]. intros (_ & _ & _ & ? & _). discriminate.
    + destruct (max_restart_count self =? 0);
        (split; [discriminate|]; intros (_ & _ & ? & _); discriminate).
  - intros p Hplat Hp He. rewrite Hplat, Hp, He.
    destruct is_cloud; [reflexivity|]. now destruct (restart_on_failure self).
Qed.

Lemma should_restart_raises_witness :
  should_restart false "linux" running_http = inr false.
Proof.
  apply (proj2 (should_restart_raises false "linux" running_http)
           (mkProcess (Some 100) None)); reflexivity.
Defined.

End RestartPolicyEdges.

(** ** Composition of the descriptor set *)

Section Composition.

Implicit Types (k e : TrunkProcessEnum) (es api_arr : list TrunkProcessEnum)
  (s : TrunkProcessEnum -> TrunkProcessData).

Lemma of_value_value e : TrunkProcessEnum_of_value (enum_value e) = inr e.
Proof. now destruct e. Qed.

Lemma of_value_inr value e :
  TrunkProcessEnum_of_value value = inr e -> enum_value e = value.
Proof.
  unfold TrunkProcessEnum_of_value.
  destruct (List.find _ all_apis) as [e'|] eqn:Hf; [|discriminate].
  intros [= <-]. apply List.find_some in Hf as [_ Hf]. now apply String.eqb_eq in Hf.
Qed.

Lemma of_value_inl value x :
  TrunkProcessEnum_of_value value = inl x ->
  x = SystemExit 1 /\ forall e, enum_value e <> value.
Proof.
  unfold TrunkProcessEnum_of_value.
  destruct (List.find _ all_apis) as [e'|] eqn:Hf; [discriminate|].
  intros [= <-]. split; [reflexivity|]. intros e He.
  pose proof (List.find_none _ _ Hf e) as Hn. cbn beta in Hn.
  rewrite He, String.eqb_refl in Hn.
  assert (In e all_apis) by (destruct e; cbn; tauto). now specialize (Hn H).
Qed.

(** X9.  [TrunkProcessEnum(value)] and [.value] are inverse to each other:
    a member is found again from its value, a string that yields a member
    is the value of that member, and a string that is the value of no
    member ends the program with exit status 1 and nothing else. *)
Theorem enum_of_value_round_trip :
  (forall e, TrunkProcessEnum_of_value (enum_value e) = inr e)
  /\ (forall value e,
        TrunkProcessEnum_of_value value = inr e <-> enum_value e = value)
  /\ (forall value x,
        TrunkProcessEnum_of_value value = inl x <->
        x = SystemExit 1 /\ forall e, enum_value e <> value).
Proof.
  split; [exact of_value_value|]. split.
  - intros value e. split; [apply of_value_inr|]. intros <-. apply of_value_value.
  - intros value x. split; [apply of_value_inl|]. intros [-> Hno].
    destruct (TrunkProcessEnum_of_value value) as [y|e] eqn:E.
    + now apply of_value_inl in E as [-> _].
    + apply of_value_inr in E. now apply Hno in E.
Qed.

Lemma split_on_no_sep c (x : string) :
  contains_char c x = false -> split_on c x = [x].
Proof.
  induction x as [|c' x IH]; [reflexivity|]. cbn.
  destruct (Ascii.eqb c' c); [discriminate|]. cbn. intros H. now rewrite IH.
Qed.

Lemma split_on_app_sep c (x rest : string) :
  contains_char c x = false ->
  split_on c (x ++ String c rest) = x :: split_on c rest.
Proof.
  induction x as [|c' x IH]; cbn.
  - now rewrite Ascii.eqb_refl.
  - destruct (Ascii.eqb c' c); [discriminate|]. cbn. intros H. now rewrite IH.
Qed.

Lemma split_join (names : list string) :
  names <> [] ->
  Forall (fun n => contains_char ","%char n = false) names ->
  split_on ","%char (join_commas names) = names.
Proof.
  unfold join_commas. induction names as [|n names IH]; [congruence|].
  intros _ Hall. apply Forall_cons_1 in Hall as [Hn Hall].
  destruct names as [|n' names].
  - cbn. now apply split_on_no_sep.
  - change (String.concat "," (n :: n' :: names))
      with (n ++ String ","%char (String.concat "," (n' :: names)))%string.
    rewrite split_on_app_sep by assumption. f_equal. now apply IH.
Qed.

Lemma map_or_raise_values es :
  map_or_raise TrunkProcessEnum_of_value (List.map enum_value es) = inr es.
Proof.
  induction es as [|e es IH]; [reflexivity|]. cbn [List.map map_or_raise].
  now rewrite of_value_value, IH.
Qed.

Lemma map_or_raise_inr (names : list string) : forall es,
  map_or_raise TrunkProcessEnum_of_value names = inr es ->
  List.map enum_value es = names.
Proof.
  induction names as [|n names IH]; intros es; cbn [map_or_raise].
  - now intros [= <-].
  - destruct (TrunkProcessEnum_of_value n) as [x|e] eqn:En; [discriminate|].
    destruct (map_or_raise TrunkProcessEnum_of_value names) as [x|es'];
      [discriminate|].
    intros [= <-]. cbn. apply of_value_inr in En. now rewrite En, (IH es').
Qed.

Lemma map_or_raise_inl (names : list string) x :
  map_or_raise TrunkProcessEnum_of_value names = inl x -> x = SystemExit 1.
Proof.
  induction names as [|n names IH]; cbn [map_or_raise]; [discriminate|].
  destruct (TrunkProcessEnum_of_value n) as [y|e] eqn:En.
  - intros [= <-]. now apply of_value_inl in En as [-> _].
  - destruct (map_or_raise TrunkProcessEnum_of_value names) as [y|es'];
      [|discriminate].
    intros [= <-]. now apply IH.
Qed.

Lemma enum_value_no_comma e : contains_char ","%char (enum_value e) = false.
Proof. now destruct e. Qed.

Lemma join_values_not_empty es :
  es <> [] -> String.eqb (join_commas (List.map enum_value es)) "" = false.
Proof.
  destruct es as [|e es]; [congruence|]. intros _.
  unfold join_commas. destruct es as [|e' es]; destruct e; reflexivity.
Qed.

(** X10.  The list of APIs given as a string that is not empty: it is
    accepted exactly when every part between commas is the value of a
    member, and the result is those members in order; otherwise the
    program ends with exit status 1.  Joining the values of any list of
    members that is not empty with commas gives a string that is read back
    as that list. *)
Theorem select_apis_parses (apis : string) (Hne : apis <> ""%string) :
  (forall es, select_apis None (Some apis) = inr es <->
     List.map enum_value es = split_on ","%char apis)
  /\ (forall x, select_apis None (Some apis) = inl x -> x = SystemExit 1)
  /\ (forall es, es <> [] ->
        select_apis None (Some (join_commas (List.map enum_value es))) = inr es).
Proof.
  assert (Hsel : forall a, a <> ""%string ->
            select_apis None (Some a)
            = map_or_raise TrunkProcessEnum_of_value (split_on ","%char a)).
  { intros a Ha. unfold select_apis, str_or.
    destruct (String.eqb_spec a ""); [contradiction|reflexivity]. }
  split; [|split].
  - intros es. rewrite Hsel by assumption. split; [apply map_or_raise_inr|].
    intros <-. apply map_or_raise_values.
  - intros x. rewrite Hsel by assumption. apply map_or_raise_inl.
  - intros es Hes. unfold select_apis, str_or.
    rewrite join_values_not_empty by assumption.
    rewrite split_join.
    + apply map_or_raise_values.
    + destruct es; [congruence|discriminate].
    + apply Forall_forall. intros n Hn. apply list_elem_of_In, in_map_iff in Hn.
      destruct Hn as (e & <- & _). apply enum_value_no_comma.
Qed.

Lemma select_apis_parses_witness :
  select_apis None (Some "http,mysql,mcp"%string) = inr [HTTP; MYSQL; MCP].
Proof.
  assert (Hne : "http,mysql,mcp"%string <> ""%string) by discriminate.
  destruct (select_apis_parses "http,mysql,mcp" Hne) as (_ & _ & Hrt).
  apply (Hrt [HTTP; MYSQL; MCP]). discriminate.
Defined.

(** X11.  Where the list of APIs comes from: the environment variable wins
    when it is set to a string that is not empty; set to the empty string
    it counts as not set, so that only the command line can ask for no API
    at all; with neither given the two default APIs are started. *)
Theorem select_apis_source (env_apis : string) (cmd_api : option string) :
  (env_apis <> ""%string ->
     select_apis (Some env_apis) cmd_api = select_apis None (Some env_apis))
  /\ select_apis (Some ""%string) cmd_api = select_apis None cmd_api
  /\ select_apis None (Some ""%string) = inr []
  /\ select_apis (Some ""%string) None = inr [HTTP; MYSQL]
  /\ select_apis None None = inr [HTTP; MYSQL].
Proof.
  split; [|now repeat split].
  intros Hne. apply String.eqb_neq in Hne. unfold select_apis, str_or.
  rewrite Hne. cbv iota. now rewrite Hne.
Qed.

Lemma select_apis_source_witness :
  select_apis (Some "mcp"%string) (Some "http"%string) = inr [MCP].
Proof.
  rewrite (proj1 (select_apis_source "mcp" (Some "http"%string))); [reflexivity|].
  discriminate.
Defined.

Lemma need_at k s k' :
  need k s k' = if decide (k' = k) then set_need_to_run true (s k) else s k'.
Proof. reflexivity. Qed.

Lemma fold_need api_arr : forall s k,
  fold_left (fun s api_enum => need api_enum s) api_arr s k
  = if listed k api_arr then set_need_to_run true (s k) else s k.
Proof.
  induction api_arr as [|a api_arr IH]; intros s k; [reflexivity|].
  cbn [fold_left]. rewrite IH. unfold listed. cbn [existsb].
  rewrite need_at. fold (listed k api_arr).
  destruct (decide (k = a)) as [->|Hne].
  - rewrite bool_decide_eq_true_2 by reflexivity. cbn [orb].
    now destruct (listed a api_arr).
  - rewrite bool_decide_eq_false_2 by congruence. reflexivity.
Qed.

Lemma mark_needed_lookup api_arr (jobs_disable tasks_disable ml_consumer : bool) s k :
  mark_needed api_arr jobs_disable tasks_disable ml_consumer s k
  = if wanted api_arr jobs_disable tasks_disable ml_consumer k
    then set_need_to_run true (s k)
    else s k.
Proof.
  unfold mark_needed, wanted.
  pose proof (fold_need api_arr s) as Hf.
  destruct jobs_disable, tasks_disable, ml_consumer; cbn [negb];
    rewrite ?need_at, ?Hf;
    destruct k; cbn; rewrite ?need_at, ?Hf; cbn;
    repeat match goal with
           | |- context [listed ?k api_arr] => destruct (listed k api_arr)
           end; reflexivity.
Qed.

(** X12.  What the composition of the descriptor set does to a descriptor:
    it sets [need_to_run] for the APIs listed, for the jobs and the tasks
    unless they are disabled, and for the ML task queue when its consumer
    is asked for; it clears it for none and writes no other field. *)
Theorem mark_needed_at api_arr (jobs_disable tasks_disable ml_consumer : bool) s k :
  mark_needed api_arr jobs_disable tasks_disable ml_consumer s k
  = if wanted api_arr jobs_disable tasks_disable ml_consumer k
    then set_need_to_run true (s k)
    else s k.
Proof.
  unfold mark_needed, wanted.
  pose proof (fold_need api_arr s) as Hf.
  destruct jobs_disable, tasks_disable, ml_consumer; cbn [negb];
    rewrite ?need_at, ?Hf;
    destruct k; cbn; rewrite ?need_at, ?Hf; cbn;
    repeat match goal with
           | |- context [listed ?k api_arr] => destruct (listed k api_arr)
           end; reflexivity.
Qed.

Lemma wanted_needed api_arr (jd td ml : bool) s k :
  need_to_run (mark_needed api_arr jd td ml s k)
  = need_to_run (s k) || wanted api_arr jd td ml k.
Proof.
  rewrite mark_needed_lookup. destruct (wanted api_arr jd td ml k); cbn.
  - now rewrite orb_true_r.
  - now rewrite orb_false_r.
Qed.

(** X13.  The descriptor set as it is composed from the configuration: each
    descriptor is named by the value of its key, holds no process and has an
    empty restart history; the descriptors [gather_apis] watches are the
    wanted ones, in the order of the dict, and those [wait_apis_start] checks
    are the wanted ones among the five that are given a port; a descriptor
    that is given no restart policy (all but HTTP, MYSQL and MCP) is never
    restart-eligible, whichever process it holds, on any platform. *)
Theorem composed_struct (c : StructConfig) api_arr (jd td ml stop : bool)
    (now : Z) (tr : list event) :
  let w := mkWorld (mark_needed api_arr jd td ml (build_struct c)) stop now tr in
  (forall k, name (trunc_processes_struct w k) = enum_value k
             /\ process (trunc_processes_struct w k) = None
             /\ _restarts_time (trunc_processes_struct w k) = [])
  /\ monitored w = List.filter (wanted api_arr jd td ml) all_apis
  /\ port_bearing w
     = List.filter (fun k => wanted api_arr jd td ml k && has_port k) all_apis
  /\ (forall k p is_cloud platform,
        has_policy k = false ->
        should_restart is_cloud platform (set_process p (trunc_processes_struct w k))
        = inr false).
Proof.
  cbv zeta. cbn [trunc_processes_struct].
  split; [|split; [|split]].
  - intros k. rewrite mark_needed_lookup.
    destruct (wanted api_arr jd td ml k); destruct k; now repeat split.
  - unfold monitored. cbn [trunc_processes_struct]. apply List.filter_ext.
    intros k. rewrite wanted_needed. now destruct k.
  - unfold port_bearing. cbn [trunc_processes_struct]. apply List.filter_ext.
    intros k. rewrite mark_needed_lookup.
    destruct (wanted api_arr jd td ml k); now destruct k.
  - intros k p is_cloud platform Hk. rewrite mark_needed_lookup.
    unfold should_restart.
    destruct is_cloud; [reflexivity|].
    destruct (wanted api_arr jd td ml k); destruct k; try discriminate Hk;
      cbn; now destruct (platform_in_linux_darwin platform).
Qed.

End Composition.

Lemma composed_struct_witness :
  should_restart false "win32"
    (set_process (Some (mkProcess (Some 7) (Some 1)))
       (mark_needed [HTTP] false false false
          (build_struct
             (mkStructConfig 47334 (mkPolicyConfig (Some true) (Some 3) (Some 60))
                47335 (mkPolicyConfig None None None) 47336 55432 None
                (mkPolicyConfig None None None) false false))
          JOBS))
  = inr false.
Proof.
  apply (proj2 (proj2 (proj2
           (composed_struct
              (mkStructConfig 47334 (mkPolicyConfig (Some true) (Some 3) (Some 60))
                 47335 (mkPolicyConfig None None None) 47336 55432 None
                 (mkPolicyConfig None None None) false false)
              [HTTP] false false false false 0 [])))
           JOBS (Some (mkProcess (Some 7) (Some 1))) false "win32" eq_refl).
Defined.

(** ** What the operations leave alone *)

Section Keeps.

Context {T : Type} (f : TrunkProcessData -> T).
Variable os : OS.

(** [f] does not look at the process handle. *)
Hypothesis f_set_process : forall p d, f (set_process p d) = f d.

Lemma same_on_refl w : same_on f w w.
Proof. now intros k. Qed.

Lemma same_on_trans w1 w2 w3 : same_on f w1 w2 -> same_on f w2 w3 -> same_on f w1 w3.
Proof. intros H1 H2 k. now rewrite H2, H1. Qed.

Lemma same_on_struct w w' :
  trunc_processes_struct w' = trunc_processes_struct w -> same_on f w w'.
Proof. intros H k. now rewrite H. Qed.

Lemma same_on_set_data k d w :
  f d = f (trunc_processes_struct w k) -> same_on f w (snd (set_data k d w)).
Proof.
  intros H k'. cbn. unfold update. destruct (decide (k' = k)) as [->|]; auto.
Qed.

Lemma same_on_update k d w w' :
  f d = f (trunc_processes_struct w k) ->
  trunc_processes_struct w' = update k d (trunc_processes_struct w) ->
  same_on f w w'.
Proof.
  intros H Hs k'. rewrite Hs. unfold update.
  destruct (decide (k' = k)) as [->|]; auto.
Qed.

Lemma keeps_ret {A} (a : A) : keeps f (ret a).
Proof. intros w. apply same_on_refl. Qed.

Lemma keeps_raise {A} e : keeps f (@raise A e).
Proof. intros w. apply same_on_refl. Qed.

Lemma keeps_bind {A B} (m : M A) (g : A -> M B) :
  keeps f m -> (forall a, keeps f (g a)) -> keeps f (bind m g).
Proof.
  intros Hm Hg w. unfold bind. specialize (Hm w).
  destruct (m w) as [[e|a] w1]; cbn [snd] in *; [exact Hm|].
  eapply same_on_trans; [exact Hm|apply Hg].
Qed.

Lemma keeps_try_except {A} (body : M A) handles handler :
  keeps f body -> (forall e, keeps f (handler e)) ->
  keeps f (try_except body handles handler).
Proof.
  intros Hb Hh w. unfold try_except. specialize (Hb w).
  destruct (body w) as [[e|a] w1]; cbn [snd] in *; [|exact Hb].
  destruct (handles e); [|exact Hb].
  eapply same_on_trans; [exact Hb|apply Hh].
Qed.

Lemma keeps_try_finally {A B} (body : M A) (final : M B) :
  keeps f body -> keeps f final -> keeps f (try_finally body final).
Proof.
  intros Hb Hf w. unfold try_finally. specialize (Hb w).
  destruct (body w) as [[e|a] w1]; cbn [snd] in *.
  - specialize (Hf w1). destruct (final w1) as [[e'|b] w2]; cbn [snd] in *;
      eapply same_on_trans; eauto.
  - eapply same_on_trans; [exact Hb|apply Hf].
Qed.

Lemma keeps_for_each {A} (l : list A) (body : A -> M unit) :
  (forall x, keeps f (body x)) -> keeps f (for_each l body).
Proof.
  intros Hb. induction l as [|x l IH]; cbn [for_each].
  - apply keeps_ret.
  - apply keeps_bind; [apply Hb|intros _; exact IH].
Qed.

Lemma keeps_emit ev : keeps f (emit os ev).
Proof. intros w. now apply same_on_struct. Qed.

Lemma keeps_ask {R} (answer : list event -> R) (ev : R -> event) :
  keeps f (ask os answer ev).
Proof. intros w. now apply same_on_struct. Qed.

Lemma keeps_sleep ms : keeps f (sleep os ms).
Proof. intros w. now apply same_on_struct. Qed.

Lemma keeps_get_clock : keeps f get_clock.
Proof. intros w. apply same_on_refl. Qed.

Lemma keeps_get_data k : keeps f (get_data k).
Proof. intros w. apply same_on_refl. Qed.

Lemma keeps_stop_event_set : keeps f stop_event_set.
Proof. intros w. now apply same_on_struct. Qed.

Lemma keeps_of_result {A} (r : exn + A) : keeps f (of_result r).
Proof. destruct r; [apply keeps_raise|apply keeps_ret]. Qed.

(** Writing back the descriptor just read, with another handle. *)
Lemma keeps_new_handle k (h : TrunkProcessData -> option Process) :
  keeps f (bind (get_data k) (fun d => set_data k (set_process (h d) d))).
Proof.
  intros w. unfold bind, get_data. cbn [fst snd].
  apply same_on_set_data, f_set_process.
Qed.

End Keeps.

Ltac keeps_step :=
  lazymatch goal with
  | |- keeps _ (bind (get_data ?k) (fun d => set_data ?k (set_process _ d))) =>
      refine (keeps_new_handle _ _ k (fun _ => _));
      first [assumption | intros; reflexivity]
  | |- keeps _ (bind _ _) => apply keeps_bind; [|intros ?]
  | |- keeps _ (ret _) => apply keeps_ret
  | |- keeps _ (raise _) => apply keeps_raise
  | |- keeps _ (try_except _ _ _) => apply keeps_try_except; [|intros ?]
  | |- keeps _ (try_finally _ _) => apply keeps_try_finally
  | |- keeps _ (for_each _ _) => apply keeps_for_each; intros ?
  | |- keeps _ (emit _ _) => apply keeps_emit
  | |- keeps _ (ask _ _ _) => apply keeps_ask
  | |- keeps _ (sleep _ _) => apply keeps_sleep
  | |- keeps _ get_clock => apply keeps_get_clock
  | |- keeps _ (get_data _) => apply keeps_get_data
  | |- keeps _ stop_event_set => apply keeps_stop_event_set
  | |- keeps _ (of_result _) => apply keeps_of_result
  | |- keeps _ (match ?x with _ => _ end) => destruct x
  end.

Section KeepsOperations.

Context {T : Type} (f : TrunkProcessData -> T).
Variable os : OS.
Hypothesis f_set_process : forall p d, f (set_process p d) = f d.

Lemma keeps_close_api_gracefully : keeps f (close_api_gracefully os).
Proof.
  unfold close_api_gracefully, close_one, signal_children, stop_process,
    kill_child, process_terminate, process_join.
  repeat keeps_step.
Qed.

Lemma keeps_wait_api_start nm of_pid on_port :
  keeps f (wait_api_start os nm of_pid on_port).
Proof.
  assert (Hloop : forall rounds start started,
            keeps f (wait_loop os rounds start of_pid on_port started)).
  { induction rounds as [|rounds IH]; intros start started; cbn [wait_loop].
    - repeat keeps_step.
    - repeat keeps_step. apply IH. }
  unfold wait_api_start. repeat keeps_step. apply Hloop.
Qed.

Lemma keeps_wait_for_exit k : keeps f (wait_for_exit os k).
Proof. unfold wait_for_exit. repeat keeps_step. Qed.

(** [start_process] writes the descriptor it has read at its start, with
    another handle. *)
Lemma keeps_start_process k : keeps f (start_process os k).
Proof.
  intros w. unfold start_process, bind at 1, get_data. cbn [fst snd].
  set (d := trunc_processes_struct w k).
  unfold bind at 1, emit at 1. cbn [fst snd].
  match goal with |- same_on f w (snd (try_except ?body ?hs ?h ?w1)) =>
    set (w1' := w1); assert (H1 : same_on f w w1') by now apply same_on_struct end.
  eapply same_on_trans; [exact H1|].
  unfold try_except.
  assert (Hbody : same_on f w1'
            (snd (bind (set_data k (set_process (Some (mkProcess None None)) d))
                    (fun _ =>
                       bind (ask os (fun tr => proc_start os tr (name d))
                               (EvStart (name d) (entrypoint d) (args d)))
                         (fun r =>
                            bind (of_result r)
                              (fun n =>
                                 set_data k
                                   (set_process (Some (mkProcess (Some n) None)) d))))
                    w1'))).
  { unfold bind at 1. cbn [fst snd set_data].
    unfold bind at 1, ask, emit. cbn [fst snd].
    destruct (proc_start os _ (name d)) as [e|n];
      cbn; intros k'; cbn [trunc_processes_struct]; unfold update;
      (destruct (decide (k' = k)) as [->|]; [|reflexivity]);
      subst d w1'; cbn [trunc_processes_struct]; apply f_set_process. }
  match goal with |- context [bind ?a ?b w1'] =>
    destruct (bind a b w1') as [[e|[]] w2] end; cbn [snd] in *; [|exact Hbody].
  destruct (is_Exception e); [|exact Hbody].
  eapply same_on_trans; [exact Hbody|].
  assert (Hh : keeps f (bind (emit os (EvLog LogError (MsgFailedToStart (name d) e)))
                          (fun _ => bind (close_api_gracefully os)
                                      (fun _ => @raise unit e)))).
  { repeat keeps_step. apply keeps_close_api_gracefully. }
  apply Hh.
Qed.

Lemma keeps_start_needed : keeps f (start_needed os).
Proof.
  unfold start_needed. keeps_step. keeps_step; [keeps_step|].
  destruct (started a || negb (need_to_run a)); [keeps_step|].
  apply keeps_start_process.
Qed.

Lemma keeps_collect {A B} (l : list A) (g : A -> M B) :
  (forall x, keeps f (g x)) -> keeps f (collect l g).
Proof.
  intros Hg. induction l as [|x l IH]; cbn [collect]; [apply keeps_ret|].
  keeps_step; [apply Hg|]. keeps_step; [exact IH|apply keeps_ret].
Qed.

Lemma keeps_resume fu c : keeps f (resume os fu c).
Proof.
  unfold resume, check, after_check. destruct c; repeat keeps_step.
Qed.

Lemma keeps_run_once tasks done : keeps f (run_once os tasks done).
Proof.
  unfold run_once. keeps_step; [keeps_step|].
  keeps_step; [repeat keeps_step|].
  keeps_step; [keeps_step|].
  keeps_step; [intros w; apply same_on_refl|].
  repeat keeps_step; try apply keeps_resume.
  unfold log_health. destruct r as [[nm po] b]. destruct b; keeps_step.
Qed.

Lemma keeps_run_until_complete fuel : forall tasks done,
  keeps f (run_until_complete os fuel tasks done).
Proof.
  induction fuel as [|fuel IH]; intros tasks done; cbn [run_until_complete];
    destruct (all_returned tasks
              && match done with [] => true | _ :: _ => false end);
    try apply keeps_ret; try apply keeps_raise.
  keeps_step; [apply keeps_run_once|apply IH].
Qed.

Lemma keeps_wait_apis_start : keeps f (wait_apis_start os).
Proof.
  intros w. unfold wait_apis_start.
  assert (H : keeps f
                (let! futures := collect (port_bearing w) future_of in
                 run_until_complete os (loop_fuel (length futures))
                   (List.map (fun fu => (fu, Pending)) futures) [])).
  { keeps_step; [|apply keeps_run_until_complete].
    apply keeps_collect. intros k. unfold future_of. repeat keeps_step. }
  apply H.
Qed.

End KeepsOperations.

(** ** Shutdown, launch and watch *)

Section Operations.

Variable os : OS.

Implicit Types (w : World) (k : TrunkProcessEnum) (p : Process).

Lemma close_one_not_gone k w : fst (close_one os k w) <> inl NoSuchProcess.
Proof.
  unfold close_one, bind at 1, get_data. cbn [fst snd].
  destruct (process (trunc_processes_struct w k)) as [p|]; [|discriminate].
  unfold try_except.
  match goal with |- context [bind ?a ?b w] => destruct (bind a b w) as [[e|[]] w1] end;
    [|discriminate].
  destruct e; cbn; discriminate.
Qed.

Lemma for_each_close_not_gone (ks : list TrunkProcessEnum) : forall w,
  fst (for_each ks (close_one os) w) <> inl NoSuchProcess.
Proof.
  induction ks as [|k ks IH]; intros w; [discriminate|].
  cbn [for_each]. unfold bind. pose proof (close_one_not_gone k w) as Hk.
  destruct (close_one os k w) as [[e|[]] w1]; cbn [fst] in *; [exact Hk|apply IH].
Qed.

Lemma close_api_gracefully_eq w :
  close_api_gracefully os w
  = match for_each all_apis (close_one os) (with_stop_event true w) with
    | (inl e, w') =>
        if is_KeyboardInterrupt e then (inl (SystemExit 0), w') else (inl e, w')
    | r => r
    end.
Proof. reflexivity. Qed.

(** X14.  [close_api_gracefully] lets neither a [NoSuchProcess] nor a
    [KeyboardInterrupt] out, whatever the outside does: the first is
    swallowed for the descriptor it comes from, the second ends the walk
    and becomes [sys.exit(0)]. *)
Theorem close_api_gracefully_contains w :
  fst (close_api_gracefully os w) <> inl NoSuchProcess
  /\ fst (close_api_gracefully os w) <> inl KeyboardInterrupt
  /\ (forall w', for_each all_apis (close_one os) (with_stop_event true w)
                 = (inl KeyboardInterrupt, w') ->
        close_api_gracefully os w = (inl (SystemExit 0), w')).
Proof.
  rewrite close_api_gracefully_eq.
  pose proof (for_each_close_not_gone all_apis (with_stop_event true w)) as Hn.
  destruct (for_each all_apis (close_one os) (with_stop_event true w))
    as [[e|[]] w1]; cbn [fst] in *.
  - split; [|split].
    + destruct e; cbn [is_KeyboardInterrupt fst]; first [exact Hn | discriminate].
    + destruct e; cbn [is_KeyboardInterrupt fst]; discriminate.
    + intros w' [= -> ->]. reflexivity.
  - split; [discriminate|]. split; [discriminate|]. intros w' [=].
Qed.

End Operations.

Lemma close_api_gracefully_contains_witness :
  fst (close_api_gracefully os_interrupted world0) = inl (SystemExit 0).
Proof.
  rewrite (proj2 (proj2 (close_api_gracefully_contains os_interrupted world0))
             (snd (for_each all_apis (close_one os_interrupted)
                     (with_stop_event true world0)))); reflexivity.
Defined.

Section CleanShutdown.

Variable os : OS.
Hypothesis Hos : obliging os.

Implicit Types (w : World) (k : TrunkProcessEnum) (p : Process).

Lemma update_eq k d (s : TrunkProcessEnum -> TrunkProcessData) : update k d s k = d.
Proof. unfold update. now destruct (decide (k = k)). Qed.

Lemma update_ne k k' d (s : TrunkProcessEnum -> TrunkProcessData) :
  k' <> k -> update k d s k' = s k'.
Proof. intros H. unfold update. now destruct (decide (k' = k)). Qed.

Lemma kill_children_obliging (childs : list Z) : forall w,
  exists w1, for_each childs (kill_child os) w = (inr tt, w1)
    /\ trunc_processes_struct w1 = trunc_processes_struct w
    /\ _stop_event w1 = _stop_event w.
Proof.
  destruct Hos as (_ & Hkill & _).
  induction childs as [|c childs IH]; intros w; [now exists w|].
  cbn [for_each]. unfold bind at 1, kill_child, bind at 1, ask, emit. cbn [fst snd].
  rewrite Hkill. unfold ret at 1. cbv beta iota.
  match goal with |- context [for_each childs _ ?w1] =>
    destruct (IH w1) as (w2 & Hrun & Hs & He) end.
  exists w2. split; [exact Hrun|]. now split.
Qed.

Lemma set_process_same d p : process d = Some p -> set_process (Some p) d = d.
Proof. intros H. destruct d. cbn in *. now subst. Qed.

Lemma close_one_obliging k w :
  (forall p, process (trunc_processes_struct w k) = Some p -> pid p <> None) ->
  exists w', close_one os k w = (inr tt, w')
    /\ joined (trunc_processes_struct w k) (trunc_processes_struct w' k)
    /\ (forall k', k' <> k -> trunc_processes_struct w' k' = trunc_processes_struct w k')
    /\ _stop_event w' = _stop_event w.
Proof.
  intros Hstarted. unfold close_one, bind at 1, get_data. cbn [fst snd]. unfold joined.
  destruct (process (trunc_processes_struct w k)) as [p|] eqn:Hp;
    [|exists w; now repeat split].
  destruct (pid p) as [n|] eqn:Hn; [|now destruct (Hstarted p eq_refl)].
  destruct Hos as (Henum & _ & Hjoin).
  unfold try_except, bind at 1, signal_children, bind at 1, ask, emit. cbn [fst snd].
  destruct (Henum (trace w) (Some n)) as [childs ->]. cbn [of_result].
  unfold bind at 1, ret at 1. cbn [fst snd].
  match goal with |- context [for_each childs _ ?w1] =>
    destruct (kill_children_obliging childs w1) as (w2 & -> & Hs2 & He2) end.
  cbn [trunc_processes_struct _stop_event] in Hs2, He2.
  unfold stop_process, bind at 1, emit at 1. cbn [fst snd].
  unfold bind at 1, process_terminate. rewrite Hn. unfold emit at 1. cbn [fst snd].
  unfold bind at 1, process_join. rewrite Hn.
  destruct (exitcode p) as [c0|] eqn:Hc.
  - unfold emit. cbn [fst snd]. eexists. split; [reflexivity|].
    cbn [trunc_processes_struct _stop_event]. rewrite Hs2, He2.
    split; [|now split]. exists n, c0. split; [reflexivity|]. split; [|congruence].
    symmetry. apply set_process_same. rewrite Hp. f_equal.
    destruct p. cbn in *. now subst.
  - unfold bind at 1, ask, emit. cbn [fst snd].
    match goal with |- context [proc_join os ?tr n] =>
      destruct (Hjoin tr n) as [c Hcode]; rewrite Hcode end.
    cbn [of_result].
    unfold bind, ret, get_data, set_data. cbn [fst snd].
    eexists. split; [reflexivity|]. cbn [trunc_processes_struct _stop_event].
    rewrite Hs2, He2. split; [|split; [|reflexivity]].
    + exists n, c. rewrite update_eq. split; [reflexivity|].
      split; [reflexivity|discriminate].
    + intros k' Hk'. now rewrite update_ne.
Qed.

Lemma for_each_close_obliging (ks : list TrunkProcessEnum) :
  NoDup ks -> forall w,
  (forall k p, process (trunc_processes_struct w k) = Some p -> pid p <> None) ->
  exists w', for_each ks (close_one os) w = (inr tt, w')
    /\ (forall k, In k ks ->
          joined (trunc_processes_struct w k) (trunc_processes_struct w' k))
    /\ (forall k, ~ In k ks -> trunc_processes_struct w' k = trunc_processes_struct w k)
    /\ _stop_event w' = _stop_event w.
Proof.
  induction 1 as [|k ks Hk Hnd IH]; intros w Hstarted; cbn [for_each].
  - exists w. split; [reflexivity|]. split; [intros k []|now split].
  - unfold bind.
    destruct (close_one_obliging k w (Hstarted k)) as (w1 & -> & Hj & Ho & He).
    destruct (IH w1) as (w2 & -> & Hj2 & Ho2 & He2).
    { intros k' p Hp. destruct (decide (k' = k)) as [->|Hne].
      - unfold joined in Hj.
        destruct (process (trunc_processes_struct w k)) as [q|] eqn:Hq.
        + destruct Hj as (n & c & _ & Hd & _). rewrite Hd in Hp. cbn in Hp.
          injection Hp as <-. discriminate.
        + rewrite Hj, Hq in Hp. discriminate.
      - rewrite (Ho k' Hne) in Hp. eapply Hstarted; eauto. }
    exists w2. split; [reflexivity|]. split; [|split; [|congruence]].
    + intros k' [<-|Hin].
      * rewrite Ho2 by (rewrite <- list_elem_of_In; exact Hk). exact Hj.
      * assert (k' <> k) by (intros ->; apply Hk, list_elem_of_In, Hin).
        rewrite <- (Ho k') by assumption. now apply Hj2.
    + intros k' Hnot. rewrite Ho2, Ho; [reflexivity| |].
      * intros ->. apply Hnot. now left.
      * intros Hin. apply Hnot. now right.
Qed.

Lemma all_apis_NoDup : NoDup all_apis.
Proof. apply NoDup_ListNoDup. repeat constructor; cbn; intuition discriminate. Qed.

Lemma in_all_apis k : In k all_apis.
Proof. destruct k; cbn; tauto. Qed.

(** X15.  A shutdown in which nothing fails: when the children of every
    process can be enumerated and signalled and every join returns, and
    every handle the descriptors hold is one of a started process,
    [close_api_gracefully] returns, the stop event is set, and every
    descriptor is what it was but for its handle, which now holds the exit
    code of its process; no handle is left without one. *)
Theorem close_api_gracefully_joins_all w
    (Hstarted : forall k p, process (trunc_processes_struct w k) = Some p ->
                            pid p <> None) :
  exists w', close_api_gracefully os w = (inr tt, w')
    /\ _stop_event w' = true
    /\ (forall k, joined (trunc_processes_struct w k) (trunc_processes_struct w' k))
    /\ (forall k p', process (trunc_processes_struct w' k) = Some p' ->
                     exitcode p' <> None).
Proof.
  rewrite close_api_gracefully_eq.
  destruct (for_each_close_obliging all_apis all_apis_NoDup (with_stop_event true w))
    as (w' & -> & Hj & _ & He); [exact Hstarted|].
  exists w'. split; [reflexivity|]. split; [exact He|].
  assert (Hall : forall k, joined (trunc_processes_struct w k)
                             (trunc_processes_struct w' k)).
  { intros k. apply (Hj k), in_all_apis. }
  split; [exact Hall|].
  intros k p' Hp'. specialize (Hall k). unfold joined in Hall.
  destruct (process (trunc_processes_struct w k)) as [q|] eqn:Hq.
  - destruct Hall as (n & c & _ & Hd & _). rewrite Hd in Hp'. cbn in Hp'.
    injection Hp' as <-. discriminate.
  - rewrite Hall, Hq in Hp'. discriminate.
Qed.

End CleanShutdown.

Lemma os_pid_reused_obliging : obliging os_pid_reused.
Proof. repeat split; intros; eexists; reflexivity. Qed.

Lemma close_api_gracefully_joins_all_witness :
  exists w', close_api_gracefully os_pid_reused world0 = (inr tt, w')
    /\ _stop_event w' = true.
Proof.
  destruct (close_api_gracefully_joins_all os_pid_reused os_pid_reused_obliging world0)
    as (w' & Hrun & Hstop & _).
  - intros k p Hp. destruct k; vm_compute in Hp; try discriminate.
    injection Hp as <-. discriminate.
  - exists w'. now split.
Defined.

Section LaunchAndSpare.

Variable os : OS.

Implicit Types (w : World) (k : TrunkProcessEnum) (p : Process).

(** X16.  A child that is gone spares its parent: when [os.kill] on a child
    fails and [p.kill()] then raises [NoSuchProcess], the [except] clause
    that swallows it also skips [terminate()] and [join()] of the process
    of the descriptor; the walk goes on, nothing is raised, and the
    descriptor keeps a handle without an exit code. *)
Theorem gone_child_spares_process k w p (c : Z) (cs : list Z) (e : exn)
    (Hp : process (trunc_processes_struct w k) = Some p)
    (Henum : get_child_pids os (trace w) (pid p) = inr (c :: cs))
    (Hkill : os_kill os (trace w ++ [EvGetChildPids (pid p) (inr (c :: cs))]) c SIGTERM
             = Some e)
    (He : is_Exception e = true)
    (Hgone : child_kill os
               ((trace w ++ [EvGetChildPids (pid p) (inr (c :: cs))])
                  ++ [EvOsKill c SIGTERM (Some e)]) c
             = Some NoSuchProcess) :
  exists w', close_one os k w = (inr tt, w')
    /\ trunc_processes_struct w' = trunc_processes_struct w
    /\ trace w' = trace w ++ [EvGetChildPids (pid p) (inr (c :: cs));
                              EvOsKill c SIGTERM (Some e);
                              EvChildKill c (Some NoSuchProcess)].
Proof.
  unfold close_one, bind at 1, get_data. cbn [fst snd]. rewrite Hp.
  unfold try_except, bind at 1, signal_children, bind at 1, ask, emit. cbn [fst snd].
  rewrite Henum. cbn [of_result]. unfold bind at 1, ret at 1. cbn [fst snd for_each].
  unfold bind at 1, kill_child, bind at 1, ask, emit. cbn [fst snd trace].
  rewrite Hkill, He. unfold bind at 1, ask, emit. cbn [fst snd trace].
  rewrite Hgone. cbn.
  eexists. split; [reflexivity|]. cbn. split; [reflexivity|].
  now rewrite <- !app_assoc.
Qed.

Lemma within_close_api_gracefully :
  within (fun ev => is_start ev = false) (close_api_gracefully os).
Proof.
  unfold close_api_gracefully, close_one, signal_children, stop_process,
    kill_child, process_terminate, process_join.
  repeat (within_step; try reflexivity).
Qed.

Lemma close_sets_stop w : _stop_event (snd (close_api_gracefully os w)) = true.
Proof.
  rewrite close_api_gracefully_eq.
  assert (Hw : within (fun ev => is_start ev = false) (for_each all_apis (close_one os))).
  { unfold close_one, signal_children, stop_process, kill_child, process_terminate,
      process_join.
    repeat (within_step; try reflexivity). }
  destruct (Hw (with_stop_event true w)) as (_ & Hs & _). specialize (Hs eq_refl).
  destruct (for_each all_apis (close_one os) (with_stop_event true w)) as [[e|[]] w1];
    cbn [snd] in *; [|exact Hs].
  now destruct (is_KeyboardInterrupt e).
Qed.

(** What [start_process] does when the spawn succeeds. *)
Lemma start_process_succeeded k w n :
  let d := trunc_processes_struct w k in
  proc_start os (trace w ++ [EvLog LogInfo (MsgStarting (name d))]) (name d) = inr n ->
  exists w', start_process os k w = (inr tt, w')
    /\ trunc_processes_struct w' k = set_process (Some (mkProcess (Some n) None)) d
    /\ (forall k', k' <> k -> trunc_processes_struct w' k' = trunc_processes_struct w k')
    /\ _stop_event w' = _stop_event w
    /\ trace w' = (trace w ++ [EvLog LogInfo (MsgStarting (name d))])
                    ++ [EvStart (name d) (entrypoint d) (args d) (inr n)].
Proof.
  cbv zeta. intros Hn. unfold start_process, bind at 1, get_data. cbn [fst snd].
  unfold bind at 1, emit at 1. cbn [fst snd].
  unfold try_except, bind at 1, set_data at 1. cbn [fst snd].
  unfold bind at 1, ask, emit. cbn [fst snd trace]. rewrite Hn. cbn [of_result].
  unfold bind, ret, set_data. cbn [fst snd].
  eexists. split; [reflexivity|]. cbn [trunc_processes_struct _stop_event trace].
  split; [now rewrite update_eq|]. split; [|now split].
  intros k' Hk'. now rewrite !update_ne.
Qed.

(** What [start_process] does when the spawn fails. *)
Lemma start_process_failed k w e :
  let d := trunc_processes_struct w k in
  proc_start os (trace w ++ [EvLog LogInfo (MsgStarting (name d))]) (name d) = inl e ->
  start_process os k w
  = (if is_Exception e
     then bind (emit os (EvLog LogError (MsgFailedToStart (name d) e)))
            (fun _ => bind (close_api_gracefully os) (fun _ => raise e))
     else raise e)
      (snd (ask os (fun tr => proc_start os tr (name d))
              (EvStart (name d) (entrypoint d) (args d))
              (snd (set_data k (set_process (Some (mkProcess None None)) d)
                      (snd (emit os (EvLog LogInfo (MsgStarting (name d))) w)))))).
Proof.
  cbv zeta. intros He. unfold start_process, bind at 1, get_data. cbn [fst snd].
  unfold bind at 1, emit at 1. cbn [fst snd].
  unfold try_except, bind at 1, set_data at 1. cbn [fst snd].
  unfold bind at 1, ask at 1, emit at 1. cbn [fst snd trace]. rewrite He.
  cbn [of_result]. unfold bind at 1, raise at 1. cbn [fst snd].
  unfold ask, emit, set_data. cbn [fst snd trace]. rewrite He.
  now destruct (is_Exception e).
Qed.

(** X17.  [start_process] returns exactly when the spawn succeeds, and then
    only the handle of the descriptor has changed: it is the new process,
    with no exit code.  When the spawn fails with an [Exception] the failure
    is logged, [close_api_gracefully] is run, so that the stop event is set,
    and an exception leaves the function; when it is interrupted by
    a [KeyboardInterrupt] or a [SystemExit] that exception leaves it with
    no shutdown at all. *)
Theorem start_process_outcome k w :
  let d := trunc_processes_struct w k in
  let tr1 := trace w ++ [EvLog LogInfo (MsgStarting (name d))] in
  (forall n, proc_start os tr1 (name d) = inr n ->
     exists w', start_process os k w = (inr tt, w')
       /\ trunc_processes_struct w' k = set_process (Some (mkProcess (Some n) None)) d
       /\ (forall k', k' <> k -> trunc_processes_struct w' k' = trunc_processes_struct w k')
       /\ _stop_event w' = _stop_event w
       /\ trace w' = tr1 ++ [EvStart (name d) (entrypoint d) (args d) (inr n)])
  /\ (forall e, proc_start os tr1 (name d) = inl e ->
      (exists x, fst (start_process os k w) = inl x)
      /\ (is_Exception e = true ->
          _stop_event (snd (start_process os k w)) = true
          /\ In (EvLog LogError (MsgFailedToStart (name d) e))
               (trace (snd (start_process os k w))))
      /\ (is_Exception e = false ->
          fst (start_process os k w) = inl e
          /\ _stop_event (snd (start_process os k w)) = _stop_event w)).
Proof.
  cbv zeta. split.
  - intros n Hn. now apply start_process_succeeded.
  - intros e He. rewrite (start_process_failed k w e He).
    set (w2 := snd (ask os _ _ _)).
    destruct (is_Exception e) eqn:Hex.
    + set (w3 := snd (emit os (EvLog LogError
                                 (MsgFailedToStart (name (trunc_processes_struct w k)) e))
                        w2)).
      assert (Hres : bind (emit os (EvLog LogError
                                      (MsgFailedToStart
                                         (name (trunc_processes_struct w k)) e)))
                       (fun _ => bind (close_api_gracefully os) (fun _ => @raise unit e))
                       w2
                     = match close_api_gracefully os w3 with
                       | (inl x, w4) => (inl x, w4)
                       | (inr _, w4) => (inl e, w4)
                       end) by reflexivity.
      rewrite Hres.
      pose proof (close_sets_stop w3) as Hstop.
      destruct (within_close_api_gracefully w3) as ((evs & Htr & _) & _).
      destruct (close_api_gracefully os w3) as [[x|[]] w4]; cbn [fst snd] in *;
        (split; [eauto|]; split; [|discriminate]; intros _; split; [exact Hstop|];
         rewrite Htr; subst w3; cbn [trace emit snd]; apply in_or_app; left;
         apply in_or_app; right; now left).
    + cbn [fst snd raise]. split; [eauto|]. split; [discriminate|]. now intros _.
Qed.

End LaunchAndSpare.

Lemma start_process_outcome_witness :
  exists w', start_process os_psutil HTTP world0 = (inr tt, w')
    /\ trunc_processes_struct w' HTTP
       = set_process (Some (mkProcess (Some 101) None)) running_http.
Proof.
  destruct (proj1 (start_process_outcome os_psutil HTTP world0) 101 eq_refl)
    as (w' & Hrun & Hk & _).
  exists w'. split; [exact Hrun|exact Hk].
Defined.

Lemma gone_child_spares_process_witness :
  exists w', close_one os_child_gone HTTP world0 = (inr tt, w')
    /\ trunc_processes_struct w' = trunc_processes_struct world0.
Proof.
  destruct (gone_child_spares_process os_child_gone HTTP world0
              (mkProcess (Some 100) None) 7 [] (OtherException "TypeError")
              eq_refl eq_refl eq_refl eq_refl eq_refl)
    as (w' & Hrun & Hs & _).
  exists w'. split; [exact Hrun|exact Hs].
Defined.

Section StartUp.

Variable os : OS.

Implicit Types (w : World) (k : TrunkProcessEnum).

Lemma count_starts_app evs1 evs2 :
  count_starts (evs1 ++ evs2) = (count_starts evs1 + count_starts evs2)%nat.
Proof. unfold count_starts. now rewrite List.filter_app, length_app. Qed.

Lemma launch_step k w (Hsp : spawns os) :
  exists w',
    (let! d := get_data k in
     if started d || negb (need_to_run d) then ret tt else start_process os k) w
    = (inr tt, w')
    /\ launched (trunc_processes_struct w k) (trunc_processes_struct w' k)
    /\ (forall k', k' <> k -> trunc_processes_struct w' k' = trunc_processes_struct w k')
    /\ _stop_event w' = _stop_event w
    /\ exists evs, trace w' = trace w ++ evs
         /\ count_starts evs = (if to_launch w k then 1 else 0)%nat.
Proof.
  unfold bind at 1, get_data, launched, to_launch. cbn [fst snd].
  destruct (started (trunc_processes_struct w k)
            || negb (need_to_run (trunc_processes_struct w k))).
  - exists w. repeat split. exists []. split; [now rewrite app_nil_r|reflexivity].
  - destruct (Hsp (trace w ++ [EvLog LogInfo
                                 (MsgStarting (name (trunc_processes_struct w k)))])
                (name (trunc_processes_struct w k))) as [n Hn].
    destruct (start_process_succeeded os k w n Hn) as (w' & Hrun & Hk & Ho & He & Ht).
    exists w'. split; [exact Hrun|]. split; [eauto|]. split; [exact Ho|].
    split; [exact He|]. eexists. split; [rewrite Ht, <- app_assoc; reflexivity|].
    reflexivity.
Qed.

Lemma launch_all (ks : list TrunkProcessEnum) (Hsp : spawns os) :
  NoDup ks -> forall w,
  exists w',
    for_each ks
      (fun k => let! d := get_data k in
                if started d || negb (need_to_run d) then ret tt
                else start_process os k) w
    = (inr tt, w')
    /\ (forall k, In k ks ->
          launched (trunc_processes_struct w k) (trunc_processes_struct w' k))
    /\ (forall k, ~ In k ks -> trunc_processes_struct w' k = trunc_processes_struct w k)
    /\ _stop_event w' = _stop_event w
    /\ exists evs, trace w' = trace w ++ evs
         /\ count_starts evs = length (List.filter (to_launch w) ks).
Proof.
  induction 1 as [|k ks Hk Hnd IH]; intros w; cbn [for_each].
  - exists w. split; [reflexivity|]. split; [intros k []|]. repeat split.
    exists []. split; [now rewrite app_nil_r|reflexivity].
  - unfold bind at 1.
    destruct (launch_step k w Hsp) as (w1 & -> & Hl & Ho & He & e1 & T1 & C1).
    destruct (IH w1) as (w2 & Hrun & Hl2 & Ho2 & He2 & e2 & T2 & C2).
    assert (Hnot : ~ In k ks) by (rewrite <- list_elem_of_In; exact Hk).
    exists w2. split; [exact Hrun|]. split; [|split; [|split; [congruence|]]].
    + intros k' [<-|Hin].
      * rewrite Ho2 by exact Hnot. exact Hl.
      * assert (k' <> k) by (intros ->; contradiction).
        rewrite <- (Ho k') by assumption. now apply Hl2.
    + intros k' Hn'. rewrite Ho2, Ho; [reflexivity| |].
      * intros ->. apply Hn'. now left.
      * intros Hin. apply Hn'. now right.
    + exists (e1 ++ e2). split; [now rewrite T2, T1, app_assoc|].
      rewrite count_starts_app, C1, C2, length_filter_cons. f_equal.
      f_equal. apply List.filter_ext_in. intros k' Hin. unfold to_launch.
      rewrite Ho; [reflexivity|]. intros ->. contradiction.
Qed.

(** X18.  The start-up loop, when every spawn succeeds: it returns; a
    descriptor that is needed and not marked as started holds a new
    process with no exit code, every other descriptor is untouched; the
    stop event is as it was; and as many processes were started as there
    are descriptors to launch. *)
Theorem start_needed_launches w (Hsp : spawns os) :
  exists w', start_needed os w = (inr tt, w')
    /\ (forall k, launched (trunc_processes_struct w k) (trunc_processes_struct w' k))
    /\ _stop_event w' = _stop_event w
    /\ exists evs, trace w' = trace w ++ evs
         /\ count_starts evs = length (List.filter (to_launch w) all_apis).
Proof.
  unfold start_needed.
  destruct (launch_all all_apis Hsp all_apis_NoDup w)
    as (w' & Hrun & Hl & _ & He & Hev).
  exists w'. split; [exact Hrun|]. split; [|now split].
  intros k. apply Hl, in_all_apis.
Qed.

End StartUp.

Lemma os_psutil_spawns : spawns os_psutil.
Proof. intros tr nm. now exists 101. Qed.

Lemma start_needed_launches_witness :
  exists w', start_needed os_psutil world0 = (inr tt, w')
    /\ _stop_event w' = false.
Proof.
  destruct (start_needed_launches os_psutil world0 os_psutil_spawns)
    as (w' & Hrun & _ & He & _).
  exists w'. split; [exact Hrun|exact He].
Defined.

Section FirstSuccess.

Variable os : OS.

Implicit Types (w : World) (of_pid on_port : option Z).

(** The loop of [wait_api_start] goes on only while the last answer was
    false. *)
(** X19.  [wait_api_start] stops at the first check that finds the port
    open.  Every answer is the one [is_pid_listen_port] gave when it was
    asked, first at once and then after every sleep; every answer but the
    last one was false, so the result is true exactly when some check was
    answered true; and when the very first check is answered true it
    returns without sleeping. *)
Theorem wait_api_start_first_success (api_name : string) of_pid on_port w :
  exists answers w',
    let first := is_pid_listen_port os (trace w) of_pid on_port in
    wait_api_start os api_name of_pid on_port w
    = (inr (api_name, on_port, List.last answers first), w')
    /\ trace w' = trace w ++ EvListen of_pid on_port first
                     :: poll_events of_pid on_port answers
    /\ polled os (trace w ++ [EvListen of_pid on_port first]) of_pid on_port answers
    /\ Forall (fun a => a = false) (removelast (first :: answers))
    /\ (List.last answers first = true <-> In true (first :: answers))
    /\ (first = true -> answers = []).
Proof.
  destruct (wait_api_start_polled os api_name of_pid on_port w)
    as (answers & w' & Hrun & Ht & Hp & _ & _ & Hfirst & Hall).
  exists answers, w'. cbv zeta in *.
  set (first := is_pid_listen_port os (trace w) of_pid on_port) in *.
  split; [exact Hrun|]. split; [exact Ht|]. split; [exact Hp|].
  split; [exact Hall|]. split; [|exact Hfirst].
  rewrite <- (last_cons first false answers).
  assert (Hne : first :: answers <> []) by discriminate.
  rewrite (app_removelast_last false Hne) at 2.
  split.
  - intros ->. apply in_or_app. right. now left.
  - intros Hin. apply in_app_or in Hin as [Hin|[Hin|[]]]; [|now symmetry].
    rewrite Forall_forall in Hall. apply list_elem_of_In, Hall in Hin. discriminate.
Qed.

End FirstSuccess.

(** ** The watch loop *)

Section KeepsFrom.

Context {T : Type} (f : TrunkProcessData -> T).
Variable k : TrunkProcessEnum.
Variable v : T.

Lemma keeps_from_keeps {A} (m : M A) : keeps f m -> keeps_from f k v m.
Proof. intros H w _. apply H. Qed.

Lemma keeps_from_bind {A B} (m : M A) (g : A -> M B) :
  keeps_from f k v m -> (forall a, keeps_from f k v (g a)) ->
  keeps_from f k v (bind m g).
Proof.
  intros Hm Hg w Hv. unfold bind. specialize (Hm w Hv).
  destruct (m w) as [[e|a] w1]; cbn [snd] in *; [exact Hm|].
  eapply same_on_trans; [exact Hm|]. apply Hg. now rewrite Hm.
Qed.

Lemma keeps_from_get {B} (g : TrunkProcessData -> M B) :
  (forall d, f d = v -> keeps_from f k v (g d)) ->
  keeps_from f k v (bind (get_data k) g).
Proof. intros Hg w Hv. unfold bind, get_data. cbn [fst snd]. now apply Hg. Qed.

Lemma keeps_from_set d : f d = v -> keeps_from f k v (set_data k d).
Proof. intros Hd w Hv. apply same_on_set_data. congruence. Qed.

Lemma keeps_from_try_except {A} (body : M A) handles handler :
  keeps_from f k v body -> (forall e, keeps_from f k v (handler e)) ->
  keeps_from f k v (try_except body handles handler).
Proof.
  intros Hb Hh w Hv. unfold try_except. specialize (Hb w Hv).
  destruct (body w) as [[e|a] w1]; cbn [snd] in *; [|exact Hb].
  destruct (handles e); [|exact Hb].
  eapply same_on_trans; [exact Hb|]. apply Hh. now rewrite Hb.
Qed.

Lemma keeps_from_try_finally {A B} (body : M A) (final : M B) :
  keeps_from f k v body -> keeps_from f k v final ->
  keeps_from f k v (try_finally body final).
Proof.
  intros Hb Hf w Hv. unfold try_finally. specialize (Hb w Hv).
  assert (Hv1 : f (trunc_processes_struct (snd (body w)) k) = v) by now rewrite Hb.
  destruct (body w) as [[e|a] w1]; cbn [snd] in *.
  - specialize (Hf w1 Hv1). destruct (final w1) as [[e'|b] w2]; cbn [snd] in *;
      eapply same_on_trans; eauto.
  - eapply same_on_trans; [exact Hb|now apply Hf].
Qed.

End KeepsFrom.

Section PolicyKept.

Variable cfg : Config.
Variable os : OS.

Implicit Types (w : World) (k : TrunkProcessEnum).

Lemma policy_set_process p d : policy_of (set_process p d) = policy_of d.
Proof. reflexivity. Qed.

Lemma settings_set_process p d : settings_of (set_process p d) = settings_of d.
Proof. reflexivity. Qed.

Lemma policy_request_restart_attempt now d :
  policy_of (snd (request_restart_attempt now d)) = policy_of d.
Proof.
  unfold request_restart_attempt.
  destruct (max_restart_count d =? 0); [reflexivity|].
  match goal with |- context [if ?c <? ?n then _ else _] => destruct (c <? n) end;
    reflexivity.
Qed.

Lemma keeps_read_should_restart {T} (f : TrunkProcessData -> T) k :
  keeps f (read_should_restart cfg os k).
Proof.
  unfold read_should_restart. keeps_step; [keeps_step|].
  keeps_step; [|keeps_step].
  destruct (negb (config_is_cloud cfg)
            && negb (platform_in_linux_darwin (sys_platform cfg))
            && (max_restart_count a =? 0)); keeps_step.
Qed.

Lemma keeps_after_start {T} (f : TrunkProcessData -> T) k
    (Hf : forall p d, f (set_process p d) = f d) :
  keeps f
    (let! d := get_data k in
     let! p := match process d with
               | None => raise AttributeError
               | Some p => ret p
               end in
     let! r := wait_api_start os (name d) (pid p) (port d) in
     do! log_health os r in ret false).
Proof.
  keeps_step; [keeps_step|]. keeps_step; [repeat keeps_step|].
  keeps_step; [now apply keeps_wait_api_start|].
  keeps_step; [|keeps_step].
  unfold log_health. destruct a1 as [[nm po] b]. destruct b; keeps_step.
Qed.

Lemma keeps_policy_restart_or_finish k v :
  keeps_from policy_of k v (restart_or_finish cfg os k).
Proof.
  unfold restart_or_finish.
  apply keeps_from_bind; [apply keeps_from_keeps, keeps_read_should_restart|].
  intros restart. apply keeps_from_get. intros d Hd.
  destruct restart; [|apply keeps_from_keeps; repeat keeps_step].
  apply keeps_from_bind; [apply keeps_from_keeps; keeps_step|]. intros now.
  pose proof (policy_request_restart_attempt (Z.quot now 1000) d) as Hp.
  destruct (request_restart_attempt (Z.quot now 1000) d) as [admitted self'].
  cbn [snd] in Hp.
  apply keeps_from_bind; [apply keeps_from_set; congruence|]. intros _.
  destruct admitted; [|apply keeps_from_keeps; repeat keeps_step].
  apply keeps_from_bind; [apply keeps_from_keeps; keeps_step|]. intros _.
  apply keeps_from_bind;
    [apply keeps_from_set; rewrite policy_set_process; congruence|]. intros _.
  apply keeps_from_bind.
  { destruct (String.eqb (name self') (enum_value HTTP)).
    - apply keeps_from_set. rewrite <- Hd, <- Hp. reflexivity.
    - apply keeps_from_keeps. keeps_step. }
  intros _.
  apply keeps_from_bind;
    [apply keeps_from_keeps, keeps_start_process; reflexivity|]. intros _.
  apply keeps_from_keeps. apply keeps_after_start. reflexivity.
Qed.

Lemma keeps_policy_join_process_round k : keeps policy_of (join_process_round cfg os k).
Proof.
  intros w. apply (keeps_from_try_finally policy_of k
                     (policy_of (trunc_processes_struct w k))); [| |reflexivity].
  - apply keeps_from_keeps. keeps_step; [now apply keeps_wait_for_exit|].
    keeps_step; [keeps_step|]. now apply keeps_close_api_gracefully.
  - apply keeps_policy_restart_or_finish.
Qed.

(** X20.  No operation of the supervisor writes the policy of a
    descriptor: its name, entrypoint, port, [need_to_run], [started],
    [restart_on_failure], [max_restart_count] and
    [max_restart_interval_seconds] are after a shutdown, a start-up, the
    health checks and any number of rounds of a watch loop what the
    composition made them; and the restart histories are written by
    nothing but the restart logic of the watch loop. *)
Theorem policy_is_kept k (rounds : nat) :
  keeps policy_of (close_api_gracefully os)
  /\ keeps policy_of (start_needed os)
  /\ keeps policy_of (wait_apis_start os)
  /\ keeps policy_of (join_process cfg os rounds k)
  /\ keeps settings_of (close_api_gracefully os)
  /\ keeps settings_of (start_needed os)
  /\ keeps settings_of (wait_apis_start os).
Proof.
  split; [now apply keeps_close_api_gracefully|].
  split; [now apply keeps_start_needed|].
  split; [now apply keeps_wait_apis_start|].
  split.
  - induction rounds as [|rounds IH]; cbn [join_process]; [apply keeps_ret|].
    apply keeps_bind; [apply keeps_policy_join_process_round|].
    intros finish. destruct finish; [apply keeps_ret|exact IH].
  - split; [now apply keeps_close_api_gracefully|].
    split; [now apply keeps_start_needed|now apply keeps_wait_apis_start].
Qed.

End PolicyKept.

Section RestartBudget.

Variable cfg : Config.
Variable os : OS.

Implicit Types (w : World) (k : TrunkProcessEnum).

Lemma count_starts_none evs :
  Forall (fun ev => is_start ev = false) evs -> count_starts evs = 0%nat.
Proof. intros H. unfold count_starts. now rewrite filter_none. Qed.

Lemma starts_within_quiet {A} (m : M A) :
  within (fun ev => is_start ev = false) m -> starts_within 0 m.
Proof.
  intros H w. destruct (H w) as ((evs & Ht & Hq) & _).
  exists evs. split; [exact Ht|]. now rewrite count_starts_none.
Qed.

Lemma starts_within_bind {A B} (a b : nat) (m : M A) (g : A -> M B) :
  starts_within a m -> (forall x, starts_within b (g x)) ->
  starts_within (a + b) (bind m g).
Proof.
  intros Hm Hg w. unfold bind. destruct (Hm w) as (e1 & T1 & C1).
  destruct (m w) as [[e|x] w1]; cbn [snd] in *.
  - exists e1. split; [exact T1|lia].
  - destruct (Hg x w1) as (e2 & T2 & C2). exists (e1 ++ e2).
    split; [now rewrite T2, T1, app_assoc|]. rewrite count_starts_app. lia.
Qed.

Lemma starts_within_set_data {A} k d (g : M A) (n : nat) :
  starts_within n g -> starts_within n (bind (set_data k d) (fun _ => g)).
Proof.
  intros Hg w. unfold bind, set_data. cbn [fst snd].
  match goal with |- context [g ?w1] => destruct (Hg w1) as (evs & T & C) end.
  exists evs. split; [exact T|exact C].
Qed.

Lemma within_wait_api_start nm of_pid on_port :
  within (fun ev => is_start ev = false) (wait_api_start os nm of_pid on_port).
Proof.
  assert (Hloop : forall rounds start started,
            within (fun ev => is_start ev = false)
              (wait_loop os rounds start of_pid on_port started)).
  { induction rounds as [|rounds IH]; intros start started; cbn [wait_loop].
    - repeat (within_step; try reflexivity).
    - repeat (within_step; try reflexivity); try (unfold poll_interval_ms; lia).
      apply IH. }
  unfold wait_api_start. repeat (within_step; try reflexivity). apply Hloop.
Qed.

Lemma within_after_start k :
  within (fun ev => is_start ev = false)
    (let! d := get_data k in
     let! p := match process d with
               | None => raise AttributeError
               | Some p => ret p
               end in
     let! r := wait_api_start os (name d) (pid p) (port d) in
     do! log_health os r in ret false).
Proof.
  within_step; [within_step|]. within_step; [repeat within_step|].
  within_step; [apply within_wait_api_start|].
  within_step; [|within_step].
  unfold log_health. destruct a1 as [[nm po] b]. destruct b; within_step; reflexivity.
Qed.

Lemma starts_within_start_process k : starts_within 1 (start_process os k).
Proof.
  intros w.
  destruct (proc_start os
              (trace w ++ [EvLog LogInfo
                             (MsgStarting (name (trunc_processes_struct w k)))])
              (name (trunc_processes_struct w k))) as [e|n] eqn:Hs.
  - rewrite (start_process_failed os k w e Hs).
    match goal with |- context [snd (_ ?w2)] => set (w2' := w2) end.
    assert (Ht2 : exists evs, trace w2' = trace w ++ evs
                              /\ (count_starts evs <= 1)%nat).
    { subst w2'. unfold ask, emit, set_data. cbn [fst snd trace]. rewrite Hs.
      eexists. split; [rewrite <- app_assoc; reflexivity|]. cbn. lia. }
    destruct Ht2 as (e2 & T2 & C2).
    destruct (is_Exception e).
    + assert (Hh : within (fun ev => is_start ev = false)
                (bind (emit os (EvLog LogError
                                  (MsgFailedToStart
                                     (name (trunc_processes_struct w k)) e)))
                   (fun _ => bind (close_api_gracefully os)
                               (fun _ => @raise unit e)))).
      { within_step; [within_step; reflexivity|].
        within_step; [apply within_close_api_gracefully|within_step]. }
      destruct (Hh w2') as ((e3 & T3 & Q3) & _).
      exists (e2 ++ e3). split; [now rewrite T3, T2, app_assoc|].
      rewrite count_starts_app, (count_starts_none e3) by assumption. lia.
    + exists e2. split; [exact T2|exact C2].
  - destruct (start_process_succeeded os k w n Hs) as (w' & -> & _ & _ & _ & Ht).
    cbn [snd]. eexists. split; [rewrite Ht, <- app_assoc; reflexivity|]. cbn. lia.
Qed.

Lemma try_finally_snd {A B} (body : M A) (final : M B) w :
  snd (try_finally body final w) = snd (final (snd (body w))).
Proof.
  unfold try_finally. destruct (body w) as [[e|a] w1]; cbn [snd]; [|reflexivity].
  now destruct (final w1) as [[e'|b] w2].
Qed.

Lemma within_read_should_restart k :
  within (fun ev => is_start ev = false) (read_should_restart cfg os k).
Proof.
  unfold read_should_restart. within_step; [within_step|].
  within_step; [|within_step].
  destruct (negb (config_is_cloud cfg)
            && negb (platform_in_linux_darwin (sys_platform cfg))
            && (max_restart_count a =? 0)); within_step; reflexivity.
Qed.

Lemma settings_inv d d' :
  settings_of d' = settings_of d ->
  policy_of d' = policy_of d /\ _restarts_time d' = _restarts_time d.
Proof.
  intros H. split; [exact (f_equal fst H)|exact (f_equal snd H)].
Qed.

Lemma policy_inv d d' :
  policy_of d' = policy_of d ->
  max_restart_count d' = max_restart_count d
  /\ max_restart_interval_seconds d' = max_restart_interval_seconds d.
Proof. unfold policy_of. intros H. injection H. auto. Qed.

Lemma restart_step_quiet k w w' :
  same_on settings_of w w' ->
  (exists evs, trace w' = trace w ++ evs
               /\ Forall (fun ev => is_start ev = false) evs) ->
  restart_step k w w'.
Proof.
  intros Hs (evs & Ht & Hq). destruct (settings_inv _ _ (Hs k)) as (Hp & Hh).
  unfold restart_step. cbv zeta.
  split; [exact Hp|]. exists evs. rewrite (count_starts_none evs Hq), Hh.
  repeat split; try lia; try exact Ht.
Qed.

Lemma restart_step_after k w w1 w2 :
  same_on settings_of w w1 ->
  (exists evs, trace w1 = trace w ++ evs
               /\ Forall (fun ev => is_start ev = false) evs) ->
  restart_step k w1 w2 -> restart_step k w w2.
Proof.
  intros Hs (e1 & T1 & Q1) (Hp & e2 & T2 & C2 & L2 & S2).
  destruct (settings_inv _ _ (Hs k)) as (Hp1 & Hh1).
  cbv zeta in *. unfold restart_step. cbv zeta.
  destruct (policy_inv _ _ Hp1) as (HN & _).
  split; [congruence|]. exists (e1 ++ e2).
  rewrite count_starts_app, (count_starts_none e1 Q1), <- Hh1, <- HN.
  repeat split; try assumption.
  - now rewrite T2, T1, app_assoc.
  - apply S2. assumption.
  - apply S2. assumption.
Qed.

Lemma restart_or_finish_step k w :
  max_restart_count (trunc_processes_struct w k) <> 0 ->
  max_restart_interval_seconds (trunc_processes_struct w k) <= 0 ->
  restart_step k w (snd (restart_or_finish cfg os k w)).
Proof.
  intros HN HW.
  pose proof (keeps_read_should_restart cfg os settings_of k w) as Hk1.
  destruct (within_read_should_restart k w) as (Hq1 & _).
  unfold restart_or_finish. unfold bind at 1.
  destruct (read_should_restart cfg os k w) as [[e|restart] w2]; cbn [fst snd] in *.
  { now apply restart_step_quiet. }
  apply (restart_step_after k w w2); [exact Hk1|exact Hq1|].
  destruct (settings_inv _ _ (Hk1 k)) as (Hp1 & _).
  destruct (policy_inv _ _ Hp1) as (HN2 & HW2).
  rewrite <- HN2 in HN. rewrite <- HW2 in HW.
  clear Hk1 Hq1 Hp1 HN2 HW2.
  unfold bind at 1. unfold get_data at 1. cbn [fst snd].
  destruct restart.
  2:{ apply restart_step_quiet.
      - apply (@keeps_bind _ settings_of); [keeps_step|intros; keeps_step].
      - assert (Hq : within (fun ev => is_start ev = false)
                  (do! emit os (EvLog LogInfo
                                  (MsgStopped (name (trunc_processes_struct w2 k))))
                   in ret true)).
        { within_step; within_step. reflexivity. }
        apply (Hq w2). }
  unfold bind at 1. unfold get_clock at 1. cbn [fst snd].
  rewrite request_restart_attempt_eq.
  destruct (Z.eqb_spec (max_restart_count (trunc_processes_struct w2 k)) 0) as [E|_];
    [contradiction|].
  unfold spec_history.
  destruct (Z.ltb_spec 0 (max_restart_interval_seconds (trunc_processes_struct w2 k)));
    [lia|].
  cbv beta iota zeta.
  set (d2 := trunc_processes_struct w2 k) in *.
  set (self' := set_restarts_time (_restarts_time d2 ++ [Z.quot (clock w2) 1000]) d2).
  assert (Hlen : length (_restarts_time self') = S (length (_restarts_time d2))).
  { subst self'. cbn. rewrite length_app. cbn. lia. }
  change (_restarts_time d2 ++ [Z.quot (clock w2) 1000]) with (_restarts_time self').
  destruct (Z.leb_spec (Z.of_nat (length (_restarts_time self')))
              (max_restart_count d2)) as [Hle|Hgt].
  - match goal with
    | |- restart_step k w2 (snd (bind (set_data k self') (fun _ => ?m) w2)) =>
        assert (Hk : keeps_from settings_of k (settings_of self') m);
        [|assert (Hc : starts_within 1 m)]
    end.
    { apply keeps_from_bind; [apply keeps_from_keeps; keeps_step|]. intros _.
      apply keeps_from_bind; [apply keeps_from_set; reflexivity|]. intros _.
      apply keeps_from_bind.
      { destruct (String.eqb (name self') (enum_value HTTP)).
        - apply keeps_from_set. reflexivity.
        - apply keeps_from_keeps. keeps_step. }
      intros _.
      apply keeps_from_bind;
        [apply keeps_from_keeps, keeps_start_process; reflexivity|]. intros _.
      apply keeps_from_keeps. apply keeps_after_start. reflexivity. }
    { apply (starts_within_bind 0 1);
        [apply starts_within_quiet; within_step; reflexivity|]. intros _.
      apply starts_within_set_data.
      apply (starts_within_bind 0 1).
      { apply starts_within_quiet.
        destruct (String.eqb (name self') (enum_value HTTP)); within_step. }
      intros _.
      apply (starts_within_bind 1 0); [apply starts_within_start_process|].
      intros _. apply starts_within_quiet, within_after_start. }
    unfold bind at 1. unfold set_data at 1. cbn [fst snd].
    match goal with |- restart_step k w2 (snd (_ ?w3)) => set (w3' := w3) end.
    assert (H3 : settings_of (trunc_processes_struct w3' k) = settings_of self').
    { subst w3'. cbn [trunc_processes_struct]. now rewrite update_eq. }
    specialize (Hk w3' H3 k). rewrite H3 in Hk.
    destruct (settings_inv _ _ Hk) as (Hp & Hh).
    destruct (Hc w3') as (evs & Ht & Hcount).
    unfold restart_step. cbv zeta. fold d2.
    split; [rewrite Hp; reflexivity|].
    exists evs. rewrite Hh, Hlen.
    repeat split; try lia. exact Ht.
  - unfold bind, set_data, emit, ret. cbn [fst snd].
    unfold restart_step. cbv zeta. cbn [trunc_processes_struct trace].
    rewrite update_eq. fold d2.
    split; [reflexivity|]. eexists. split; [reflexivity|].
    rewrite Hlen. cbn. repeat split; try lia.
Qed.

Lemma within_wait_for_exit k :
  within (fun ev => is_start ev = false) (wait_for_exit os k).
Proof.
  unfold wait_for_exit. repeat (within_step; try reflexivity).
Qed.

Lemma join_process_round_step k w :
  max_restart_count (trunc_processes_struct w k) <> 0 ->
  max_restart_interval_seconds (trunc_processes_struct w k) <= 0 ->
  restart_step k w (snd (join_process_round cfg os k w)).
Proof.
  intros HN HW. unfold join_process_round. rewrite try_finally_snd.
  match goal with |- restart_step k w (snd (_ (snd (?body w)))) =>
    assert (Hk : keeps settings_of body);
    [|assert (Hq : within (fun ev => is_start ev = false) body)]
  end.
  { keeps_step; [now apply keeps_wait_for_exit|].
    keeps_step; [keeps_step|]. now apply keeps_close_api_gracefully. }
  { within_step; [apply within_wait_for_exit|].
    within_step; [within_step; reflexivity|apply within_close_api_gracefully]. }
  eapply restart_step_after; [apply Hk|apply Hq|].
  destruct (settings_inv _ _ (Hk w k)) as (Hp & _).
  destruct (policy_inv _ _ Hp) as (HN1 & HW1).
  apply restart_or_finish_step; congruence.
Qed.

(** X21.  A watch loop whose descriptor has a bound on its restarts
    ([max_restart_count] not 0) and no window ([max_restart_interval_seconds]
    not positive) starts, over any number of rounds and whatever the outside
    answers, no more processes than the bound leaves after the attempts
    already in the history: at most
    [max_restart_count - len(_restarts_time)], and none when the history is
    already that long. *)
Theorem restart_budget (rounds : nat) k w :
  max_restart_count (trunc_processes_struct w k) <> 0 ->
  max_restart_interval_seconds (trunc_processes_struct w k) <= 0 ->
  exists evs,
    trace (snd (join_process cfg os rounds k w)) = trace w ++ evs
    /\ Z.of_nat (count_starts evs)
       <= Z.max 0 (max_restart_count (trunc_processes_struct w k)
                   - Z.of_nat (length (_restarts_time (trunc_processes_struct w k)))).
Proof.
  revert w. induction rounds as [|rounds IH]; intros w HN HW; cbn [join_process].
  { exists []. cbn. rewrite app_nil_r. split; [reflexivity|lia]. }
  pose proof (join_process_round_step k w HN HW) as Hstep.
  unfold bind.
  destruct (join_process_round cfg os k w) as [[e|finish] w1]; cbn [fst snd] in *.
  all: destruct Hstep as (Hp & e1 & T1 & C1 & L1 & S1); cbv zeta in *.
  - exists e1. split; [exact T1|].
    destruct (Nat.eq_dec (count_starts e1) 1%nat) as [E|E]; [|lia].
    destruct (S1 E). lia.
  - destruct (policy_inv _ _ Hp) as (HN1 & HW1).
    destruct finish; cbn [snd].
    + exists e1. split; [exact T1|].
      destruct (Nat.eq_dec (count_starts e1) 1%nat) as [E|E]; [|lia].
      destruct (S1 E). lia.
    + destruct (IH w1) as (e2 & T2 & C2); [congruence|lia|].
      exists (e1 ++ e2). split; [now rewrite T2, T1, app_assoc|].
      rewrite count_starts_app, HN1 in *.
      destruct (Nat.eq_dec (count_starts e1) 1%nat) as [E|E].
      * destruct (S1 E). lia.
      * lia.
Qed.

End RestartBudget.

Lemma restart_budget_witness :
  exists evs,
    trace (snd (join_process win32_local os_psutil 6 HTTP
                  (mkWorld (update HTTP bounded_forever_http http_only) false
                     1700000000000 [])))
      = evs
    /\ Z.of_nat (count_starts evs) <= 3.
Proof.
  destruct (restart_budget win32_local os_psutil 6 HTTP
              (mkWorld (update HTTP bounded_forever_http http_only) false
                 1700000000000 []))
    as (evs & Ht & Hc).
  - vm_compute. discriminate.
  - vm_compute. discriminate.
  - exists evs. split; [exact Ht|exact Hc].
Defined.
